(** * Remote execution dispatch and sandboxed run: a shallow embedding

    The development follows the two TypeScript units that make up the
    remote-execution core:

    - the SQS queue classes ([SqsExecuteQueueBase], [SqsExecuteRequester],
      [SqsWorkerMode]) and [startExecutionWorkerThread];
    - [LocalExecutionEnvironment] (package download, option assembly,
      [execute], [execBinary]).

    It then covers the units around them: the compilation statistics
    ([filterCompilerOptions], [StatsNoter], [createStatsNoter]), the
    assembly compiler ([getGeneratedOutputFilename], [getArchitecture],
    [runLinker]) and the diff pane ([DiffStateObject], [onCompiler],
    [onCompileResult], [onExecuteResult], [requestResendResult]).

    JavaScript control flow is made explicit: a synchronous computation ends
    in a [Completion] (normal value or thrown value), an [async] function
    yields a [Promise] given by its settled outcome, and the objects the
    code mutates (the broker queue, the environment object, the timer list)
    are threaded as state. *)

From Stdlib Require Import String Ascii List ZArith Lia Bool.
From stdpp Require Import base option list strings gmap pretty.

Local Open Scope Z_scope.

(* ===================================================================== *)
(** * JavaScript preliminaries *)
(* ===================================================================== *)

Module Js.

(** Property values that the code inspects on thrown objects. *)
Inductive Value :=
| VUndefined
| VNum (n : Z)
| VStr (s : string).

(** [if (v)] on such a value. *)
Definition truthy (v : Value) : bool :=
  match v with
  | VUndefined => false
  | VNum n => negb (n =? 0)
  | VStr s => negb (String.eqb s EmptyString)
  end.

(** A thrown object as a handler observes it: the constructor name, the
    [message] (an own but non-enumerable property of every [Error]) and
    the enumerable own properties (what [fs] or [exec] errors carry:
    [code], [stderr], [errno], ...). *)
Record Thrown := mkThrown {
  thr_class : string;
  thr_message : string;
  thr_props : list (string * Value);
}.

(** [new Error(msg)] *)
Definition new_Error (msg : string) : Thrown := mkThrown "Error" msg [].

(** [err.name] for a property name: absent properties read as
    [undefined]. *)
Fixpoint get_prop (props : list (string * Value)) (k : string) : Value :=
  match props with
  | [] => VUndefined
  | (k', v) :: rest => if String.eqb k k' then v else get_prop rest k
  end.

(** Outcome of a synchronous computation. *)
Inductive Completion (A : Type) :=
| Normal (a : A)
| Throw (e : Thrown).
Arguments Normal {A} a.
Arguments Throw {A} e.

(** A promise, by its settled outcome. *)
Inductive Promise (A : Type) :=
| Resolved (a : A)
| Rejected (e : Thrown).
Arguments Resolved {A} a.
Arguments Rejected {A} e.

(** The promise of an async function whose body completed with [c]. *)
Definition async {A} (c : Completion A) : Promise A :=
  match c with
  | Normal a => Resolved a
  | Throw e => Rejected e
  end.

(** The promise of an async function whose body ran [return p] on a
    promise [p] without awaiting it: the function's promise adopts [p]. *)
Definition async_adopt {A} (c : Completion (Promise A)) : Promise A :=
  match c with
  | Normal p => p
  | Throw e => Rejected e
  end.

Definition bind {A B} (c : Completion A) (k : A -> Completion B)
  : Completion B :=
  match c with
  | Normal a => k a
  | Throw e => Throw e
  end.

(** [try { body } catch (err) { handler }] *)
Definition try_catch {A} (body : Completion A)
           (handler : Thrown -> Completion A) : Completion A :=
  match body with
  | Normal a => Normal a
  | Throw e => handler e
  end.

Definition dquote : string := String (ascii_of_nat 34) EmptyString.

Fixpoint join (sep : string) (parts : list string) : string :=
  match parts with
  | [] => EmptyString
  | [p] => p
  | p :: rest => p +:+ sep +:+ join sep rest
  end.

(** [JSON.stringify] of a thrown object: only enumerable own properties
    are serialised, properties holding [undefined] are left out.  The
    escaping of string contents is the engine's ([quote]). *)
Section Stringify.
Variable quote : string -> string.

Definition stringify_member (kv : string * Value) : option string :=
  match kv.2 with
  | VUndefined => None
  | VNum n => Some (quote kv.1 +:+ ":" +:+ pretty n)
  | VStr s => Some (quote kv.1 +:+ ":" +:+ quote s)
  end.

Definition JSON_stringify_thrown (e : Thrown) : string :=
  "{" +:+ join "," (omap stringify_member (thr_props e)) +:+ "}".
End Stringify.

(** The escaping used in the examples: no character needs an escape. *)
Definition plain_quote (s : string) : string := dquote +:+ s +:+ dquote.

End Js.

Import Js.

#[global] Instance completion_ret : MRet Completion := @Normal.
#[global] Instance completion_bind : MBind Completion :=
  fun A B k c => Js.bind c k.

(** ** State and exceptions

    Code that talks to the broker, the cache or the file system is a
    function from the state before to a completion and the state after.
    Calling an async function and awaiting it is one such step. *)

Definition Eff (S A : Type) : Type := S -> Completion A * S.

#[global] Instance eff_ret {S} : MRet (Eff S) :=
  fun A a s => (Normal a, s).
#[global] Instance eff_bind {S} : MBind (Eff S) :=
  fun A B k m s =>
    match m s with
    | (Normal a, s') => k a s'
    | (Throw e, s') => (Throw e, s')
    end.

Definition throw {S A} (e : Thrown) : Eff S A := fun s => (Throw e, s).

(** [try { body } catch (err) { handler }] *)
Definition eff_try_catch {S A} (body : Eff S A) (handler : Thrown -> Eff S A)
  : Eff S A :=
  fun s =>
    match body s with
    | (Normal a, s') => (Normal a, s')
    | (Throw e, s') => handler e s'
    end.

(** [try { body } finally { fin }]: [fin] runs on every exit of [body];
    the completion of [body] stands unless [fin] itself throws. *)
Definition eff_try_finally {S A} (body : Eff S A) (fin : Eff S unit)
  : Eff S A :=
  fun s =>
    let '(c, s1) := body s in
    match fin s1 with
    | (Normal _, s2) => (c, s2)
    | (Throw e, s2) => (Throw e, s2)
    end.

(** Run an effect on the first component of a pair of states. *)
Definition on_fst {S T A} (m : Eff S A) : Eff (S * T) A :=
  fun st => let '(c, s') := m st.1 in (c, (s', st.2)).

(** Read and write the second component (the object [this]). *)
Definition get_snd {S T} : Eff (S * T) T := fun st => (Normal st.2, st).
Definition put_snd {S T} (t : T) : Eff (S * T) unit :=
  fun st => (Normal tt, (st.1, t)).

(** The settled promise of an async call together with the state it left. *)
Definition run_async {S A} (m : Eff S A) (s : S) : Promise A * S :=
  let '(c, s') := m s in (async c, s').

(* ===================================================================== *)
(** * Data model *)
(* ===================================================================== *)

Module Types.

(** [RuntimeToolType]: the two tags the code tests for, and the rest. *)
Inductive RuntimeToolType :=
| RuntimeToolType_env
| RuntimeToolType_heaptrack
| RuntimeToolType_other (tag : string).

Definition RuntimeToolType_eqb (a b : RuntimeToolType) : bool :=
  match a, b with
  | RuntimeToolType_env, RuntimeToolType_env => true
  | RuntimeToolType_heaptrack, RuntimeToolType_heaptrack => true
  | RuntimeToolType_other s, RuntimeToolType_other t => String.eqb s t
  | _, _ => false
  end.

Record RuntimeToolOption := mkOption {
  opt_name : string;
  opt_value : string;
}.

Record ConfiguredRuntimeTool := mkTool {
  tool_name : RuntimeToolType;
  tool_options : list RuntimeToolOption;
}.

(** [params.args]: a string to be tokenised, a list, or absent. *)
Inductive Args :=
| args_undefined
| args_string (s : string)
| args_list (l : list string).

Record ExecutionParams := mkParams {
  args : Args;
  stdin : option string;
  runtimeTools : option (list ConfiguredRuntimeTool);
}.

Record RemoteExecutionMessage := mkMessage {
  guid : string;
  hash : string;
  params : ExecutionParams;
}.

Record ExecutionTriple := mkTriple {
  instructionSet : string;
  os : string;
  specialty : string;
}.

(** [ExecutionOptions]: every field is optional in the TypeScript type. *)
Record ExecutionOptions := mkExecutionOptions {
  eo_env : option (gmap string string);
  eo_timeoutMs : option Z;
  eo_maxOutput : option Z;
  eo_ldPath : option (list string);
  eo_input : option string;
  eo_customCwd : option string;
  eo_appHome : option string;
}.

Record ExecutableExecutionOptions := mkExecutableExecutionOptions {
  eep_args : list string;
  eep_stdin : string;
  eep_ldPath : option (list string);
  eep_env : option (gmap string string);
  eep_runtimeTools : option (list ConfiguredRuntimeTool);
}.

Record UnprocessedExecResult := mkUnprocessed {
  uer_code : Z;
  uer_timedOut : bool;
  uer_stdout : string;
  uer_stderr : string;
}.

Record ResultLine := mkLine {
  line_text : string;
  line_tag : option string;
}.

Record BasicExecutionResult := mkBasic {
  ber_code : Value;
  ber_timedOut : bool;
  ber_stdout : list ResultLine;
  ber_stderr : list ResultLine;
  ber_processExecutionResultTime : option Z;
}.

Inductive LineParseOption :=
| AtFileLine
| LineParseOption_other (tag : string).

(** The [defaultExecOptions] record of a bundle's metadata. *)
Record DefaultExecOptions := mkDefaultExecOptions {
  deo_env : option (gmap string string);
}.

(** The parsed [compilation-result.json], as far as the code reads it. *)
Record BuildResultsJson := mkBuildResultsJson {
  json_inputFilename : option string;
  json_executableFilename : option string;
  json_defaultExecOptions : option DefaultExecOptions;
  json_preparedLdPaths : option (list string);
}.

(** [Object.assign({}, buildResults, {code, inputFilename, dirPath,
    executableFilename, packageDownloadAndUnzipTime})]: the parsed object
    with five fields overridden. *)
Record BuildResult := mkBuildResult {
  br_parsed : BuildResultsJson;
  br_code : Z;
  br_inputFilename : string;
  br_dirPath : string;
  br_executableFilename : string;
  br_packageDownloadAndUnzipTime : string;
}.

Definition br_defaultExecOptions (b : BuildResult) :=
  json_defaultExecOptions (br_parsed b).
Definition br_preparedLdPaths (b : BuildResult) :=
  json_preparedLdPaths (br_parsed b).

Record CacheGetResult := mkCacheGetResult {
  cache_hit : bool;
  cache_data : option string;
}.

(** An SQS message as [receiveMessage] hands it out. *)
Record SqsMessage := mkSqsMessage {
  Body : option string;
  ReceiptHandle : option string;
}.

Record ReceiveMessageRequest := mkReceive {
  recv_QueueUrl : string;
  recv_MaxNumberOfMessages : Z;
}.

Record ReceiveMessageResult := mkReceived {
  Messages : option (list SqsMessage);
}.

Record DeleteMessageRequest := mkDelete {
  del_QueueUrl : string;
  del_ReceiptHandle : string;
}.

Record SendMessageRequest := mkSend {
  QueueUrl : string;
  MessageBody : string;
  MessageGroupId : string;
  MessageDeduplicationId : string;
}.

(** [if (s)] on an optional string: defined and non-empty. *)
Definition truthy_string (s : option string) : option string :=
  match s with
  | Some v => if String.eqb v EmptyString then None else Some v
  | None => None
  end.

End Types.

Import Types.

(* ===================================================================== *)
(** * The host: collaborators outside the sources

    Everything the code imports from modules that are not part of the
    sources (the AWS client, [fs], [path], [temp], [utils], [exec], the
    packager, the cache, the websocket sender, the engine's JSON) is a field
    of [Host], over an abstract host state [H]. *)
(* ===================================================================== *)

(** A [PropertyGetter], at the two types it is called at. *)
Record PropertyGetter := mkProps {
  prop_string : string -> string -> string;
  prop_number : string -> Z -> Z;
}.

Record CompilationEnvironment := mkCompilationEnvironment {
  ceProps : PropertyGetter;
}.

Record Host (H : Type) := mkHost {
  (* the engine's JSON *)
  JSON_stringify_message : RemoteExecutionMessage -> string;
  JSON_parse_message : string -> option RemoteExecutionMessage;
  JSON_parse_buildResults : string -> option BuildResultsJson;
  JSON_syntax_error_message : string -> string;
  JSON_quote : string -> string;
  (* utils, assert, path *)
  getHash : string -> string;
  ExecutionTriple_toString : ExecutionTriple -> string;
  assertion_error : Thrown;
  utils_maskRootdir : string -> string;
  utils_splitArguments : string -> list string;
  utils_parseOutput : Value -> option (list LineParseOption) -> list ResultLine;
  utils_processExecutionResult : Thrown -> BasicExecutionResult;
  utils_getEmptyExecutionResult : BasicExecutionResult;
  path_join : string -> string -> string;
  path_basename : string -> string;
  path_delimiter : string;
  propsFor_execution : PropertyGetter;
  (* the SQS client *)
  sqs_sendMessage : SendMessageRequest -> Eff H unit;
  sqs_receiveMessage : ReceiveMessageRequest -> Eff H ReceiveMessageResult;
  sqs_deleteMessage : DeleteMessageRequest -> Eff H unit;
  (* cache, packager, file system, clocks *)
  temp_mkdir : Eff H string;
  hrtime_bigint : Eff H Z;
  performance_now : Eff H Z;
  executableCache_get : string -> Eff H CacheGetResult;
  fs_writeFile : string -> string -> Eff H unit;
  fs_readFile : string -> Eff H string;
  packager_unpack : string -> string -> Eff H unit;
  (* process execution *)
  exec_sandbox : string -> list string -> ExecutionOptions
                 -> Eff H UnprocessedExecResult;
  HeaptrackWrapper_isSupported : CompilationEnvironment -> bool;
  HeaptrackWrapper_exec : string -> list RuntimeToolOption -> string
                          -> string -> list string -> ExecutionOptions
                          -> Eff H UnprocessedExecResult;
  (* the websocket sender *)
  EventsWsSender_send : string -> UnprocessedExecResult -> Eff H unit;
  EventsWsSender_close : Eff H unit;
}.

Arguments JSON_stringify_message {H}.
Arguments JSON_parse_message {H}.
Arguments JSON_parse_buildResults {H}.
Arguments JSON_syntax_error_message {H}.
Arguments JSON_quote {H}.
Arguments getHash {H}.
Arguments ExecutionTriple_toString {H}.
Arguments assertion_error {H}.
Arguments utils_maskRootdir {H}.
Arguments utils_splitArguments {H}.
Arguments utils_parseOutput {H}.
Arguments utils_processExecutionResult {H}.
Arguments utils_getEmptyExecutionResult {H}.
Arguments path_join {H}.
Arguments path_basename {H}.
Arguments path_delimiter {H}.
Arguments propsFor_execution {H}.
Arguments sqs_sendMessage {H}.
Arguments sqs_receiveMessage {H}.
Arguments sqs_deleteMessage {H}.
Arguments temp_mkdir {H}.
Arguments hrtime_bigint {H}.
Arguments performance_now {H}.
Arguments executableCache_get {H}.
Arguments fs_writeFile {H}.
Arguments fs_readFile {H}.
Arguments packager_unpack {H}.
Arguments exec_sandbox {H}.
Arguments HeaptrackWrapper_isSupported {H}.
Arguments HeaptrackWrapper_exec {H}.
Arguments EventsWsSender_send {H}.
Arguments EventsWsSender_close {H}.

(** The error [JSON.parse] throws: a [SyntaxError], which has no
    enumerable own property. *)
Definition SyntaxError {H} (host : Host H) (text : string) : Thrown :=
  mkThrown "SyntaxError" (JSON_syntax_error_message host text) [].

(* ===================================================================== *)
(** * The request queue *)
(* ===================================================================== *)

Module Sqs.
Section WithHost.
Context {H : Type} (host : Host H).

Record SqsExecuteQueueBase := mkQueueBase {
  queue_url : string;
}.

(** The constructor: the region only configures the client; an empty
    [execqueue.queue_url] is refused. *)
Definition SqsExecuteQueueBase_new (props awsProps : PropertyGetter)
  : Completion SqsExecuteQueueBase :=
  let region := prop_string awsProps "region" EmptyString in
  let url := prop_string props "execqueue.queue_url" EmptyString in
  if String.eqb url EmptyString
  then Throw (new_Error "execqueue.queue_url property required")
  else Normal (mkQueueBase url).

Definition getSqsQueueUrl (self : SqsExecuteQueueBase)
           (triple : ExecutionTriple) : string :=
  queue_url self +:+ "-" +:+ ExecutionTriple_toString host triple +:+ ".fifo".

(** [SqsExecuteRequester.push]: the request handed to [sendMessage]. *)
Definition push_request (self : SqsExecuteQueueBase)
           (triple : ExecutionTriple) (message : RemoteExecutionMessage)
  : SendMessageRequest :=
  let body := JSON_stringify_message host message in
  {| QueueUrl := getSqsQueueUrl self triple;
     MessageBody := body;
     MessageGroupId := "default";
     MessageDeduplicationId := getHash host body |}.

Definition push (self : SqsExecuteQueueBase) (triple : ExecutionTriple)
           (message : RemoteExecutionMessage) : Eff H unit :=
  sqs_sendMessage host (push_request self triple message).

Record SqsWorkerMode := mkWorkerMode {
  base : SqsExecuteQueueBase;
  triple : ExecutionTriple;
}.

(** [new SqsWorkerMode(props, awsProps)]; [default_triple] is what
    [new ExecutionTriple()] builds. *)
Definition SqsWorkerMode_new (default_triple : ExecutionTriple)
           (props awsProps : PropertyGetter) : Completion SqsWorkerMode :=
  b ← SqsExecuteQueueBase_new props awsProps;
  mret (mkWorkerMode b default_triple).

(** The [try] block of [pop]. *)
Definition pop_try (queued_message : SqsMessage)
  : Eff H (option RemoteExecutionMessage) :=
  match truthy_string (Body queued_message) with
  | Some json =>
      match JSON_parse_message host json with
      | Some m => mret (Some m)
      | None => throw (SyntaxError host json)
      end
  | None => mret None
  end.

(** The [finally] block of [pop]. *)
Definition pop_finally (url : string) (queued_message : SqsMessage)
  : Eff H unit :=
  match truthy_string (ReceiptHandle queued_message) with
  | Some handle =>
      sqs_deleteMessage host
        {| del_QueueUrl := url; del_ReceiptHandle := handle |}
  | None => mret tt
  end.

Definition pop (self : SqsWorkerMode)
  : Eff H (option RemoteExecutionMessage) :=
  let url := getSqsQueueUrl (base self) (triple self) in
  queued_messages ← sqs_receiveMessage host
    {| recv_QueueUrl := url; recv_MaxNumberOfMessages := 1 |};
  match Messages queued_messages with
  | Some [queued_message] =>
      eff_try_finally (pop_try queued_message)
                      (pop_finally url queued_message)
  | _ => mret None
  end.

End WithHost.
End Sqs.

(* ===================================================================== *)
(** * LocalExecutionEnvironment *)
(* ===================================================================== *)

Module Local.

(** The fields of the object. *)
Record LocalExecutionEnvironment := mkLocal {
  dirPath : string;
  buildResult : option BuildResult;
  environment : CompilationEnvironment;
  timeoutMs : Z;
  sandboxType : string;
  useSanitizerEnvHints : bool;
  maxExecOutputSize : Z;
}.

Definition set_dirPath (d : string) (o : LocalExecutionEnvironment) :=
  mkLocal d (buildResult o) (environment o) (timeoutMs o) (sandboxType o)
          (useSanitizerEnvHints o) (maxExecOutputSize o).

Definition set_buildResult (b : BuildResult)
           (o : LocalExecutionEnvironment) :=
  mkLocal (dirPath o) (Some b) (environment o) (timeoutMs o)
          (sandboxType o) (useSanitizerEnvHints o) (maxExecOutputSize o).

(** The baseline sanitizer hints of [execBinary]. *)
Definition sanitizer_hints : gmap string string :=
  <["LSAN_OPTIONS" := "color=always"]>
    (<["MSAN_OPTIONS" := "color=always"]>
      (<["UBSAN_OPTIONS" := "color=always"]>
        (<["ASAN_OPTIONS" := "color=always"]> ∅))).

(** An object literal [{ ...first, ...second }]: the properties of
    [second] are copied over those of [first]. *)
Definition spread (first second : gmap string string)
  : gmap string string := second ∪ first.

(** [...m] of a possibly undefined object copies nothing when it is
    undefined. *)
Definition spread_of (m : option (gmap string string))
  : gmap string string := default ∅ m.

Section WithHost.
Context {H : Type} (host : Host H).

(** States of the methods: the host and the object [this]. *)
Local Abbreviation St := (H * LocalExecutionEnvironment)%type.

Definition LocalExecutionEnvironment_new (env : CompilationEnvironment)
  : LocalExecutionEnvironment :=
  {| environment := env;
     timeoutMs := prop_number (ceProps env) "binaryExecTimeoutMs" 2000;
     maxExecOutputSize :=
       prop_number (ceProps env) "max-executable-output-size" (32 * 1024);
     useSanitizerEnvHints := true;
     sandboxType :=
       prop_string (propsFor_execution host) "sandboxType" "none";
     dirPath := "not initialized";
     buildResult := None |}.

(** [unwrap]: the value, or a failed assertion. *)
Definition unwrap {S A} (v : option A) : Eff S A :=
  match v with
  | Some a => mret a
  | None => throw (assertion_error host)
  end.

(** [executableGet]: [null] on a miss, else the path written. *)
Definition executableGet (hash destinationFolder : string)
  : Eff H (option string) :=
  result ← executableCache_get host hash;
  if negb (cache_hit result) then mret None
  else
    let filepath := destinationFolder +:+ "/" +:+ hash in
    data ← unwrap (cache_data result);
    fs_writeFile host filepath data;;
    mret (Some filepath).

(** The body of the [try] of [loadPackageWithExecutable]. *)
Definition loadPackage_try (hash dir : string) : Eff H BuildResult :=
  let compilationResultFilename := "compilation-result.json" in
  startTime ← hrtime_bigint host;
  outputFilename ← executableGet hash dir;
  match truthy_string outputFilename with
  | Some outputFilename =>
      packager_unpack host outputFilename dir;;
      buildResultsBuf ← fs_readFile host
                          (path_join host dir compilationResultFilename);
      match JSON_parse_buildResults host buildResultsBuf with
      | None => throw (SyntaxError host buildResultsBuf)
      | Some buildResults =>
          endTime ← hrtime_bigint host;
          let inputFilename :=
            match truthy_string (json_inputFilename buildResults) with
            | Some f => path_join host dir (path_basename host f)
            | None => EmptyString
            end in
          let executableFilename :=
            match truthy_string (json_executableFilename buildResults) with
            | Some f => path_join host dir (utils_maskRootdir host f)
            | None => EmptyString
            end in
          mret {| br_parsed := buildResults;
                  br_code := 0;
                  br_inputFilename := inputFilename;
                  br_dirPath := dir;
                  br_executableFilename := executableFilename;
                  br_packageDownloadAndUnzipTime :=
                    pretty (Z.quot (endTime - startTime) 1000000) |}
      end
  | None =>
      throw (new_Error
               "Tried to get executable from cache, but got a cache miss")
  end.

(** [loadPackageWithExecutable]: the [catch] receives every error of the
    [try], the one thrown on a miss included. *)
Definition loadPackageWithExecutable (hash dir : string)
  : Eff H BuildResult :=
  eff_try_catch (loadPackage_try hash dir)
    (fun err =>
       throw (new_Error
                ("Tried to get executable from cache, but got an error: "
                 +:+ JSON_stringify_thrown (JSON_quote host) err))).

Definition downloadExecutablePackage (hash : string) : Eff St unit :=
  d ← on_fst (temp_mkdir host);
  this ← get_snd;
  put_snd (set_dirPath d this);;
  b ← on_fst (loadPackageWithExecutable hash d);
  this ← get_snd;
  put_snd (set_buildResult b this).

(** One turn of the loop over [runtimeEnv.options], whose body is the
    expression statement [env[(opt.name = opt.value)]]: the assignment in
    the brackets stores [opt.value] in [opt.name] and has the value
    [opt.value]; the member expression around it reads [env] at that key
    and the value read is dropped.  [env] is not written. *)
Definition inject_option (env : gmap string string) (opt : RuntimeToolOption)
  : gmap string string * RuntimeToolOption :=
  let opt' := mkOption (opt_value opt) (opt_value opt) in
  let _read := env !! opt_value opt in
  (env, opt').

Fixpoint inject_options (env : gmap string string)
         (opts : list RuntimeToolOption)
  : gmap string string * list RuntimeToolOption :=
  match opts with
  | [] => (env, [])
  | opt :: rest =>
      let '(env1, opt') := inject_option env opt in
      let '(env2, rest') := inject_options env1 rest in
      (env2, opt' :: rest')
  end.

(** [runtimeTools.find(tool => tool.name === RuntimeToolType.env)] and the
    loop over the options of the tool found. *)
Fixpoint inject_runtimeEnv (env : gmap string string)
         (tools : list ConfiguredRuntimeTool)
  : gmap string string * list ConfiguredRuntimeTool :=
  match tools with
  | [] => (env, [])
  | tool :: rest =>
      if RuntimeToolType_eqb (tool_name tool) RuntimeToolType_env then
        let '(env', opts') := inject_options env (tool_options tool) in
        (env', mkTool (tool_name tool) opts' :: rest)
      else
        let '(env', rest') := inject_runtimeEnv env rest in
        (env', tool :: rest')
  end.

(** [this.buildResult && ... && this.buildResult.defaultExecOptions.env.PATH] *)
Definition bundle_PATH (this : LocalExecutionEnvironment) : option string :=
  b ← buildResult this;
  d ← br_defaultExecOptions b;
  e ← deo_env d;
  truthy_string (e !! "PATH").

(** [getDefaultExecOptions]: the options, and [params] as the loop left
    it. *)
Definition getDefaultExecOptions (this : LocalExecutionEnvironment)
           (params : ExecutionParams) : ExecutionOptions * ExecutionParams :=
  let env0 : gmap string string := <["PATH" := EmptyString]> ∅ in
  let '(env1, params1) :=
    match runtimeTools params with
    | Some tools =>
        let '(e, tools') := inject_runtimeEnv env0 tools in
        (e, mkParams (args params) (stdin params) (Some tools'))
    | None => (env0, params)
    end in
  let env2 :=
    match bundle_PATH this with
    | Some hint =>
        let PATH := default EmptyString (env1 !! "PATH") in
        if (0 <? Z.of_nat (String.length PATH))
        then <["PATH" := PATH +:+ path_delimiter host +:+ hint]> env1
        else <["PATH" := hint]> env1
    | None => env1
    end in
  let execOptions :=
    {| eo_env := Some env2; eo_timeoutMs := None; eo_maxOutput := None;
       eo_ldPath := buildResult this ≫= br_preparedLdPaths;
       eo_input := None; eo_customCwd := None; eo_appHome := None |} in
  (execOptions, params1).

(** The argument list of [execute]. *)
Definition execute_args (params : ExecutionParams) : list string :=
  match args params with
  | args_string s => utils_splitArguments host s
  | args_list l => l
  | args_undefined => []
  end.

Definition execute (params : ExecutionParams)
  : Eff St UnprocessedExecResult :=
  this ← get_snd;
  match buildResult this with
  | None => throw (assertion_error host)
  | Some b =>
      on_fst (exec_sandbox host (br_executableFilename b)
                (execute_args params)
                (getDefaultExecOptions this params).1)
  end.

Definition set_env (o : ExecutionOptions) (e : gmap string string)
  : ExecutionOptions :=
  mkExecutionOptions (Some e) (eo_timeoutMs o) (eo_maxOutput o) (eo_ldPath o)
                     (eo_input o) (eo_customCwd o) (eo_appHome o).

(** The inner loop of [setEnvironmentVariablesFromRuntime]. *)
Definition set_env_option (o : ExecutionOptions) (env : RuntimeToolOption)
  : ExecutionOptions :=
  set_env o (<[opt_name env := opt_value env]> (default ∅ (eo_env o))).

Definition setEnvironmentVariablesFromRuntime
           (configuredTools : list ConfiguredRuntimeTool)
           (execOptions : ExecutionOptions) : ExecutionOptions :=
  foldl (fun o runtime =>
           if RuntimeToolType_eqb (tool_name runtime) RuntimeToolType_env
           then foldl set_env_option o (tool_options runtime)
           else o)
        execOptions configuredTools.

Definition processUserExecutableExecutionResult
           (input : UnprocessedExecResult)
           (stdErrlineParseOptions : list LineParseOption)
  : Eff H BasicExecutionResult :=
  start ← performance_now host;
  let stdout := utils_parseOutput host (VStr (uer_stdout input)) (Some []) in
  let stderr := utils_parseOutput host (VStr (uer_stderr input))
                                  (Some stdErrlineParseOptions) in
  end_ ← performance_now host;
  mret {| ber_code := VNum (uer_code input);
          ber_timedOut := uer_timedOut input;
          ber_stdout := stdout;
          ber_stderr := stderr;
          ber_processExecutionResultTime := Some (end_ - start) |}.

(** The options [execBinaryMaybeWrapped] launches with: [env] defaulted to
    the empty object, then the [env] runtime tools written into it. *)
Definition wrapped_execOptions (execOptions : ExecutionOptions)
           (executeParameters : ExecutableExecutionOptions)
  : ExecutionOptions :=
  let o := match eo_env execOptions with
           | Some _ => execOptions
           | None => set_env execOptions ∅
           end in
  match eep_runtimeTools executeParameters with
  | Some tools => setEnvironmentVariablesFromRuntime tools o
  | None => o
  end.

(** The last [heaptrack] tool of the list, if any. *)
Definition find_heaptrack (executeParameters : ExecutableExecutionOptions)
  : option ConfiguredRuntimeTool :=
  match eep_runtimeTools executeParameters with
  | Some tools =>
      foldl (fun found runtime =>
               if RuntimeToolType_eqb (tool_name runtime)
                                      RuntimeToolType_heaptrack
               then Some runtime else found)
            None tools
  | None => None
  end.

Definition execBinaryMaybeWrapped (executable : string) (args : list string)
           (execOptions : ExecutionOptions)
           (executeParameters : ExecutableExecutionOptions)
           (homeDir : string) : Eff St BasicExecutionResult :=
  this ← get_snd;
  let execOptions := wrapped_execOptions execOptions executeParameters in
  match find_heaptrack executeParameters with
  | Some runWithHeaptrack =>
      if HeaptrackWrapper_isSupported host (environment this) then
        execResult ← on_fst (HeaptrackWrapper_exec host homeDir
                               (tool_options runWithHeaptrack)
                               (sandboxType this)
                               executable args execOptions);
        on_fst (processUserExecutableExecutionResult execResult [AtFileLine])
      else
        execResult ← on_fst (exec_sandbox host executable args execOptions);
        on_fst (processUserExecutableExecutionResult execResult [])
  | None =>
      execResult ← on_fst (exec_sandbox host executable args execOptions);
      on_fst (processUserExecutableExecutionResult execResult [])
  end.

(** The options [execBinary] builds in its [try] block.  Spreading
    [executeParameters.ldPath] throws a [TypeError] when it is not
    iterable. *)
Definition execBinary_execOptions (this : LocalExecutionEnvironment)
           (executeParameters : ExecutableExecutionOptions)
           (homeDir : string) : Completion ExecutionOptions :=
  match eep_ldPath executeParameters with
  | None =>
      Throw (mkThrown "TypeError" "executeParameters.ldPath is not iterable" [])
  | Some ldPath =>
      let caller := spread_of (eep_env executeParameters) in
      Normal
        {| eo_maxOutput := Some (maxExecOutputSize this);
           eo_timeoutMs := Some (timeoutMs this);
           eo_ldPath := Some ldPath;
           eo_input := Some (eep_stdin executeParameters);
           eo_customCwd := Some homeDir;
           eo_appHome := Some homeDir;
           eo_env :=
             Some (if useSanitizerEnvHints this
                   then spread sanitizer_hints caller
                   else spread ∅ caller) |}
  end.

(** The [catch] block of [execBinary]. *)
Definition execBinary_catch (err : Thrown) : BasicExecutionResult :=
  let code := get_prop (thr_props err) "code" in
  let stdout := get_prop (thr_props err) "stdout" in
  let stderr := get_prop (thr_props err) "stderr" in
  if truthy code && truthy stderr
  then utils_processExecutionResult host err
  else
    let empty := utils_getEmptyExecutionResult host in
    {| ber_timedOut := ber_timedOut empty;
       ber_processExecutionResultTime := ber_processExecutionResultTime empty;
       ber_stdout := if truthy stdout
                     then utils_parseOutput host stdout None else [];
       ber_stderr := if truthy stderr
                     then utils_parseOutput host stderr None else [];
       ber_code := match code with
                   | VUndefined => VNum (-1)
                   | _ => code
                   end |}.

(** [execBinary].  The [try] block ends in
    [return this.execBinaryMaybeWrapped(...)]: the call starts the async
    function and hands back its promise, which is returned as it is, not
    awaited.  The [catch] block therefore sees what the [try] block throws
    while it builds the options, and nothing of how that promise settles:
    the promise of [execBinary] adopts it.  A result returned by the
    [catch] block resolves the promise of [execBinary]. *)
Definition execBinary (executable : string)
           (executeParameters : ExecutableExecutionOptions)
           (homeDir : string) (st : St)
  : Promise BasicExecutionResult * St :=
  let tried : Completion (Promise BasicExecutionResult * St) :=
    execOptions ← execBinary_execOptions st.2 executeParameters homeDir;
    mret (run_async
            (execBinaryMaybeWrapped executable (eep_args executeParameters)
                                    execOptions executeParameters homeDir)
            st) in
  let caught : Completion (Promise BasicExecutionResult * St) :=
    try_catch tried
      (fun err => Normal (Resolved (execBinary_catch err), st)) in
  match caught with
  | Normal (p, st') => (async_adopt (Normal p), st')
  | Throw e => (Rejected e, st)
  end.

End WithHost.
End Local.

(* ===================================================================== *)
(** * The worker loop *)
(* ===================================================================== *)

Module Worker.

(** The process: the host, and the timers pending.  Every timer of the
    worker has the same callback, [doExecutionWork]; a timer is its
    delay in milliseconds. *)
Record World (H : Type) := mkWorld {
  host_state : H;
  timers : list Z;
}.
Arguments mkWorld {H}.
Arguments host_state {H}.
Arguments timers {H}.

Section WithHost.
Context {H : Type} (host : Host H).

Definition on_host {A} (m : Eff H A) : Eff (World H) A :=
  fun w => let '(c, h) := m (host_state w) in (c, mkWorld h (timers w)).

(** [setTimeout(doExecutionWork, delay)] *)
Definition setTimeout (delay : Z) : Eff (World H) unit :=
  fun w => (Normal tt, mkWorld (host_state w) (timers w ++ [delay])).

(** Run methods of a fresh object; the object is dropped afterwards. *)
Definition with_object {S T A} (o : T) (m : Eff (S * T) A) : Eff S A :=
  fun s => let '(c, st) := m (s, o) in (c, st.1).

(** The body of the [if (msg && msg.guid)] of [doExecutionWork]. *)
Definition process_message (compilationEnvironment : CompilationEnvironment)
           (msg : RemoteExecutionMessage) : Eff H unit :=
  let executor :=
    Local.LocalExecutionEnvironment_new host compilationEnvironment in
  result ← with_object executor
             (Local.downloadExecutablePackage host (hash msg);;
              Local.execute host (params msg));
  EventsWsSender_send host (guid msg) result;;
  EventsWsSender_close host.

(** The body of the async arrow function [doExecutionWork]. *)
Definition doExecutionWork_body (queue : Sqs.SqsWorkerMode)
           (compilationEnvironment : CompilationEnvironment)
  : Eff (World H) unit :=
  msg ← on_host (Sqs.pop host queue);
  match msg with
  | Some msg =>
      if negb (String.eqb (guid msg) EmptyString)
      then on_host (process_message compilationEnvironment msg)
      else mret tt
  | None => mret tt
  end;;
  setTimeout 500.

(** One call of [doExecutionWork] by the timer: its promise is dropped. *)
Definition doExecutionWork (queue : Sqs.SqsWorkerMode)
           (compilationEnvironment : CompilationEnvironment)
           (w : World H) : Promise unit * World H :=
  run_async (doExecutionWork_body queue compilationEnvironment) w.

(** [startExecutionWorkerThread]: the queue object, and the first timer. *)
Definition startExecutionWorkerThread (default_triple : ExecutionTriple)
           (ceProps awsProps : PropertyGetter)
           (compilationEnvironment : CompilationEnvironment) (w : World H)
  : Completion Sqs.SqsWorkerMode * World H :=
  match Sqs.SqsWorkerMode_new default_triple ceProps awsProps with
  | Normal queue => (Normal queue, (setTimeout 1500 w).2)
  | Throw e => (Throw e, w)
  end.

(** The event loop: fire the pending timers one by one, at most [fuel]
    of them; the list of outcomes is the trace of the loop. *)
Fixpoint event_loop (fuel : nat) (queue : Sqs.SqsWorkerMode)
         (compilationEnvironment : CompilationEnvironment) (w : World H)
  : list (Promise unit) * World H :=
  match fuel with
  | O => ([], w)
  | S fuel' =>
      match timers w with
      | [] => ([], w)
      | _ :: rest =>
          let '(p, w1) :=
            doExecutionWork queue compilationEnvironment
                            (mkWorld (host_state w) rest) in
          let '(ps, w2) :=
            event_loop fuel' queue compilationEnvironment w1 in
          (p :: ps, w2)
      end
  end.

End WithHost.
End Worker.

(* ===================================================================== *)
(** * The routing string of a triple *)
(* ===================================================================== *)

(** Modelled from the spec: [ExecutionTriple.toString], whose module
    (execution-triple.js) is not among the sources.  The spec describes the
    routing string as a deterministic, order-stable join of the triple's
    three fields; the fields are joined in declaration order with the
    separator [-]. *)
Definition ExecutionTriple_toString_model (t : ExecutionTriple) : string :=
  instructionSet t +:+ "-" +:+ os t +:+ "-" +:+ specialty t.

Fixpoint contains_char (c : ascii) (s : string) : bool :=
  match s with
  | EmptyString => false
  | String c' rest => Ascii.eqb c c' || contains_char c rest
  end.

(** Realistic field values (amd64, linux, cpu, ...) do not contain the
    separator. *)
Definition realistic_field (s : string) : bool :=
  negb (contains_char "-" s).

Definition realistic_triple (t : ExecutionTriple) : bool :=
  realistic_field (instructionSet t) && realistic_field (os t)
  && realistic_field (specialty t).

(* ===================================================================== *)
(** * A concrete host for running the model *)
(* ===================================================================== *)

Module Demo.

(** The broker queue of the worker's triple, the receipt handles deleted,
    the files written, the results delivered and a clock. *)
Record State := mkState {
  queue : list SqsMessage;
  deleted : list string;
  written : list string;
  delivered : list (string * UnprocessedExecResult);
  clock : Z;
}.

Definition receive (req : ReceiveMessageRequest) : Eff State ReceiveMessageResult :=
  fun s =>
    (Normal {| Messages := match queue s with
                           | [] => None
                           | m :: _ => Some [m]
                           end |}, s).

Definition keeps (handle : string) (m : SqsMessage) : bool :=
  match ReceiptHandle m with
  | Some h => negb (String.eqb h handle)
  | None => true
  end.

Definition delete (req : DeleteMessageRequest) : Eff State unit :=
  fun s =>
    (Normal tt,
     mkState (filter (fun m => keeps (del_ReceiptHandle req) m = true) (queue s))
             (deleted s ++ [del_ReceiptHandle req])
             (written s) (delivered s) (clock s)).

Definition send (req : SendMessageRequest) : Eff State unit :=
  fun s =>
    (Normal tt,
     mkState (queue s ++ [mkSqsMessage (Some (MessageBody req))
                                       (Some (MessageDeduplicationId req))])
             (deleted s) (written s) (delivered s) (clock s)).

Definition tick : Eff State Z :=
  fun s =>
    (Normal (clock s),
     mkState (queue s) (deleted s) (written s) (delivered s)
             (clock s + 3000000)).

Definition write (path data : string) : Eff State unit :=
  fun s =>
    (Normal tt,
     mkState (queue s) (deleted s) (written s ++ [path]) (delivered s)
             (clock s)).

Definition deliver (guid : string) (r : UnprocessedExecResult)
  : Eff State unit :=
  fun s =>
    (Normal tt,
     mkState (queue s) (deleted s) (written s) (delivered s ++ [(guid, r)])
             (clock s)).

Definition params1 : ExecutionParams :=
  {| args := args_list ["--version"]; stdin := None; runtimeTools := None |}.

Definition message1 : RemoteExecutionMessage :=
  {| guid := "g1"; hash := "abc123"; params := params1 |}.

(** The one well-formed message body of the demo. *)
Definition body1 : string := "{guid:g1,hash:abc123,params:{args:[--version]}}".

Definition parse_message (s : string) : option RemoteExecutionMessage :=
  if String.eqb s body1 then Some message1 else None.

Definition stringify_message (m : RemoteExecutionMessage) : string :=
  "{guid:" +:+ guid m +:+ ",hash:" +:+ hash m +:+ "}".

(** The one well-formed metadata file of the demo. *)
Definition metadata1 : string := "{executableFilename:a.out,env:{PATH:/bundle/bin}}".

Definition buildResults1 : BuildResultsJson :=
  {| json_inputFilename := Some "example.cpp";
     json_executableFilename := Some "a.out";
     json_defaultExecOptions :=
       Some {| deo_env := Some (<["PATH" := "/bundle/bin"]> ∅) |};
     json_preparedLdPaths := Some ["/opt/lib"] |}.

Definition parse_buildResults (s : string) : option BuildResultsJson :=
  if String.eqb s metadata1 then Some buildResults1 else None.

Definition line_of (v : Value) : list ResultLine :=
  match v with
  | VStr s => [mkLine s None]
  | _ => []
  end.

Definition props : PropertyGetter :=
  {| prop_string := fun key def =>
       if String.eqb key "execqueue.queue_url" then "https://sqs/q" else def;
     prop_number := fun _ def => def |}.

Definition compilationEnvironment : CompilationEnvironment :=
  {| ceProps := props |}.

Definition triple1 : ExecutionTriple :=
  {| instructionSet := "amd64"; os := "linux"; specialty := "cpu" |}.

(** The host, given the cache, the content of every metadata file read and
    the behaviour of the sandbox. *)
Definition host (cache : string -> CacheGetResult) (metadata : string)
           (sandbox : string -> list string -> ExecutionOptions
                      -> Completion UnprocessedExecResult)
  : Host State :=
  {| JSON_stringify_message := stringify_message;
     JSON_parse_message := parse_message;
     JSON_parse_buildResults := parse_buildResults;
     JSON_syntax_error_message := fun _ => "Unexpected token in JSON";
     JSON_quote := plain_quote;
     getHash := fun s => "sha256:" +:+ s;
     ExecutionTriple_toString := ExecutionTriple_toString_model;
     assertion_error := mkThrown "AssertionError" "Assertion failed" [];
     utils_maskRootdir := fun s => s;
     utils_splitArguments := fun s => [s];
     utils_parseOutput := fun v _ => line_of v;
     utils_processExecutionResult := fun err =>
       {| ber_code := get_prop (thr_props err) "code";
          ber_timedOut := false;
          ber_stdout := line_of (get_prop (thr_props err) "stdout");
          ber_stderr := line_of (get_prop (thr_props err) "stderr");
          ber_processExecutionResultTime := None |};
     utils_getEmptyExecutionResult :=
       {| ber_code := VNum (-1); ber_timedOut := false; ber_stdout := [];
          ber_stderr := []; ber_processExecutionResultTime := None |};
     path_join := fun a b => a +:+ "/" +:+ b;
     path_basename := fun s => s;
     path_delimiter := ":";
     propsFor_execution := props;
     sqs_sendMessage := send;
     sqs_receiveMessage := receive;
     sqs_deleteMessage := delete;
     temp_mkdir := fun s => (Normal "/tmp/ce-1", s);
     hrtime_bigint := tick;
     performance_now := tick;
     executableCache_get := fun h s => (Normal (cache h), s);
     fs_writeFile := write;
     fs_readFile := fun _ s => (Normal metadata, s);
     packager_unpack := fun _ _ s => (Normal tt, s);
     exec_sandbox := fun exe args opts s => (sandbox exe args opts, s);
     HeaptrackWrapper_isSupported := fun _ => false;
     HeaptrackWrapper_exec := fun _ _ _ exe args opts s =>
                                (sandbox exe args opts, s);
     EventsWsSender_send := deliver;
     EventsWsSender_close := fun s => (Normal tt, s) |}.

Definition hit (h : string) : CacheGetResult :=
  {| cache_hit := true; cache_data := Some "package-bytes" |}.
Definition miss (h : string) : CacheGetResult :=
  {| cache_hit := false; cache_data := None |}.

Definition version_run : UnprocessedExecResult :=
  {| uer_code := 0; uer_timedOut := false; uer_stdout := "v1.0";
     uer_stderr := EmptyString |}.

Definition sandbox_ok (exe : string) (args : list string)
           (opts : ExecutionOptions) : Completion UnprocessedExecResult :=
  Normal version_run.

(** A launch failure as [exec] reports it: an error object with a [code]
    and a [stderr]. *)
Definition launch_failure : Thrown :=
  mkThrown "Error" "spawn a.out ENOENT"
           [("code", VNum 127); ("stderr", VStr "a.out: not found")].

Definition sandbox_fails (exe : string) (args : list string)
           (opts : ExecutionOptions) : Completion UnprocessedExecResult :=
  Throw launch_failure.

Definition queue_base : Sqs.SqsExecuteQueueBase :=
  Sqs.mkQueueBase "https://sqs/q".

Definition worker : Sqs.SqsWorkerMode := Sqs.mkWorkerMode queue_base triple1.

Definition state0 (q : list SqsMessage) : State := mkState q [] [] [] 0.

Definition fresh_executor : Local.LocalExecutionEnvironment :=
  Local.LocalExecutionEnvironment_new (host hit metadata1 sandbox_ok)
                                      compilationEnvironment.

(** A sandbox that reports in its output the limits it was launched
    with. *)
Definition sandbox_reports_limits (exe : string) (args : list string)
           (opts : ExecutionOptions) : Completion UnprocessedExecResult :=
  Normal
    {| uer_code := 0; uer_timedOut := false; uer_stderr := EmptyString;
       uer_stdout :=
         match eo_timeoutMs opts, eo_maxOutput opts with
         | Some t, Some m =>
             "timeoutMs=" +:+ pretty t +:+ " maxOutput=" +:+ pretty m
         | _, _ => "no limits"
         end |}.

(** The bundle of the demo, unpacked in [/tmp/ce-1]. *)
Definition buildResult1 : BuildResult :=
  {| br_parsed := buildResults1;
     br_code := 0;
     br_inputFilename := "/tmp/ce-1/example.cpp";
     br_dirPath := "/tmp/ce-1";
     br_executableFilename := "/tmp/ce-1/a.out";
     br_packageDownloadAndUnzipTime := "3" |}.

Definition downloaded_executor : Local.LocalExecutionEnvironment :=
  Local.set_buildResult buildResult1
    (Local.set_dirPath "/tmp/ce-1" fresh_executor).

(** Execution parameters whose [env] runtime tool carries a PATH entry and
    one more variable. *)
Definition params_env : ExecutionParams :=
  {| args := args_list ["--version"];
     stdin := None;
     runtimeTools :=
       Some [mkTool RuntimeToolType_env
                    [mkOption "PATH" "/caller/bin"; mkOption "FOO" "bar"]] |}.

Definition exec_params : ExecutableExecutionOptions :=
  {| eep_args := ["--version"];
     eep_stdin := EmptyString;
     eep_ldPath := Some ["/opt/lib"];
     eep_env := Some (<["ASAN_OPTIONS" := "detect_leaks=0"]> ∅);
     eep_runtimeTools :=
       Some [mkTool RuntimeToolType_env
                    [mkOption "UBSAN_OPTIONS" "print_stacktrace=1"]] |}.

(** The options [execBinary] builds for [exec_params] on the demo
    executor with the home directory [/home]. *)
Definition exec_options : ExecutionOptions :=
  {| eo_env := Some (<["ASAN_OPTIONS" := "detect_leaks=0"]>
                       Local.sanitizer_hints);
     eo_timeoutMs := Some 2000;
     eo_maxOutput := Some 32768;
     eo_ldPath := Some ["/opt/lib"];
     eo_input := Some EmptyString;
     eo_customCwd := Some "/home";
     eo_appHome := Some "/home" |}.

End Demo.

(* ===================================================================== *)
(** * Caller-provided environment entries *)
(* ===================================================================== *)

(** The options of the [env] runtime tools of the execute parameters, in
    list order. *)
Definition runtime_env_options (ep : ExecutableExecutionOptions)
  : list RuntimeToolOption :=
  match eep_runtimeTools ep with
  | Some tools =>
      flat_map (fun t =>
                  if RuntimeToolType_eqb (tool_name t) RuntimeToolType_env
                  then tool_options t else [])
               tools
  | None => []
  end.

(** The value among [opts] for the key [k]: the last option of that name,
    else [start]. *)
Definition last_option (k : string) (start : option string)
           (opts : list RuntimeToolOption) : option string :=
  foldl (fun acc o => if String.eqb (opt_name o) k
                      then Some (opt_value o) else acc)
        start opts.

(** The entry a caller provides for the key [k]: the last [env] runtime
    tool option of that name, else the entry of [executeParameters.env]. *)
Definition caller_env_entry (ep : ExecutableExecutionOptions) (k : string)
  : option string :=
  last_option k (Local.spread_of (eep_env ep) !! k) (runtime_env_options ep).

(* ===================================================================== *)
(** * Regular expressions

    The regular expressions of the sources use character classes,
    sequence, alternation, [*], [+], and the anchors [^] (always first)
    and [$], without flags.  [test_anchored r s] tells whether
    [/^r/.exec(s)] finds a match; it works by derivatives, with [$] as an
    assertion that the input has ended. *)
(* ===================================================================== *)

Module Regex.

Inductive re :=
| Fail
| Eps
| Class (negated : bool) (chars : list ascii)
| Cat (r1 r2 : re)
| Alt (r1 r2 : re)
| Star (r : re)
| Eos.

(** A literal character, and [r+]. *)
Definition Lit (c : ascii) : re := Class false [c].
Definition Plus (r : re) : re := Cat r (Star r).

Definition in_class (negated : bool) (chars : list ascii) (c : ascii)
  : bool :=
  xorb negated (existsb (Ascii.eqb c) chars).

Definition is_empty (s : string) : bool :=
  match s with
  | EmptyString => true
  | String _ _ => false
  end.

(** Does [r] match the empty text, at the end of the input or before it? *)
Fixpoint nullable (at_end : bool) (r : re) : bool :=
  match r with
  | Fail => false
  | Eps => true
  | Class _ _ => false
  | Cat a b => nullable at_end a && nullable at_end b
  | Alt a b => nullable at_end a || nullable at_end b
  | Star _ => true
  | Eos => at_end
  end.

Fixpoint deriv (c : ascii) (r : re) : re :=
  match r with
  | Fail => Fail
  | Eps => Fail
  | Class negated chars => if in_class negated chars c then Eps else Fail
  | Cat a b =>
      Alt (Cat (deriv c a) b) (if nullable false a then deriv c b else Fail)
  | Alt a b => Alt (deriv c a) (deriv c b)
  | Star a => Cat (deriv c a) (Star a)
  | Eos => Fail
  end.

Fixpoint test_anchored (r : re) (s : string) : bool :=
  match s with
  | EmptyString => nullable true r
  | String c rest => nullable false r || test_anchored (deriv c r) rest
  end.

(** The texts a regular expression matches: [Matches r text rest] when [r]
    matches [text] with [rest] as the input that follows. *)
Inductive Matches : re -> string -> string -> Prop :=
| M_Eps rest : Matches Eps EmptyString rest
| M_Class negated chars c rest :
    in_class negated chars c = true ->
    Matches (Class negated chars) (String c EmptyString) rest
| M_Cat a b t1 t2 rest :
    Matches a t1 (t2 +:+ rest) -> Matches b t2 rest ->
    Matches (Cat a b) (t1 +:+ t2) rest
| M_AltL a b t rest : Matches a t rest -> Matches (Alt a b) t rest
| M_AltR a b t rest : Matches b t rest -> Matches (Alt a b) t rest
| M_Star0 a rest : Matches (Star a) EmptyString rest
| M_StarS a t1 t2 rest :
    Matches a t1 (t2 +:+ rest) -> Matches (Star a) t2 rest ->
    Matches (Star a) (t1 +:+ t2) rest
| M_Eos : Matches Eos EmptyString EmptyString.

End Regex.

(* ===================================================================== *)
(** * Strings of JavaScript *)
(* ===================================================================== *)

Module JsString.

(** [s.split(sep)] for a one-character separator: at least one piece. *)
Fixpoint split (sep : ascii) (s : string) : list string :=
  match s with
  | EmptyString => [EmptyString]
  | String c rest =>
      if Ascii.eqb c sep then EmptyString :: split sep rest
      else match split sep rest with
           | [] => [String c EmptyString]
           | piece :: pieces => String c piece :: pieces
           end
  end.

(** The longest prefix of characters that satisfy [keep], and what
    follows it. *)
Fixpoint span (keep : ascii -> bool) (s : string) : string * string :=
  match s with
  | EmptyString => (EmptyString, EmptyString)
  | String c rest =>
      if keep c
      then let '(taken, remaining) := span keep rest in
           (String c taken, remaining)
      else (EmptyString, s)
  end.

Fixpoint all_chars (keep : ascii -> bool) (s : string) : bool :=
  match s with
  | EmptyString => true
  | String c rest => keep c && all_chars keep rest
  end.

End JsString.

(* ===================================================================== *)
(** * Compilation statistics *)
(* ===================================================================== *)

Module Stats.

(** A value of [request.filters]: a boolean, or anything else. *)
Inductive FilterValue :=
| filter_boolean (b : bool)
| filter_other (v : Value).

(** A [ParsedRequest], as far as [makeSafe] reads it. *)
Record ParsedRequest := mkRequest {
  req_source : string;
  req_options : list string;
  req_filters : list (string * FilterValue);
  req_bypassCache : bool;
  req_executionParameters : ExecutionParams;
}.

Record CompilationRecord := mkRecord {
  rec_time : string;
  rec_sourceHash : string;
  rec_executionParamsHash : string;
  rec_options : list string;
  rec_filters : list (string * bool);
  rec_bypassCache : bool;
}.

(** A [Date], through the accessors the code calls. *)
Record Date := mkDate {
  getUTCFullYear : Z;
  getUTCMonth : Z;
  getUTCDate : Z;
  toISOString : string;
}.

Record S3Bucket := mkS3Bucket {
  s3_bucket : string;
  s3_region : string;
}.

(** The collaborators of the statistics code, over a host state [T]. *)
Record StatsHost (T : Type) := mkStatsHost {
  getHash_string : string -> string;
  getHash_params : ExecutionParams -> string;
  JSON_stringify_record : CompilationRecord -> string;
  new_Date : T -> Date * T;
  S3Bucket_put : S3Bucket -> string -> string -> string -> string
                 -> Eff T unit;
  ems_parse : string -> option Z;
}.
Arguments getHash_string {T}.
Arguments getHash_params {T}.
Arguments JSON_stringify_record {T}.
Arguments new_Date {T}.
Arguments S3Bucket_put {T}.
Arguments ems_parse {T}.

(** [/^[-/]/] *)
Definition capturableArg : Regex.re := Regex.Class false ["-"; "/"]%char.

(** [/^(([-/][iIdD])|(-$))/] *)
Definition unwantedArg : Regex.re :=
  Regex.Alt
    (Regex.Cat (Regex.Class false ["-"; "/"]%char)
               (Regex.Class false ["i"; "I"; "d"; "D"]%char))
    (Regex.Cat (Regex.Lit "-") Regex.Eos).

Definition filterCompilerOptions (args : list string) : list string :=
  List.filter (fun x => Regex.test_anchored capturableArg x
                        && negb (Regex.test_anchored unwantedArg x))
              args.

(** [Object.fromEntries(Object.entries(filters).filter(value =>
    typeof value[1] === 'boolean'))] *)
Fixpoint boolean_filters (entries : list (string * FilterValue))
  : list (string * bool) :=
  match entries with
  | [] => []
  | (k, filter_boolean b) :: rest => (k, b) :: boolean_filters rest
  | (_, filter_other _) :: rest => boolean_filters rest
  end.

(** [now] with the fields joined as in the template literal of
    [makeKey]. *)
Definition makeKey (now : Date) : string :=
  "year=" +:+ pretty (getUTCFullYear now)
  +:+ "/month=" +:+ pretty (getUTCMonth now)
  +:+ "/date=" +:+ pretty (getUTCDate now)
  +:+ "/" +:+ toISOString now +:+ ".json".

(** The pattern of [createStatsNoter], anchored at both ends: group 1 is
    one or more characters other than an opening parenthesis; then an
    opening parenthesis; group 2 is any number of characters other than a
    closing parenthesis; then a closing parenthesis. *)
Definition config_pattern : Regex.re :=
  Regex.Cat (Regex.Plus (Regex.Class true ["("]%char))
    (Regex.Cat (Regex.Lit "(")
       (Regex.Cat (Regex.Star (Regex.Class true [")"]%char))
          (Regex.Cat (Regex.Lit ")") Regex.Eos))).

(** [config.match(pattern)]: the two groups, or no match.  Each repetition
    is followed by the one character its class excludes, so the repetition
    has to run up to the first such character and no other split can
    match. *)
Definition match_config (config : string) : option (string * string) :=
  let '(type, rest) :=
    JsString.span (fun c => negb (Ascii.eqb c "(")) config in
  match type, rest with
  | String _ _, String _ rest =>
      let '(params, rest) :=
        JsString.span (fun c => negb (Ascii.eqb c ")")) rest in
      match rest with
      | String _ EmptyString => Some (type, params)
      | _ => None
      end
  | _, _ => None
  end.

Section WithHost.
Context {T : Type} (host : StatsHost T).

Definition makeSafe (time : Date) (request : ParsedRequest)
  : CompilationRecord :=
  {| rec_time := toISOString time;
     rec_sourceHash := getHash_string host (req_source request);
     rec_executionParamsHash :=
       getHash_params host (req_executionParameters request);
     rec_options := filterCompilerOptions (req_options request);
     rec_filters := boolean_filters (req_filters request);
     rec_bypassCache := req_bypassCache request |}.

(** The fields of a [StatsNoter]; a flush job is the identifier of its
    timer. *)
Record StatsNoter := mkStatsNoter {
  _statsQueue : list CompilationRecord;
  _flushAfterMs : Z;
  _flushJob : option nat;
  _s3 : S3Bucket;
  _path : string;
}.

(** [new StatsNoter(bucket, path, region, flushMs)], the optional
    arguments defaulted by [??]. *)
Definition StatsNoter_new (bucket : string) (path region : option string)
           (flushMs : option Z) : StatsNoter :=
  {| _statsQueue := [];
     _flushAfterMs := default (5 * 60 * 1000) flushMs;
     _flushJob := None;
     _s3 := mkS3Bucket bucket (default "us-east-1" region);
     _path := default "compile-stats" path |}.

(** The process around a noter: the host and the timers pending, each
    with its identifier and delay.  The callback of every timer of a noter
    is its [flush]. *)
Record World := mkWorld {
  host_state : T;
  pending : list (nat * Z);
  next_timer : nat;
}.

Definition setTimeout (delay : Z) (w : World) : nat * World :=
  (next_timer w,
   mkWorld (host_state w) (pending w ++ [(next_timer w, delay)])
           (S (next_timer w))).

Definition clearTimeout (id : nat) (w : World) : World :=
  mkWorld (host_state w)
          (List.filter (fun t => negb (Nat.eqb t.1 id)) (pending w))
          (next_timer w).

(** [flush].  The outcome of the put is dropped: its promise gets an empty
    [then] and a [catch] that only logs.  An array is truthy, so the put
    is issued for an empty queue too. *)
Definition flush (this : StatsNoter) (w : World) : StatsNoter * World :=
  let toFlush := _statsQueue this in
  let '(now, h1) := new_Date host (host_state w) in
  let h2 :=
    (S3Bucket_put host (_s3 this) (makeKey now)
       (Js.join (String "010"%char EmptyString)
                (map (JSON_stringify_record host) toFlush))
       (_path this) "REDUCED_REDUNDANCY" h1).2 in
  let w2 := mkWorld h2 (pending w) (next_timer w) in
  let w3 := match _flushJob this with
            | Some job => clearTimeout job w2
            | None => w2
            end in
  (mkStatsNoter [] (_flushAfterMs this) None (_s3 this) (_path this), w3).

Definition noteCompilation (request : ParsedRequest) (this : StatsNoter)
           (w : World) : StatsNoter * World :=
  let '(now, h1) := new_Date host (host_state w) in
  let queue := _statsQueue this ++ [makeSafe now request] in
  let w1 := mkWorld h1 (pending w) (next_timer w) in
  match _flushJob this with
  | Some job =>
      (mkStatsNoter queue (_flushAfterMs this) (Some job) (_s3 this)
                    (_path this), w1)
  | None =>
      let '(job, w2) := setTimeout (_flushAfterMs this) w1 in
      (mkStatsNoter queue (_flushAfterMs this) (Some job) (_s3 this)
                    (_path this), w2)
  end.

(** What happens to a noter: a compilation is noted, or the oldest
    pending timer fires and runs [flush]. *)
Inductive Event :=
| Note (request : ParsedRequest)
| Fire.

Definition step (e : Event) (st : StatsNoter * World) : StatsNoter * World :=
  match e with
  | Note request => noteCompilation request st.1 st.2
  | Fire =>
      match pending st.2 with
      | [] => st
      | _ :: rest =>
          flush st.1 (mkWorld (host_state st.2) rest (next_timer st.2))
      end
  end.

Definition run (events : list Event) (st : StatsNoter * World)
  : StatsNoter * World :=
  foldl (fun st e => step e st) st events.

(** The noters [createStatsNoter] returns. *)
Inductive IStatsNoter :=
| NullStatsNoter
| S3StatsNoter (noter : StatsNoter).

Definition bad_params (config : string) : string :=
  "Bad params: " +:+ config.

Definition createStatsNoter (props : PropertyGetter)
  : Completion IStatsNoter :=
  let config := prop_string props "compilationStatsNotifier" "None()" in
  match match_config config with
  | None => Throw (new_Error ("Unable to parse '" +:+ config +:+ "'"))
  | Some (type, text) =>
      let params := JsString.split "," text in
      if String.eqb type "None" then
        if negb (Nat.eqb (length params) 1)
        then Throw (new_Error (bad_params config))
        else Normal NullStatsNoter
      else if String.eqb type "S3" then
        if (length params <? 1)%nat || (4 <? length params)%nat
        then Throw (new_Error
                      (bad_params config +:+
                       " - expected S3(bucket, path?, region?, flushTime?)"))
        else
          durationMs ←
            match truthy_string (params !! 3%nat) with
            | Some text =>
                match ems_parse host text with
                | Some parsed =>
                    if parsed =? 0
                    then Throw (new_Error
                                  (bad_params config +:+
                                   " - expected S3(bucket, path?, region?, flushTime?), bad flush time"))
                    else Normal (Some parsed)
                | None =>
                    Throw (new_Error
                             (bad_params config +:+
                              " - expected S3(bucket, path?, region?, flushTime?), bad flush time"))
                end
            | None => Normal None
            end;
          Normal (S3StatsNoter
                    (StatsNoter_new (default EmptyString (params !! 0%nat))
                                    (params !! 1%nat) (params !! 2%nat)
                                    durationMs))
      else Throw (new_Error ("Unknown stats type '" +:+ type +:+ "'"))
  end.

End WithHost.
End Stats.

(* ===================================================================== *)
(** * A concrete host for the statistics *)
(* ===================================================================== *)

Module StatsDemo.

(** The objects put into the bucket (key, body, path), and a clock. *)
Record State := mkState {
  puts : list (string * string * string);
  clock : Z;
}.

(** The [n]-th of January 2024, at midnight. *)
Definition date_of (n : Z) : Stats.Date :=
  {| Stats.getUTCFullYear := 2024;
     Stats.getUTCMonth := 0;
     Stats.getUTCDate := n;
     Stats.toISOString := "2024-01-0" +:+ pretty n +:+ "T00:00:00.000Z" |}.

Definition stringify_record (r : Stats.CompilationRecord) : string :=
  "{time:" +:+ Stats.rec_time r
  +:+ ",sourceHash:" +:+ Stats.rec_sourceHash r
  +:+ ",options:[" +:+ Js.join "," (Stats.rec_options r) +:+ "]}".

Definition host : Stats.StatsHost State :=
  {| Stats.getHash_string := fun s => "sha256:" +:+ s;
     Stats.getHash_params := fun _ => "sha256:params";
     Stats.JSON_stringify_record := stringify_record;
     Stats.new_Date := fun s =>
       (date_of (clock s), mkState (puts s) (clock s + 1));
     Stats.S3Bucket_put := fun bucket key body path redundancy s =>
       (Normal tt, mkState (puts s ++ [(key, body, path)]) (clock s));
     Stats.ems_parse := fun text =>
       if String.eqb text "5m" then Some 300000
       else if String.eqb text "10s" then Some 10000
       else None |}.

Definition props (config : string) : PropertyGetter :=
  {| prop_string := fun key def =>
       if String.eqb key "compilationStatsNotifier" then config else def;
     prop_number := fun _ def => def |}.

Definition request (source : string) (options : list string)
  : Stats.ParsedRequest :=
  {| Stats.req_source := source;
     Stats.req_options := options;
     Stats.req_filters :=
       [("binary", Stats.filter_boolean false);
        ("labels", Stats.filter_boolean true);
        ("libraryCode", Stats.filter_other (VStr "yes"))];
     Stats.req_bypassCache := false;
     Stats.req_executionParameters := Demo.params1 |}.

Definition noter0 : Stats.StatsNoter :=
  Stats.StatsNoter_new "stats-bucket" None None None.

Definition world0 : Stats.World :=
  Stats.mkWorld (mkState [] 1) [] 0.

End StatsDemo.

(* ===================================================================== *)
(** * AssemblyCompiler *)
(* ===================================================================== *)

Module Assembly.

Record BuildStep := mkBuildStep {
  step_code : Z;
  step_okToCache : bool;
  step_execTime : string;
  step_step : string;
  step_timedOut : bool;
  step_filenameTransform : string -> string;
  step_stderr : list ResultLine;
  step_stdout : list ResultLine;
}.

(** The [BuildResult] under construction, as far as the linker step
    touches it. *)
Record FullResult := mkFullResult {
  buildsteps : option (list BuildStep);
  full_stderr : list ResultLine;
}.

(** [s.includes(needle)] *)
Definition includes (s needle : string) : bool :=
  match String.index 0 needle s with
  | Some _ => true
  | None => false
  end.

(** The fields of the compiler object that the methods read. *)
Record AssemblyCompiler := mkAssemblyCompiler {
  compileFilename : string;
}.

(** [path], [fs], and the methods inherited from [BaseCompiler], over a
    host state [T].  [doBuildstepAndAddToResult] returns the step and the
    result it has added the step to. *)
Record AsmHost (T : Type) := mkAsmHost {
  path_dirname : string -> string;
  path_join : string -> string -> string;
  fs_readdirSync : string -> Eff T (list string);
  BaseCompiler_filename : string -> string;
  BaseCompiler_getDefaultExecOptions : ExecutionOptions;
  env_ceProps : string -> string;
  doBuildstepAndAddToResult :
    FullResult -> string -> string -> list string -> ExecutionOptions
    -> Eff T (BuildStep * FullResult);
}.
Arguments path_dirname {T}.
Arguments path_join {T}.
Arguments fs_readdirSync {T}.
Arguments BaseCompiler_filename {T}.
Arguments BaseCompiler_getDefaultExecOptions {T}.
Arguments env_ceProps {T}.
Arguments doBuildstepAndAddToResult {T}.

Section WithHost.
Context {T : Type} (host : AsmHost T).

(** [file[0] !== '.' && file !== this.compileFilename] *)
Definition is_generated (this : AssemblyCompiler) (file : string) : bool :=
  negb match file with
       | String c _ => Ascii.eqb c "."
       | EmptyString => false
       end
  && negb (String.eqb file (compileFilename this)).

Definition getGeneratedOutputFilename (this : AssemblyCompiler)
           (fn : string) : Eff T string :=
  let outputFolder := path_dirname host fn in
  files ← fs_readdirSync host outputFolder;
  mret (foldl (fun outputFilename file =>
                 if is_generated this file
                 then path_join host outputFolder file
                 else outputFilename)
              (BaseCompiler_filename host fn) files).

Definition getOutputFilename (this : AssemblyCompiler) (dirPath : string)
  : Eff T string :=
  getGeneratedOutputFilename this (path_join host dirPath "example.asm").

Definition getObjdumpOutputFilename (this : AssemblyCompiler)
           (defaultOutputFilename : string) : Eff T string :=
  getGeneratedOutputFilename this defaultOutputFilename.

Definition getExecutableFilename (dirPath : string) : string :=
  path_join host dirPath "ce-asm-executable".

Definition set_customCwd (o : ExecutionOptions) (cwd : string)
  : ExecutionOptions :=
  mkExecutionOptions (eo_env o) (eo_timeoutMs o) (eo_maxOutput o)
                     (eo_ldPath o) (eo_input o) (Some cwd) (eo_appHome o).

(** The step [runLinker] reports for an architecture it does not link. *)
Definition invalid_architecture : BuildStep :=
  {| step_code := -1;
     step_okToCache := false;
     step_execTime := "0";
     step_step := "ld";
     step_timedOut := false;
     step_filenameTransform := fun f => f;
     step_stderr :=
       [mkLine "Invalid architecture for linking and execution" None];
     step_stdout := [] |}.

(** [runLinker]; [inputArch] is a string or [false]. *)
Definition runLinker (fullResult : FullResult) (inputArch : option string)
           (objectFilename outputFilename : string)
           (extraOptions : list string) : Eff T (BuildStep * FullResult) :=
  let execOptions :=
    set_customCwd (BaseCompiler_getDefaultExecOptions host)
                  (path_dirname host objectFilename) in
  let options := ["-o"; outputFilename] in
  let link options :=
    doBuildstepAndAddToResult host fullResult "ld" (env_ceProps host "ld")
      ((options ++ [objectFilename]) ++ extraOptions) execOptions in
  match inputArch with
  | Some arch =>
      if String.eqb arch "x86" then link (options ++ ["-m"; "elf_i386"])
      else if String.eqb arch "x86_64" then link options
      else
        mret (invalid_architecture,
              mkFullResult
                ((fun steps => steps ++ [invalid_architecture])
                   <$> buildsteps fullResult)
                (full_stderr fullResult))
  | None =>
      mret (invalid_architecture,
            mkFullResult
              ((fun steps => steps ++ [invalid_architecture])
                 <$> buildsteps fullResult)
              (full_stderr fullResult))
  end.

Definition runReadelf (fullResult : FullResult) (objectFilename : string)
  : Eff T (BuildStep * FullResult) :=
  let execOptions :=
    set_customCwd (BaseCompiler_getDefaultExecOptions host)
                  (path_dirname host objectFilename) in
  doBuildstepAndAddToResult host fullResult "readelf"
    (env_ceProps host "readelf") ["-h"; objectFilename] execOptions.

(** The architecture read off the output of readelf. *)
Definition architecture_of (stdout : list ResultLine) : option string :=
  let output :=
    Js.join (String "010"%char EmptyString) (map line_text stdout) in
  if includes output "ELF32" && includes output "80386" then Some "x86"
  else if includes output "ELF64" && includes output "X86-64"
  then Some "x86_64"
  else if includes output "Mach-O 64-bit x86-64" then Some "x86_64"
  else None.

Definition getArchitecture (fullResult : FullResult)
           (objectFilename : string) : Eff T (option string * FullResult) :=
  '(result, fullResult) ← runReadelf fullResult objectFilename;
  mret (architecture_of (step_stdout result), fullResult).

(** The branch of [buildExecutableInFolder] that links the object file
    the assembler has left: the architecture is read, the linker is run,
    and what the linker wrote to stderr is added to the result. *)
Definition link_object (fullResult : FullResult)
           (objectFilename outputFilename : string) (libOpts : list string)
  : Eff T FullResult :=
  '(inputArch, fullResult) ← getArchitecture fullResult objectFilename;
  '(ldResult, fullResult) ←
    runLinker fullResult inputArch objectFilename outputFilename libOpts;
  mret (mkFullResult (buildsteps fullResult)
                     (full_stderr fullResult ++ step_stderr ldResult)).

End WithHost.
End Assembly.

(* ===================================================================== *)
(** * A concrete assembler host *)
(* ===================================================================== *)

Module AsmDemo.
Import Assembly.

(** The host state: the tools run so far, each with its arguments. *)
Definition State := list (string * list string).

(** The step a tool reports: readelf prints [header], every other tool
    prints nothing. *)
Definition step_of (header : list string) (tool : string) : BuildStep :=
  {| step_code := 0;
     step_okToCache := true;
     step_execTime := "1";
     step_step := tool;
     step_timedOut := false;
     step_filenameTransform := fun f => f;
     step_stderr := [];
     step_stdout :=
       if String.eqb tool "readelf"
       then map (fun l => mkLine l None) header
       else [] |}.

(** A host whose build folder holds [files] and whose readelf prints
    [header]. *)
Definition host (files header : list string) : AsmHost State :=
  {| path_dirname := fun _ => "/tmp/build";
     path_join := fun d f => d +:+ "/" +:+ f;
     fs_readdirSync := fun _ h => (Normal files, h);
     BaseCompiler_filename := fun fn => fn;
     BaseCompiler_getDefaultExecOptions :=
       mkExecutionOptions None (Some 2000) (Some 1024) None None None None;
     env_ceProps := fun tool => "/usr/bin/" +:+ tool;
     doBuildstepAndAddToResult := fun fullResult tool _ args _ h =>
       (Normal (step_of header tool,
                mkFullResult
                  ((fun steps => steps ++ [step_of header tool])
                     <$> buildsteps fullResult)
                  (full_stderr fullResult)),
        h ++ [(tool, args)]) |}.

Definition compiler : AssemblyCompiler := mkAssemblyCompiler "example.asm".

Definition folder : list string :=
  [".cache"; "example.asm"; "example.lst"; "example.o"].

Definition riscv_header : list string :=
  ["ELF Header:"; "  Class: ELF64"; "  Machine: RISC-V"].

Definition i386_header : list string :=
  ["ELF Header:"; "  Class: ELF32"; "  Machine: Intel 80386"].

Definition fullResult0 : FullResult := mkFullResult (Some []) [].

End AsmDemo.

(* ===================================================================== *)
(** * parseInt, indexOf, substr *)
(* ===================================================================== *)

Module JsNumber.

(** The white space [parseInt] skips, among the characters of one byte. *)
Definition is_white_space (c : ascii) : bool :=
  existsb (Nat.eqb (nat_of_ascii c)) [9; 10; 11; 12; 13; 32; 160]%nat.

Fixpoint trim_start (s : string) : string :=
  match s with
  | String c rest => if is_white_space c then trim_start rest else s
  | EmptyString => EmptyString
  end.

(** The value of a digit in the given radix: [0-9], then letters of either
    case. *)
Definition digit_value (radix : Z) (c : ascii) : option Z :=
  let n := Z.of_nat (nat_of_ascii c) in
  let v := if (48 <=? n) && (n <=? 57) then Some (n - 48)
           else if (97 <=? n) && (n <=? 122) then Some (n - 87)
           else if (65 <=? n) && (n <=? 90) then Some (n - 55)
           else None in
  match v with
  | Some d => if d <? radix then Some d else None
  | None => None
  end.

(** The value of the longest prefix of digits; [acc] is [None] as long as
    no digit has been read. *)
Fixpoint parse_digits (radix : Z) (acc : option Z) (s : string)
  : option Z :=
  match s with
  | String c rest =>
      match digit_value radix c with
      | Some d => parse_digits radix (Some (default 0 acc * radix + d)) rest
      | None => acc
      end
  | EmptyString => acc
  end.

(** The sign of the numeral, and what follows the sign. *)
Definition strip_sign (s : string) : Z * string :=
  match s with
  | String "-" rest => (-1, rest)
  | String "+" rest => (1, rest)
  | _ => (1, s)
  end.

(** The radix of the numeral when none is given, sixteen after 0x and ten
    otherwise, and the digits. *)
Definition strip_prefix (s : string) : Z * string :=
  match s with
  | String "0" (String x rest) =>
      if Ascii.eqb x "x" || Ascii.eqb x "X" then (16, rest) else (10, s)
  | _ => (10, s)
  end.

(** [parseInt(s)] without a radix; [None] is [NaN].  The value is the
    mathematical integer, which is the number JavaScript returns as long
    as it is at most 2^53 in size. *)
Definition parseInt (s : string) : option Z :=
  let '(sign, s) := strip_sign (trim_start s) in
  let '(radix, s) := strip_prefix s in
  Z.mul sign <$> parse_digits radix None s.

(** [s.indexOf(needle)]: the first position, or [None] for -1. *)
Definition indexOf (s needle : string) : option nat :=
  String.index 0 needle s.

(** [s.substr(0, length)] *)
Definition substr0 (s : string) (length : nat) : string :=
  String.substring 0 length s.

End JsNumber.

(* ===================================================================== *)
(** * The diff pane *)
(* ===================================================================== *)

Module DiffPane.

(** A compiler or executor id: a number, a string, or missing. *)
Inductive Id :=
| IdUndefined
| IdNum (n : Z)
| IdStr (s : string).

(** [a !== b] is the negation of this. *)
Definition Id_eqb (a b : Id) : bool :=
  match a, b with
  | IdUndefined, IdUndefined => true
  | IdNum n, IdNum m => n =? m
  | IdStr s, IdStr t => String.eqb s t
  | _, _ => false
  end.

(** [if (id)] *)
Definition Id_truthy (id : Id) : bool :=
  match id with
  | IdUndefined => false
  | IdNum n => negb (n =? 0)
  | IdStr s => negb (String.eqb s EmptyString)
  end.

(** The string of an id in a concatenation or as a property key; a number
    id is an integer. *)
Definition Id_toString (id : Id) : string :=
  match id with
  | IdUndefined => "undefined"
  | IdNum n => pretty n
  | IdStr s => s
  end.

Inductive DiffType :=
| DiffType_ASM
| DiffType_CompilerStdOut
| DiffType_CompilerStdErr
| DiffType_ExecStdOut
| DiffType_ExecStdErr
| DiffType_GNAT_ExpandedCode
| DiffType_GNAT_Tree
| DiffType_other (value : Z).

Record ResultEntry := mkEntry { text : string }.

Record ExecResult := mkExecResult {
  exec_code : option Z;
  exec_stdout : option (list ResultEntry);
  exec_stderr : option (list ResultEntry);
}.

(** A result object; every property may be missing. *)
#[warnings="-register-all"]
Inductive ResultType := mkResult {
  code : option Z;
  buildResult : option ResultType;
  asm : option (list ResultEntry);
  stdout : option (list ResultEntry);
  stderr : option (list ResultEntry);
  execResult : option ExecResult;
  hasGnatDebugOutput : bool;
  gnatDebugOutput : option (list ResultEntry);
  hasGnatDebugTreeOutput : bool;
  gnatDebugTreeOutput : option (list ResultEntry);
}.

(** [{}] *)
Definition empty_result : ResultType :=
  mkResult None None None None None None false None false None.

Record Compiler := mkCompiler { compiler_name : string }.

Record CompilerEntry := mkCompilerEntry {
  entry_id : Id;
  entry_name : string;
  entry_options : string;
  entry_editorId : Z;
  entry_treeId : Z;
  entry_compiler : Compiler;
}.

(** What [DiffStateObject.compiler] holds: the compiler of a result, or an
    entry of the pane. *)
Inductive CompilerRef :=
| ref_compiler (c : Compiler)
| ref_entry (e : CompilerEntry).

(** A [DiffStateObject]; [model] is the text of its editor model. *)
Record DiffStateObject := mkSide {
  id : Id;
  model : string;
  compiler : option CompilerRef;
  result : option ResultType;
  difftype : DiffType;
}.

Definition DiffStateObject_new (id : Id) (model : string)
           (difftype : DiffType) : DiffStateObject :=
  mkSide id model None None difftype.

(** The lines [refresh] selects. *)
Definition selected_output (this : DiffStateObject) : list ResultEntry :=
  match result this with
  | Some r =>
      match difftype this with
      | DiffType_ASM => default [] (asm r)
      | DiffType_CompilerStdOut => default [] (stdout r)
      | DiffType_CompilerStdErr => default [] (stderr r)
      | DiffType_ExecStdOut =>
          match execResult r with
          | Some e => default [] (exec_stdout e)
          | None => []
          end
      | DiffType_ExecStdErr =>
          match execResult r with
          | Some e => default [] (exec_stderr e)
          | None => []
          end
      | DiffType_GNAT_ExpandedCode =>
          if hasGnatDebugOutput r then default [] (gnatDebugOutput r)
          else []
      | DiffType_GNAT_Tree =>
          if hasGnatDebugTreeOutput r then default [] (gnatDebugTreeOutput r)
          else []
      | DiffType_other _ => []
      end
  | None => []
  end.

Definition refresh (this : DiffStateObject) : DiffStateObject :=
  mkSide (id this)
         (Js.join (String "010"%char EmptyString)
                  (map text (selected_output this)))
         (compiler this) (result this) (difftype this).

(** [update]: the object afterwards, and the boolean returned. *)
Definition update (this : DiffStateObject) (i : Id) (c : Compiler)
           (r : ResultType) : DiffStateObject * bool :=
  if negb (Id_eqb (id this) i) then (this, false)
  else
    (refresh (mkSide (id this) (model this) (Some (ref_compiler c)) (Some r)
                     (difftype this)),
     true).


(** The calls the pane makes on the event hub, on its base class and on
    its select widgets. *)
Inductive Call :=
| emit_resendExecution (execId : option Z)
| emit_resendCompilation (id : Id)
| updateTitle
| updateState
| updateCompilers.

(** The pane: its compilers by id string, its two sides, and the calls
    made so far. *)
Record Diff := mkDiff {
  compilers : gmap string CompilerEntry;
  lhs : DiffStateObject;
  rhs : DiffStateObject;
  calls : list Call;
}.

Definition call (c : Call) (this : Diff) : Diff :=
  mkDiff (compilers this) (lhs this) (rhs this) (calls this ++ [c]).

Definition requestResendResult (i : Id) (this : Diff) : Diff :=
  match i with
  | IdStr s =>
      match JsNumber.indexOf s "_exec" with
      | Some p =>
          call (emit_resendExecution
                  (JsNumber.parseInt (JsNumber.substr0 s p))) this
      | None => this
      end
  | other => call (emit_resendCompilation other) this
  end.

Definition onDiffSelect (i : Id) (this : Diff) : Diff :=
  call updateState (call updateTitle (requestResendResult i this)).

Definition onCompileResult (i : Id) (c : Compiler) (r : ResultType)
           (this : Diff) : Diff :=
  let '(lhs', lhsChanged) := update (lhs this) i c r in
  let '(rhs', rhsChanged) := update (rhs this) i c r in
  let this' := mkDiff (compilers this) lhs' rhs' (calls this) in
  if lhsChanged || rhsChanged then call updateTitle this' else this'.

(** [id + '_exec'] for a number [id]: an integer of at most 2^53 in size,
    which JavaScript prints as its decimal numeral. *)
Definition exec_id (n : Z) : Id := IdStr (pretty n +:+ "_exec").

Definition onExecuteResult (n : Z) (c : Compiler) (r : ResultType)
           (this : Diff) : Diff :=
  let base := default empty_result (buildResult r) in
  let compileResult :=
    mkResult (code base) (buildResult base) (asm base) (stdout base)
             (stderr base)
             (Some (mkExecResult (code r) (stdout r) (stderr r)))
             (hasGnatDebugOutput base) (gnatDebugOutput base)
             (hasGnatDebugTreeOutput base) (gnatDebugTreeOutput base) in
  onCompileResult (exec_id n) c compileResult this.

(** The name [onCompiler] shows for a compiler: cut to 27 characters and
    three dots when longer.  [name.length] is the length of a string of
    one-byte characters. *)
Definition display_name (c : Compiler) (options : string) : string :=
  let name := compiler_name c +:+ " " +:+ options in
  let maxLength := 30%nat in
  if (maxLength - 3 <? String.length name)%nat
  then JsNumber.substr0 name (maxLength - 3) +:+ "..."
  else name.

Definition set_side_compiler (side : DiffStateObject) (e : CompilerEntry)
           (i : Id) : DiffStateObject :=
  mkSide i (model side) (Some (ref_entry e)) (result side) (difftype side).

(** [onCompiler]; [c] is [None] for a falsy compiler, [options] is the
    string after [options || '']. *)
Definition onCompiler (i : Id) (c : option Compiler) (options : string)
           (editorId treeId : Z) (this : Diff) : Diff :=
  match c with
  | None => this
  | Some c =>
      let entry :=
        mkCompilerEntry i (display_name c options) options editorId treeId
                        c in
      let this1 :=
        mkDiff (<[Id_toString i := entry]> (compilers this))
               (lhs this) (rhs this) (calls this) in
      let this2 :=
        if negb (Id_truthy (id (lhs this1))) then
          onDiffSelect i
            (mkDiff (compilers this1) (set_side_compiler (lhs this1) entry i)
                    (rhs this1) (calls this1))
        else this1 in
      let this3 :=
        if negb (Id_truthy (id (rhs this2))) then
          onDiffSelect i
            (mkDiff (compilers this2) (lhs this2)
                    (set_side_compiler (rhs this2) entry i) (calls this2))
        else this2 in
      call updateCompilers this3
  end.

Definition onExecutor (n : Z) (c : option Compiler) (options : string)
           (editorId treeId : Z) (this : Diff) : Diff :=
  onCompiler (exec_id n) c options editorId treeId this.

Definition onCompilerClose (i : Id) (this : Diff) : Diff :=
  call updateCompilers
    (mkDiff (delete (Id_toString i) (compilers this)) (lhs this) (rhs this)
            (calls this)).

Definition onExecutorClose (n : Z) (this : Diff) : Diff :=
  onCompilerClose (exec_id n) this.

End DiffPane.

(* ===================================================================== *)
(** * Decimal numerals *)
(* ===================================================================== *)

(** What a string of decimal digits denotes, to state what [parseInt]
    reads. *)
Module Decimal.

Definition is_digit (c : ascii) : bool :=
  let n := Z.of_nat (nat_of_ascii c) in
  (48 <=? n) && (n <=? 57).

Definition digit (c : ascii) : Z := Z.of_nat (nat_of_ascii c) - 48.

Definition not_underscore (c : ascii) : bool := negb (Ascii.eqb c "_").

Fixpoint value (s : string) : Z :=
  match s with
  | EmptyString => 0
  | String c rest => digit c * 10 ^ Z.of_nat (String.length rest) + value rest
  end.

End Decimal.

(* ===================================================================== *)
(** * A concrete diff pane *)
(* ===================================================================== *)

Module DiffDemo.
Import DiffPane.

Definition gcc : Compiler := mkCompiler "x86-64 gcc 13.2".

Definition lines (ls : list string) : option (list ResultEntry) :=
  Some (map mkEntry ls).

(** The result of a compilation. *)
Definition compiled : ResultType :=
  mkResult (Some 0) None (lines ["main:"; "  ret"]) (lines [])
           (lines ["warning: unused"]) None false None false None.

(** The result of an execution, with the build it ran. *)
Definition executed : ResultType :=
  mkResult (Some 0) (Some compiled) None (lines ["hello"; "world"])
           (lines []) None false None false None.

Definition side (i : Id) (difftype : DiffType) : DiffStateObject :=
  DiffStateObject_new i EmptyString difftype.

(** A pane that shows nothing yet. *)
Definition pane0 : Diff :=
  mkDiff ∅ (side IdUndefined DiffType_ASM) (side IdUndefined DiffType_ASM)
         [].

(** A pane with compiler 3 on both sides. *)
Definition pane_same : Diff :=
  mkDiff ∅ (side (IdNum 3) DiffType_ASM)
         (side (IdNum 3) DiffType_CompilerStdErr) [].

(** A pane with the output of executor 3 on the left and the assembly of
    compiler 3 on the right. *)
Definition pane_exec : Diff :=
  mkDiff ∅ (side (exec_id 3) DiffType_ExecStdOut)
         (side (IdNum 3) DiffType_ASM) [].

End DiffDemo.

(* ===================================================================== *)
(** * Facts about strings *)
(* ===================================================================== *)

Lemma list_ascii_of_append (a b : string) :
  list_ascii_of_string (a +:+ b)
  = list_ascii_of_string a ++ list_ascii_of_string b.
Proof.
  induction a as [|c a IH]; simpl; [reflexivity | now rewrite IH].
Qed.

Lemma list_ascii_of_string_inj (a b : string) :
  list_ascii_of_string a = list_ascii_of_string b -> a = b.
Proof.
  intros E.
  rewrite <- (string_of_list_ascii_of_string a),
          <- (string_of_list_ascii_of_string b).
  now rewrite E.
Qed.

Lemma append_inv_head (a x y : string) : a +:+ x = a +:+ y -> x = y.
Proof.
  induction a as [|c a IH]; simpl; intros E; [exact E|].
  injection E as E. now apply IH.
Qed.

Lemma append_inv_tail (x y s : string) : x +:+ s = y +:+ s -> x = y.
Proof.
  intros E. apply list_ascii_of_string_inj.
  apply (f_equal list_ascii_of_string) in E.
  rewrite !list_ascii_of_append in E.
  now apply app_inv_tail in E.
Qed.

(** Two strings cut at the first occurrence of a character agree piecewise
    when the text before the cut is free of that character. *)
Lemma split_at_separator (c : ascii) (a a' r r' : string) :
  contains_char c a = false ->
  contains_char c a' = false ->
  a +:+ String c r = a' +:+ String c r' ->
  a = a' /\ r = r'.
Proof.
  revert a'. induction a as [|x a IH]; intros [|x' a'] Ha Ha' E; simpl in *.
  - injection E as E. now split.
  - injection E as E1 E2. subst x'.
    rewrite Ascii.eqb_refl in Ha'. discriminate.
  - injection E as E1 E2. subst x.
    rewrite Ascii.eqb_refl in Ha. discriminate.
  - injection E as E1 E2. subst x'.
    apply orb_false_iff in Ha as [_ Ha].
    apply orb_false_iff in Ha' as [_ Ha'].
    destruct (IH a' Ha Ha' E2) as [-> ->]. now split.
Qed.

(* ===================================================================== *)
(** * Routing and deduplication *)
(* ===================================================================== *)

(** The queue URL determines the routing string of the triple: the base
    URL, the dash and the suffix cancel. *)
Lemma getSqsQueueUrl_inv {H} (host : Host H) (q : Sqs.SqsExecuteQueueBase)
      (t1 t2 : ExecutionTriple) :
  Sqs.getSqsQueueUrl host q t1 = Sqs.getSqsQueueUrl host q t2 ->
  ExecutionTriple_toString host t1 = ExecutionTriple_toString host t2.
Proof.
  unfold Sqs.getSqsQueueUrl. intros E.
  apply append_inv_head in E. apply append_inv_head in E.
  now apply append_inv_tail in E.
Qed.

(** The modelled join is injective on triples whose fields are free of the
    separator. *)
Lemma ExecutionTriple_toString_model_inj (t1 t2 : ExecutionTriple) :
  realistic_triple t1 = true ->
  realistic_triple t2 = true ->
  ExecutionTriple_toString_model t1 = ExecutionTriple_toString_model t2 ->
  t1 = t2.
Proof.
  destruct t1 as [i1 o1 s1], t2 as [i2 o2 s2].
  unfold realistic_triple, realistic_field, ExecutionTriple_toString_model.
  simpl. intros R1 R2 E.
  apply andb_true_iff in R1 as [R1 _]. apply andb_true_iff in R1 as [Ri1 Ro1].
  apply andb_true_iff in R2 as [R2 _]. apply andb_true_iff in R2 as [Ri2 Ro2].
  apply negb_true_iff in Ri1, Ro1, Ri2, Ro2.
  destruct (split_at_separator _ _ _ _ _ Ri1 Ri2 E) as [-> E'].
  destruct (split_at_separator _ _ _ _ _ Ro1 Ro2 E') as [-> ->].
  reflexivity.
Qed.

(** C9. The routing key [getSqsQueueUrl] is a function of the queue base and
    the triple's fields alone, ending in the fixed suffix: with the
    separator-joined routing string, equal triples get the same key and
    triples with realistic (separator-free) fields that differ in some
    field get different keys. *)
Theorem getSqsQueueUrl_routing {H} (host : Host H)
        (q : Sqs.SqsExecuteQueueBase) (t1 t2 : ExecutionTriple) :
  ExecutionTriple_toString host = ExecutionTriple_toString_model ->
  realistic_triple t1 = true ->
  realistic_triple t2 = true ->
  (t1 = t2 -> Sqs.getSqsQueueUrl host q t1 = Sqs.getSqsQueueUrl host q t2)
  /\ (t1 <> t2 ->
      Sqs.getSqsQueueUrl host q t1 <> Sqs.getSqsQueueUrl host q t2)
  /\ Sqs.getSqsQueueUrl host q t1
     = Sqs.queue_url q +:+ "-" +:+ ExecutionTriple_toString_model t1
       +:+ ".fifo".
Proof.
  intros Hmodel R1 R2. repeat split.
  - now intros ->.
  - intros Hne E. apply Hne.
    apply getSqsQueueUrl_inv in E. rewrite Hmodel in E.
    now apply ExecutionTriple_toString_model_inj.
  - unfold Sqs.getSqsQueueUrl. now rewrite Hmodel.
Qed.

Lemma getSqsQueueUrl_routing_witness :
  let host := Demo.host Demo.hit Demo.metadata1 Demo.sandbox_ok in
  let t2 := mkTriple "aarch64" "linux" "cpu" in
  (Demo.triple1 = t2 ->
   Sqs.getSqsQueueUrl host Demo.queue_base Demo.triple1
   = Sqs.getSqsQueueUrl host Demo.queue_base t2)
  /\ (Demo.triple1 <> t2 ->
      Sqs.getSqsQueueUrl host Demo.queue_base Demo.triple1
      <> Sqs.getSqsQueueUrl host Demo.queue_base t2)
  /\ Sqs.getSqsQueueUrl host Demo.queue_base Demo.triple1
     = "https://sqs/q-amd64-linux-cpu.fifo".
Proof.
  apply (getSqsQueueUrl_routing
           (Demo.host Demo.hit Demo.metadata1 Demo.sandbox_ok)
           Demo.queue_base Demo.triple1 (mkTriple "aarch64" "linux" "cpu"));
    reflexivity.
Defined.

(** C8. [push] submits the serialised message as the body, the hash of
    that body as the deduplication key and the fixed group [default]: two
    pushes whose bodies are byte-identical carry the same deduplication
    key, whatever their triples. *)
Theorem push_dedup_key_deterministic {H} (host : Host H)
        (q1 q2 : Sqs.SqsExecuteQueueBase) (t1 t2 : ExecutionTriple)
        (m1 m2 : RemoteExecutionMessage) :
  let r1 := Sqs.push_request host q1 t1 m1 in
  let r2 := Sqs.push_request host q2 t2 m2 in
  MessageBody r1 = MessageBody r2 ->
  MessageDeduplicationId r1 = MessageDeduplicationId r2
  /\ MessageBody r1 = JSON_stringify_message host m1
  /\ MessageDeduplicationId r1 = getHash host (MessageBody r1)
  /\ MessageGroupId r1 = "default"
  /\ MessageGroupId r2 = "default"
  /\ Sqs.push host q1 t1 m1 = sqs_sendMessage host r1.
Proof.
  simpl. intros E. rewrite E. repeat split.
Qed.

Lemma push_dedup_key_deterministic_witness :
  let host := Demo.host Demo.hit Demo.metadata1 Demo.sandbox_ok in
  let r1 := Sqs.push_request host Demo.queue_base Demo.triple1
                             Demo.message1 in
  let r2 := Sqs.push_request host Demo.queue_base
                             (mkTriple "aarch64" "linux" "cpu")
                             Demo.message1 in
  MessageDeduplicationId r1 = MessageDeduplicationId r2
  /\ MessageBody r1 = JSON_stringify_message host Demo.message1
  /\ MessageDeduplicationId r1 = getHash host (MessageBody r1)
  /\ MessageGroupId r1 = "default"
  /\ MessageGroupId r2 = "default"
  /\ Sqs.push host Demo.queue_base Demo.triple1 Demo.message1
     = sqs_sendMessage host r1.
Proof.
  apply (push_dedup_key_deterministic
           (Demo.host Demo.hit Demo.metadata1 Demo.sandbox_ok)
           Demo.queue_base Demo.queue_base Demo.triple1
           (mkTriple "aarch64" "linux" "cpu") Demo.message1 Demo.message1).
  reflexivity.
Defined.

(* ===================================================================== *)
(** * pop *)
(* ===================================================================== *)

(** What [pop] does once the broker has handed out exactly one message. *)
Lemma pop_one_message {H} (host : Host H) (self : Sqs.SqsWorkerMode)
      (s s1 : H) (m : SqsMessage) :
  let url := Sqs.getSqsQueueUrl host (Sqs.base self) (Sqs.triple self) in
  sqs_receiveMessage host
    {| recv_QueueUrl := url; recv_MaxNumberOfMessages := 1 |} s
  = (Normal {| Messages := Some [m] |}, s1) ->
  Sqs.pop host self s
  = eff_try_finally (Sqs.pop_try host m) (Sqs.pop_finally host url m) s1.
Proof.
  intros url E. unfold Sqs.pop, mbind, eff_bind. fold url. now rewrite E.
Qed.

(** C3, on a broker that holds one message with the body [not json] and the
    receipt handle [rh-1]: [pop] deletes the message and then raises the
    parse error; it does not return "no message". *)
Lemma pop_malformed_body_raises :
  let host := Demo.host Demo.hit Demo.metadata1 Demo.sandbox_ok in
  let s := Demo.state0 [mkSqsMessage (Some "not json") (Some "rh-1")] in
  (Sqs.pop host Demo.worker s).1
  = Throw (mkThrown "SyntaxError" "Unexpected token in JSON" [])
  /\ (Sqs.pop host Demo.worker s).1 <> Normal None
  /\ Demo.queue (Sqs.pop host Demo.worker s).2 = []
  /\ Demo.deleted (Sqs.pop host Demo.worker s).2 = ["rh-1"].
Proof.
  repeat split; try reflexivity. discriminate.
Qed.

(** C3, as the code has it.  For a popped message whose non-empty body
    fails to deserialise, [pop] deletes the message when it carries a
    non-empty receipt handle and then rejects: with the parse error, or
    with the error of the delete if that fails.  Without a receipt handle
    nothing is deleted and [pop] rejects with the parse error. *)
Theorem pop_malformed_body {H} (host : Host H) (self : Sqs.SqsWorkerMode)
        (s s1 : H) (m : SqsMessage) (json : string) :
  let url := Sqs.getSqsQueueUrl host (Sqs.base self) (Sqs.triple self) in
  sqs_receiveMessage host
    {| recv_QueueUrl := url; recv_MaxNumberOfMessages := 1 |} s
  = (Normal {| Messages := Some [m] |}, s1) ->
  truthy_string (Body m) = Some json ->
  JSON_parse_message host json = None ->
  Sqs.pop host self s
  = match truthy_string (ReceiptHandle m) with
    | Some handle =>
        match sqs_deleteMessage host
                {| del_QueueUrl := url; del_ReceiptHandle := handle |} s1 with
        | (Normal _, s2) => (Throw (SyntaxError host json), s2)
        | (Throw e, s2) => (Throw e, s2)
        end
    | None => (Throw (SyntaxError host json), s1)
    end.
Proof.
  intros url Hrecv Hbody Hparse.
  rewrite (pop_one_message host self s s1 m Hrecv). fold url.
  unfold eff_try_finally, Sqs.pop_try, Sqs.pop_finally.
  rewrite Hbody, Hparse.
  destruct (truthy_string (ReceiptHandle m)) as [handle|]; [|reflexivity].
  unfold throw.
  now destruct (sqs_deleteMessage host _ s1) as [[[]|e] s2].
Qed.

Lemma pop_malformed_body_witness :
  let host := Demo.host Demo.hit Demo.metadata1 Demo.sandbox_ok in
  let s := Demo.state0 [mkSqsMessage (Some "not json") (Some "rh-1")] in
  Sqs.pop host Demo.worker s
  = (Throw (SyntaxError host "not json"),
     Demo.mkState [] ["rh-1"] [] [] 0).
Proof.
  apply (pop_malformed_body
           (Demo.host Demo.hit Demo.metadata1 Demo.sandbox_ok) Demo.worker
           (Demo.state0 [mkSqsMessage (Some "not json") (Some "rh-1")])
           (Demo.state0 [mkSqsMessage (Some "not json") (Some "rh-1")])
           (mkSqsMessage (Some "not json") (Some "rh-1")) "not json");
    reflexivity.
Defined.

(* ===================================================================== *)
(** * The worker loop *)
(* ===================================================================== *)

(** A call of [doExecutionWork] arms the next timer exactly when its
    promise resolves. *)
Lemma doExecutionWork_timers {H} (host : Host H) (queue : Sqs.SqsWorkerMode)
      (cenv : CompilationEnvironment) (w : Worker.World H) :
  match Worker.doExecutionWork host queue cenv w with
  | (Resolved _, w') => Worker.timers w' = Worker.timers w ++ [500]
  | (Rejected _, w') => Worker.timers w' = Worker.timers w
  end.
Proof.
  unfold Worker.doExecutionWork, run_async, Worker.doExecutionWork_body,
    mbind, eff_bind, Worker.on_host.
  destruct (Sqs.pop host queue (Worker.host_state w)) as [[msg|e] h];
    simpl; [|reflexivity].
  destruct msg as [msg|]; simpl; [|reflexivity].
  destruct (String.eqb (guid msg) EmptyString); simpl; [reflexivity|].
  now destruct (Worker.process_message host cenv msg h) as [[[]|e] h'].
Qed.

(** Once a call of [doExecutionWork] rejects with no other timer pending,
    the event loop has nothing left to run. *)
Lemma event_loop_halts_after_rejection {H} (host : Host H)
      (queue : Sqs.SqsWorkerMode) (cenv : CompilationEnvironment)
      (h : H) (delay : Z) (e : Thrown) (w' : Worker.World H) (fuel : nat) :
  Worker.doExecutionWork host queue cenv (Worker.mkWorld h [])
  = (Rejected e, w') ->
  Worker.event_loop host (S fuel) queue cenv (Worker.mkWorld h [delay])
  = ([Rejected e], w')
  /\ Worker.timers w' = [].
Proof.
  intros E.
  pose proof (doExecutionWork_timers host queue cenv (Worker.mkWorld h []))
    as T.
  rewrite E in T. destruct w' as [h' ts]. simpl in T. subst ts.
  split; [|reflexivity].
  simpl. rewrite E. now destruct fuel.
Qed.

(** C1, on a worker whose queue holds one well-formed message and whose
    cache misses the hash: the error of the fetch is not caught, the call
    of [doExecutionWork] rejects, no timer is armed and the loop started by
    [startExecutionWorkerThread] ends after that one call. *)
Lemma worker_loop_halts_on_cache_miss :
  let host := Demo.host Demo.miss Demo.metadata1 Demo.sandbox_ok in
  let h := Demo.state0 [mkSqsMessage (Some Demo.body1) (Some "rh-1")] in
  let started :=
    Worker.startExecutionWorkerThread Demo.triple1 Demo.props Demo.props
      Demo.compilationEnvironment (Worker.mkWorld h []) in
  let failure :=
    new_Error "Tried to get executable from cache, but got an error: {}" in
  started = (Normal Demo.worker, Worker.mkWorld h [1500])
  /\ (Worker.doExecutionWork host Demo.worker Demo.compilationEnvironment
        (Worker.mkWorld h [])).1 = Rejected failure
  /\ Worker.timers
       (Worker.doExecutionWork host Demo.worker Demo.compilationEnvironment
          (Worker.mkWorld h [])).2 = []
  /\ (Worker.event_loop host 10 Demo.worker Demo.compilationEnvironment
        started.2).1 = [Rejected failure]
  /\ Worker.timers
       (Worker.event_loop host 10 Demo.worker Demo.compilationEnvironment
          started.2).2 = [].
Proof.
  repeat split; vm_compute; reflexivity.
Qed.

(** C1, as the code has it.  For every popped message with a non-empty
    guid, the call of [doExecutionWork] arms the next poll (500 ms) when the
    fetch/unpack/execute/notify chain completes, and when the chain raises
    an error the call rejects with that error and arms nothing: the error
    is not caught at the loop.  In general a call arms the next poll
    exactly when its promise resolves. *)
Theorem doExecutionWork_next_poll {H} (host : Host H)
        (queue : Sqs.SqsWorkerMode) (cenv : CompilationEnvironment)
        (w : Worker.World H) (msg : RemoteExecutionMessage) (h : H) :
  Sqs.pop host queue (Worker.host_state w) = (Normal (Some msg), h) ->
  guid msg <> EmptyString ->
  Worker.doExecutionWork host queue cenv w
  = match Worker.process_message host cenv msg h with
    | (Normal _, h') =>
        (Resolved tt, Worker.mkWorld h' (Worker.timers w ++ [500]))
    | (Throw e, h') => (Rejected e, Worker.mkWorld h' (Worker.timers w))
    end
  /\ forall w0 : Worker.World H,
      match Worker.doExecutionWork host queue cenv w0 with
      | (Resolved _, w') => Worker.timers w' = Worker.timers w0 ++ [500]
      | (Rejected _, w') => Worker.timers w' = Worker.timers w0
      end.
Proof.
  intros Hpop Hguid. split; [|apply doExecutionWork_timers].
  unfold Worker.doExecutionWork, run_async, Worker.doExecutionWork_body,
    mbind, eff_bind, Worker.on_host.
  rewrite Hpop. simpl.
  apply String.eqb_neq in Hguid. rewrite Hguid. simpl.
  now destruct (Worker.process_message host cenv msg h) as [[[]|e] h'].
Qed.

Lemma doExecutionWork_next_poll_witness :
  let host := Demo.host Demo.hit Demo.metadata1 Demo.sandbox_ok in
  let h := Demo.state0 [mkSqsMessage (Some Demo.body1) (Some "rh-1")] in
  Worker.doExecutionWork host Demo.worker Demo.compilationEnvironment
    (Worker.mkWorld h [])
  = (Resolved tt,
     Worker.mkWorld
       (Demo.mkState [] ["rh-1"] ["/tmp/ce-1/abc123"]
                     [("g1", Demo.version_run)] 6000000)
       [500])
  /\ forall w0 : Worker.World Demo.State,
      match Worker.doExecutionWork host Demo.worker
                                   Demo.compilationEnvironment w0 with
      | (Resolved _, w') => Worker.timers w' = Worker.timers w0 ++ [500]
      | (Rejected _, w') => Worker.timers w' = Worker.timers w0
      end.
Proof.
  apply (doExecutionWork_next_poll
           (Demo.host Demo.hit Demo.metadata1 Demo.sandbox_ok) Demo.worker
           Demo.compilationEnvironment
           (Worker.mkWorld
              (Demo.state0 [mkSqsMessage (Some Demo.body1) (Some "rh-1")]) [])
           Demo.message1
           (Demo.mkState [] ["rh-1"] [] [] 0)).
  - reflexivity.
  - discriminate.
Defined.

(* ===================================================================== *)
(** * Loading the package *)
(* ===================================================================== *)

Lemma JSON_stringify_no_props (quote : string -> string) (e : Thrown) :
  thr_props e = [] -> JSON_stringify_thrown quote e = "{}".
Proof.
  intros E. unfold JSON_stringify_thrown. now rewrite E.
Qed.

(** Every error of the [try] block that has no enumerable own property
    leaves [loadPackageWithExecutable] as the same wrapped error. *)
Lemma loadPackage_wraps_plain_error {H} (host : Host H) (hash dir : string)
      (h h' : H) (e : Thrown) :
  Local.loadPackage_try host hash dir h = (Throw e, h') ->
  thr_props e = [] ->
  Local.loadPackageWithExecutable host hash dir h
  = (Throw (new_Error
              "Tried to get executable from cache, but got an error: {}"),
     h').
Proof.
  intros E P. unfold Local.loadPackageWithExecutable, eff_try_catch.
  rewrite E. unfold throw. now rewrite (JSON_stringify_no_props _ e P).
Qed.

(** C2, evaluated.  For the hash [abc123], once with a cache that misses
    and once with a cache that hits a package whose metadata file does not
    parse: the [try] block fails with two different errors, and
    [loadPackageWithExecutable] raises one and the same error in both
    cases, in class, message and properties. *)
Theorem cache_miss_and_corrupt_metadata_same_error :
  let missing := Demo.host Demo.miss Demo.metadata1 Demo.sandbox_ok in
  let corrupt := Demo.host Demo.hit "{corrupt" Demo.sandbox_ok in
  let s := Demo.state0 [] in
  (Local.loadPackage_try missing "abc123" "/tmp/ce-1" s).1
  = Throw (new_Error
             "Tried to get executable from cache, but got a cache miss")
  /\ (Local.loadPackage_try corrupt "abc123" "/tmp/ce-1" s).1
     = Throw (mkThrown "SyntaxError" "Unexpected token in JSON" [])
  /\ (Local.loadPackageWithExecutable missing "abc123" "/tmp/ce-1" s).1
     = Throw (new_Error
                "Tried to get executable from cache, but got an error: {}")
  /\ (Local.loadPackageWithExecutable corrupt "abc123" "/tmp/ce-1" s).1
     = (Local.loadPackageWithExecutable missing "abc123" "/tmp/ce-1" s).1.
Proof.
  repeat split; vm_compute; reflexivity.
Qed.

(* ===================================================================== *)
(** * execute *)
(* ===================================================================== *)

(** C10. After [downloadExecutablePackage] has completed, [buildResult]
    holds the bundle that [loadPackageWithExecutable] returned for the
    fresh directory, the assertion of [execute] passes and [execute]
    launches the executable recorded in that bundle; on an object whose
    [buildResult] is not set, as it is after the constructor, [execute]
    fails the assertion. *)
Theorem execute_after_download {H} (host : Host H) (hash : string)
        (params : ExecutionParams) (h h' : H)
        (this this' : Local.LocalExecutionEnvironment) :
  Local.downloadExecutablePackage host hash (h, this)
  = (Normal tt, (h', this')) ->
  (exists (b : BuildResult) (d : string) (h1 : H),
      temp_mkdir host h = (Normal d, h1)
      /\ Local.loadPackageWithExecutable host hash d h1 = (Normal b, h')
      /\ Local.buildResult this' = Some b
      /\ Local.execute host params (h', this')
         = on_fst (exec_sandbox host (br_executableFilename b)
                     (Local.execute_args host params)
                     (Local.getDefaultExecOptions host this' params).1)
                  (h', this'))
  /\ (forall (h0 : H) (this0 : Local.LocalExecutionEnvironment),
         Local.buildResult this0 = None ->
         Local.execute host params (h0, this0)
         = (Throw (assertion_error host), (h0, this0)))
  /\ (forall cenv : CompilationEnvironment,
         Local.buildResult (Local.LocalExecutionEnvironment_new host cenv)
         = None).
Proof.
  intros E. split; [|split; [|reflexivity]].
  - unfold Local.downloadExecutablePackage, mbind, eff_bind, on_fst,
      get_snd, put_snd in E. simpl in E.
    destruct (temp_mkdir host h) as [[d|e] h1] eqn:Emk; simpl in E;
      [|discriminate].
    destruct (Local.loadPackageWithExecutable host hash d h1)
      as [[b|e] h2] eqn:Eload; simpl in E; [|discriminate].
    injection E as <- <-.
    exists b, d, h1. split; [reflexivity|]. split; [exact Eload|].
    split; reflexivity.
  - intros h0 this0 E0.
    unfold Local.execute, mbind, eff_bind, get_snd. simpl.
    now rewrite E0.
Qed.

Lemma execute_after_download_witness :
  let host := Demo.host Demo.hit Demo.metadata1 Demo.sandbox_ok in
  let h' := Demo.mkState [] [] ["/tmp/ce-1/abc123"] [] 6000000 in
  (exists (b : BuildResult) (d : string) (h1 : Demo.State),
      temp_mkdir host (Demo.state0 []) = (Normal d, h1)
      /\ Local.loadPackageWithExecutable host "abc123" d h1 = (Normal b, h')
      /\ Local.buildResult Demo.downloaded_executor = Some b
      /\ Local.execute host Demo.params1 (h', Demo.downloaded_executor)
         = on_fst (exec_sandbox host (br_executableFilename b)
                     (Local.execute_args host Demo.params1)
                     (Local.getDefaultExecOptions
                        host Demo.downloaded_executor Demo.params1).1)
                  (h', Demo.downloaded_executor))
  /\ (forall (h0 : Demo.State) (this0 : Local.LocalExecutionEnvironment),
         Local.buildResult this0 = None ->
         Local.execute host Demo.params1 (h0, this0)
         = (Throw (assertion_error host), (h0, this0)))
  /\ (forall cenv : CompilationEnvironment,
         Local.buildResult (Local.LocalExecutionEnvironment_new host cenv)
         = None).
Proof.
  apply (execute_after_download
           (Demo.host Demo.hit Demo.metadata1 Demo.sandbox_ok) "abc123"
           Demo.params1 (Demo.state0 []) _ Demo.fresh_executor
           Demo.downloaded_executor).
  vm_compute. reflexivity.
Defined.

(** The options of [getDefaultExecOptions] never carry a timeout or an
    output limit. *)
Lemma getDefaultExecOptions_no_limits {H} (host : Host H)
      (this : Local.LocalExecutionEnvironment) (params : ExecutionParams) :
  eo_timeoutMs (Local.getDefaultExecOptions host this params).1 = None
  /\ eo_maxOutput (Local.getDefaultExecOptions host this params).1 = None.
Proof.
  unfold Local.getDefaultExecOptions.
  destruct (runtimeTools params) as [tools|];
    [destruct (Local.inject_runtimeEnv _ tools)|]; now split.
Qed.

(** C4, evaluated.  With the configured limits at their defaults (2000 ms,
    32768 bytes) and a sandbox that reports the limits it is launched
    with, [execute] launches the bundle's executable without a timeout and
    without an output limit, while [execBinary] passes both. *)
Theorem execute_launches_without_limits :
  let host := Demo.host Demo.hit Demo.metadata1 Demo.sandbox_reports_limits in
  let st := (Demo.state0 [], Demo.downloaded_executor) in
  Local.timeoutMs Demo.downloaded_executor = 2000
  /\ Local.maxExecOutputSize Demo.downloaded_executor = 32768
  /\ eo_timeoutMs
       (Local.getDefaultExecOptions host Demo.downloaded_executor
                                    Demo.params1).1 = None
  /\ eo_maxOutput
       (Local.getDefaultExecOptions host Demo.downloaded_executor
                                    Demo.params1).1 = None
  /\ (Local.execute host Demo.params1 st).1
     = Normal {| uer_code := 0; uer_timedOut := false;
                 uer_stdout := "no limits"; uer_stderr := EmptyString |}
  /\ match (Local.execBinary host "/tmp/ce-1/a.out" Demo.exec_params
                               "/home" st).1 with
     | Resolved r =>
         ber_stdout r = [mkLine "timeoutMs=2000 maxOutput=32768" None]
     | Rejected _ => False
     end.
Proof.
  repeat split; vm_compute; reflexivity.
Qed.

(* ===================================================================== *)
(** * getDefaultExecOptions *)
(* ===================================================================== *)

Lemma inject_options_env (env : gmap string string)
      (opts : list RuntimeToolOption) :
  (Local.inject_options env opts).1 = env.
Proof.
  induction opts as [|opt rest IH]; simpl; [reflexivity|].
  destruct (Local.inject_options env rest) as [env2 rest'].
  simpl in *. exact IH.
Qed.

(** The loop over the options of the [env] tool leaves [env] as it was. *)
Lemma inject_runtimeEnv_env (env : gmap string string)
      (tools : list ConfiguredRuntimeTool) :
  (Local.inject_runtimeEnv env tools).1 = env.
Proof.
  induction tools as [|tool rest IH]; simpl; [reflexivity|].
  destruct (RuntimeToolType_eqb (tool_name tool) RuntimeToolType_env).
  - pose proof (inject_options_env env (tool_options tool)) as E.
    destruct (Local.inject_options env (tool_options tool)). exact E.
  - destruct (Local.inject_runtimeEnv env rest). exact IH.
Qed.

(** The environment [getDefaultExecOptions] assembles holds PATH and
    nothing else: the bundle's hint, or the empty string without one. *)
Lemma getDefaultExecOptions_env {H} (host : Host H)
      (this : Local.LocalExecutionEnvironment) (params : ExecutionParams) :
  eo_env (Local.getDefaultExecOptions host this params).1
  = Some (match Local.bundle_PATH this with
          | Some hint => <["PATH" := hint]> (<["PATH" := EmptyString]> ∅)
          | None => <["PATH" := EmptyString]> ∅
          end).
Proof.
  unfold Local.getDefaultExecOptions.
  assert (forall (e : gmap string string),
             e = <["PATH" := EmptyString]> ∅ ->
             match Local.bundle_PATH this with
             | Some hint =>
                 if 0 <? Z.of_nat (String.length (default EmptyString (e !! "PATH")))
                 then <["PATH" := default EmptyString (e !! "PATH")
                                   +:+ path_delimiter host +:+ hint]> e
                 else <["PATH" := hint]> e
             | None => e
             end
             = match Local.bundle_PATH this with
               | Some hint => <["PATH" := hint]> (<["PATH" := EmptyString]> ∅)
               | None => <["PATH" := EmptyString]> ∅
               end) as Henv.
  { intros e ->. destruct (Local.bundle_PATH this); [|reflexivity].
    now rewrite lookup_insert_eq. }
  destruct (runtimeTools params) as [tools|]; simpl.
  - pose proof (inject_runtimeEnv_env (<["PATH" := EmptyString]> ∅) tools)
      as E.
    destruct (Local.inject_runtimeEnv _ tools) as [e tools']. simpl in *.
    now rewrite (Henv e E).
  - now rewrite (Henv _ eq_refl).
Qed.

(** C5, evaluated.  The [env] runtime tool carries PATH=/caller/bin and
    FOO=bar, the bundle's hint is /bundle/bin and the separator is [:].
    The assembled environment holds the hint as PATH and nothing else:
    neither pair is injected and the caller's PATH is not in front of the
    hint.  The loop has overwritten the names of the options by their
    values instead. *)
Theorem getDefaultExecOptions_drops_caller_env :
  let host := Demo.host Demo.hit Demo.metadata1 Demo.sandbox_ok in
  let result :=
    Local.getDefaultExecOptions host Demo.downloaded_executor
                                Demo.params_env in
  Local.bundle_PATH Demo.downloaded_executor = Some "/bundle/bin"
  /\ eo_env result.1 = Some (<["PATH" := "/bundle/bin"]> ∅)
  /\ eo_env result.1
     <> Some (<["FOO" := "bar"]>
                (<["PATH" := "/caller/bin:/bundle/bin"]> ∅))
  /\ (eo_env result.1 ≫= (.!! "FOO")) = None
  /\ runtimeTools result.2
     = Some [mkTool RuntimeToolType_env
                    [mkOption "/caller/bin" "/caller/bin";
                     mkOption "bar" "bar"]].
Proof.
  repeat split; try (vm_compute; reflexivity).
  vm_compute. discriminate.
Qed.

(* ===================================================================== *)
(** * execBinary *)
(* ===================================================================== *)

(** The promise of [execBinary] adopts the promise of
    [execBinaryMaybeWrapped]: a rejection of the latter is a rejection of
    the former, the [catch] block does not run. *)
Lemma execBinary_adopts_rejection {H} (host : Host H) (executable : string)
      (ep : ExecutableExecutionOptions) (homeDir : string)
      (st st' : H * Local.LocalExecutionEnvironment)
      (opts : ExecutionOptions) (e : Thrown) :
  Local.execBinary_execOptions st.2 ep homeDir = Normal opts ->
  Local.execBinaryMaybeWrapped host executable (eep_args ep) opts ep homeDir
                               st = (Throw e, st') ->
  Local.execBinary host executable ep homeDir st = (Rejected e, st').
Proof.
  intros Eo Ew. unfold Local.execBinary, try_catch, mbind, completion_bind.
  rewrite Eo. simpl. unfold run_async. now rewrite Ew.
Qed.

(** C6, evaluated.  The sandbox fails to launch the binary with an error
    that carries a code (127) and a stderr.  [execBinary] rejects with that
    error; the result the [catch] block builds for this error is not
    returned.  The [catch] block does run for an error thrown while the
    options are built: parameters without an iterable [ldPath] give the
    result with code -1. *)
Theorem execBinary_propagates_launch_failure :
  let host := Demo.host Demo.hit Demo.metadata1 Demo.sandbox_fails in
  let st := (Demo.state0 [], Demo.downloaded_executor) in
  let no_ldPath :=
    mkExecutableExecutionOptions ["--version"] EmptyString None None None in
  Local.execBinary host "/tmp/ce-1/a.out" Demo.exec_params "/home" st
  = (Rejected Demo.launch_failure, st)
  /\ Local.execBinary_catch host Demo.launch_failure
     = {| ber_code := VNum 127; ber_timedOut := false; ber_stdout := [];
          ber_stderr := [mkLine "a.out: not found" None];
          ber_processExecutionResultTime := None |}
  /\ Local.execBinary host "/tmp/ce-1/a.out" no_ldPath "/home" st
     = (Resolved {| ber_code := VNum (-1); ber_timedOut := false;
                    ber_stdout := []; ber_stderr := [];
                    ber_processExecutionResultTime := None |}, st).
Proof.
  repeat split; vm_compute; reflexivity.
Qed.

(* ===================================================================== *)
(** * The environment of execBinary *)
(* ===================================================================== *)

Lemma last_option_app (k : string) (start : option string)
      (l1 l2 : list RuntimeToolOption) :
  last_option k start (l1 ++ l2) = last_option k (last_option k start l1) l2.
Proof. unfold last_option. apply foldl_app. Qed.

Lemma last_option_cons (k : string) (start : option string)
      (o : RuntimeToolOption) (rest : list RuntimeToolOption) :
  last_option k start (o :: rest)
  = last_option k (if String.eqb (opt_name o) k
                   then Some (opt_value o) else start) rest.
Proof. reflexivity. Qed.

(** The start value matters only when no option has the name. *)
Lemma last_option_start (k : string) (start : option string)
      (opts : list RuntimeToolOption) :
  last_option k start opts
  = match last_option k None opts with
    | Some v => Some v
    | None => start
    end.
Proof.
  revert start. induction opts as [|o rest IH]; intros start.
  - reflexivity.
  - rewrite !last_option_cons.
    destruct (String.eqb (opt_name o) k).
    + rewrite (IH (Some (opt_value o))).
      now destruct (last_option k None rest).
    + apply IH.
Qed.

Lemma last_option_None (k : string) (opts : list RuntimeToolOption) :
  last_option k None opts = None
  <-> Forall (fun o => opt_name o <> k) opts.
Proof.
  induction opts as [|o rest IH].
  - split; [constructor | reflexivity].
  - rewrite last_option_cons.
    destruct (String.eqb_spec (opt_name o) k) as [E|E].
    + split.
      * intros F. rewrite last_option_start in F.
        now destruct (last_option k None rest).
      * intros F. inversion F. contradiction.
    + rewrite IH. split.
      * intros F. now constructor.
      * intros F. now inversion F.
Qed.

(** Writing a list of options into the environment of the options. *)
Lemma foldl_set_env_option_lookup (opts : list RuntimeToolOption)
      (o : ExecutionOptions) (env : gmap string string) (k : string) :
  eo_env o = Some env ->
  exists env',
    eo_env (foldl Local.set_env_option o opts) = Some env'
    /\ env' !! k = last_option k (env !! k) opts.
Proof.
  revert o env. induction opts as [|opt rest IH]; intros o env E.
  - exists env. now split.
  - simpl.
    destruct (IH (Local.set_env_option o opt)
                 (<[opt_name opt := opt_value opt]> env)) as (env' & E1 & E2).
    { unfold Local.set_env_option. now rewrite E. }
    exists env'. split; [exact E1|]. rewrite E2.
    unfold last_option. simpl. rewrite lookup_insert.
    destruct (String.eqb_spec (opt_name opt) k) as [->|Hne].
    + now rewrite decide_True.
    + now rewrite decide_False.
Qed.

Lemma setEnvironmentVariablesFromRuntime_lookup
      (tools : list ConfiguredRuntimeTool) (o : ExecutionOptions)
      (env : gmap string string) (k : string) :
  eo_env o = Some env ->
  exists env',
    eo_env (Local.setEnvironmentVariablesFromRuntime tools o) = Some env'
    /\ env' !! k
       = last_option k (env !! k)
           (flat_map (fun t =>
                        if RuntimeToolType_eqb (tool_name t)
                                               RuntimeToolType_env
                        then tool_options t else [])
                     tools).
Proof.
  unfold Local.setEnvironmentVariablesFromRuntime.
  revert o env. induction tools as [|t rest IH]; intros o env E.
  - exists env. now split.
  - simpl. destruct (RuntimeToolType_eqb (tool_name t) RuntimeToolType_env).
    + destruct (foldl_set_env_option_lookup (tool_options t) o env k E)
        as (env1 & E1 & L1).
      destruct (IH _ env1 E1) as (env' & E' & L').
      exists env'. split; [exact E'|].
      now rewrite L', L1, last_option_app.
    + apply (IH o env E).
Qed.

(** The options [execBinaryMaybeWrapped] launches with always have an
    environment; its entry for a key is the last [env] runtime tool option
    of that name, else the entry of the options it was given. *)
Lemma wrapped_execOptions_lookup (opts : ExecutionOptions)
      (ep : ExecutableExecutionOptions) (k : string) :
  exists env,
    eo_env (Local.wrapped_execOptions opts ep) = Some env
    /\ env !! k
       = last_option k (default ∅ (eo_env opts) !! k) (runtime_env_options ep).
Proof.
  unfold Local.wrapped_execOptions, runtime_env_options.
  set (o := match eo_env opts with
            | Some _ => opts
            | None => Local.set_env opts ∅
            end).
  assert (eo_env o = Some (default ∅ (eo_env opts))) as Eo.
  { subst o. now destruct (eo_env opts) eqn:E. }
  destruct (eep_runtimeTools ep) as [tools|].
  - apply setEnvironmentVariablesFromRuntime_lookup. exact Eo.
  - exists (default ∅ (eo_env opts)). now split.
Qed.

(** Without a [heaptrack] tool the sandbox is launched with those
    options. *)
Lemma execBinaryMaybeWrapped_launch {H} (host : Host H) (executable : string)
      (args : list string) (opts : ExecutionOptions)
      (ep : ExecutableExecutionOptions) (homeDir : string)
      (st : H * Local.LocalExecutionEnvironment) :
  Local.find_heaptrack ep = None ->
  Local.execBinaryMaybeWrapped host executable args opts ep homeDir st
  = (execResult ← on_fst (exec_sandbox host executable args
                            (Local.wrapped_execOptions opts ep));
     on_fst (Local.processUserExecutableExecutionResult host execResult []))
      st.
Proof.
  intros E. unfold Local.execBinaryMaybeWrapped, mbind, eff_bind, get_snd.
  now rewrite E.
Qed.

(** Every object built by the constructor has the sanitizer hints
    enabled. *)
Lemma useSanitizerEnvHints_new {H} (host : Host H)
      (cenv : CompilationEnvironment) :
  Local.useSanitizerEnvHints (Local.LocalExecutionEnvironment_new host cenv)
  = true.
Proof. reflexivity. Qed.

(** The baseline hints: color=always at four keys, nothing elsewhere. *)
Lemma sanitizer_hints_lookup (k : string) :
  Local.sanitizer_hints !! k
  = if decide (k ∈ ["ASAN_OPTIONS"; "UBSAN_OPTIONS"; "MSAN_OPTIONS";
                    "LSAN_OPTIONS"])
    then Some "color=always" else None.
Proof.
  unfold Local.sanitizer_hints. rewrite !lookup_insert, lookup_empty.
  destruct (decide (k ∈ _)) as [Hin|Hout].
  - rewrite !elem_of_cons, elem_of_nil in Hin.
    repeat case_decide; try reflexivity.
    destruct Hin as [->|[->|[->|[->|[]]]]]; congruence.
  - repeat case_decide; try reflexivity; subst k; exfalso; apply Hout;
      rewrite !elem_of_cons; auto 6.
Qed.

(** C7. With the sanitizer hints enabled, the environment [execBinary]
    launches with holds, for every key, the caller's entry when the caller
    provides one (in [executeParameters.env] or in an [env] runtime tool)
    and the baseline hint otherwise; the four baseline hints are
    ASAN_OPTIONS, UBSAN_OPTIONS, MSAN_OPTIONS and LSAN_OPTIONS, each set to
    color=always.  So on a key collision the caller's entry wins, and a
    baseline hint is in the final environment only when the caller has no
    entry for its key.  Without a [heaptrack] tool, the sandbox is launched
    with exactly these options. *)
Theorem execBinary_env_precedence {H} (host : Host H)
        (this : Local.LocalExecutionEnvironment)
        (ep : ExecutableExecutionOptions) (homeDir : string)
        (opts : ExecutionOptions) (k : string) :
  Local.execBinary_execOptions this ep homeDir = Normal opts ->
  Local.useSanitizerEnvHints this = true ->
  exists env : gmap string string,
    eo_env (Local.wrapped_execOptions opts ep) = Some env
    /\ (forall (executable : string) (h : H),
          Local.find_heaptrack ep = None ->
          Local.execBinary host executable ep homeDir (h, this)
          = run_async
              (execResult ← on_fst (exec_sandbox host executable
                                      (eep_args ep)
                                      (Local.wrapped_execOptions opts ep));
               on_fst (Local.processUserExecutableExecutionResult
                         host execResult []))
              (h, this))
    /\ env !! k = match caller_env_entry ep k with
                  | Some v => Some v
                  | None => Local.sanitizer_hints !! k
                  end
    /\ (caller_env_entry ep k = None
        <-> Local.spread_of (eep_env ep) !! k = None
            /\ Forall (fun o => opt_name o <> k) (runtime_env_options ep))
    /\ (k ∈ ["ASAN_OPTIONS"; "UBSAN_OPTIONS"; "MSAN_OPTIONS"; "LSAN_OPTIONS"]
        <-> Local.sanitizer_hints !! k = Some "color=always")
    /\ (k ∉ ["ASAN_OPTIONS"; "UBSAN_OPTIONS"; "MSAN_OPTIONS"; "LSAN_OPTIONS"]
        -> Local.sanitizer_hints !! k = None).
Proof.
  intros Eo Hs.
  unfold Local.execBinary_execOptions in Eo.
  destruct (eep_ldPath ep) as [ldPath|] eqn:Eldp; [|discriminate].
  injection Eo as <-.
  destruct (wrapped_execOptions_lookup
              (mkExecutionOptions
                 (Some (if Local.useSanitizerEnvHints this
                        then Local.spread Local.sanitizer_hints
                                          (Local.spread_of (eep_env ep))
                        else Local.spread ∅ (Local.spread_of (eep_env ep))))
                 (Some (Local.timeoutMs this))
                 (Some (Local.maxExecOutputSize this))
                 (Some ldPath) (Some (eep_stdin ep)) (Some homeDir)
                 (Some homeDir)) ep k) as (env & E & L).
  exists env. split; [exact E|].
  split.
  { intros executable h Hh.
    unfold Local.execBinary, try_catch, mbind at 1, completion_bind,
      Local.execBinary_execOptions.
    rewrite Eldp. simpl. unfold run_async.
    rewrite (execBinaryMaybeWrapped_launch host executable (eep_args ep)
               _ ep homeDir (h, this) Hh).
    match goal with
    | |- (let (p, st') := let '(c, s') := ?m in _ in _) = _ =>
        now destruct m
    end. }
  split; [|split; [|split]].
  - rewrite L. simpl. rewrite Hs. unfold Local.spread, caller_env_entry.
    rewrite lookup_union.
    rewrite (last_option_start k (_ ∪ _)),
            (last_option_start k (Local.spread_of (eep_env ep) !! k)).
    destruct (last_option k None (runtime_env_options ep)); [reflexivity|].
    destruct (Local.spread_of (eep_env ep) !! k);
      now destruct (Local.sanitizer_hints !! k).
  - unfold caller_env_entry. rewrite last_option_start, <- last_option_None.
    destruct (last_option k None (runtime_env_options ep)); split;
      intros F; try discriminate; try (now split); destruct F as [F1 F2];
      congruence.
  - rewrite sanitizer_hints_lookup. case_decide; split; intros F;
      try assumption; try reflexivity; try discriminate; contradiction.
  - intros Hnot. rewrite sanitizer_hints_lookup. now rewrite decide_False.
Qed.

Lemma execBinary_env_precedence_witness :
  let host := Demo.host Demo.hit Demo.metadata1 Demo.sandbox_ok in
  exists env : gmap string string,
    eo_env (Local.wrapped_execOptions Demo.exec_options Demo.exec_params)
    = Some env
    /\ (forall (executable : string) (h : Demo.State),
          Local.find_heaptrack Demo.exec_params = None ->
          Local.execBinary host executable Demo.exec_params "/home"
                           (h, Demo.downloaded_executor)
          = run_async
              (execResult ← on_fst (exec_sandbox host executable
                                      (eep_args Demo.exec_params)
                                      (Local.wrapped_execOptions
                                         Demo.exec_options Demo.exec_params));
               on_fst (Local.processUserExecutableExecutionResult
                         host execResult []))
              (h, Demo.downloaded_executor))
    /\ env !! "ASAN_OPTIONS"
       = match caller_env_entry Demo.exec_params "ASAN_OPTIONS" with
         | Some v => Some v
         | None => Local.sanitizer_hints !! "ASAN_OPTIONS"
         end
    /\ (caller_env_entry Demo.exec_params "ASAN_OPTIONS" = None
        <-> Local.spread_of (eep_env Demo.exec_params) !! "ASAN_OPTIONS"
            = None
            /\ Forall (fun o => opt_name o <> "ASAN_OPTIONS")
                      (runtime_env_options Demo.exec_params))
    /\ ("ASAN_OPTIONS"
          ∈ ["ASAN_OPTIONS"; "UBSAN_OPTIONS"; "MSAN_OPTIONS"; "LSAN_OPTIONS"]
        <-> Local.sanitizer_hints !! "ASAN_OPTIONS" = Some "color=always")
    /\ ("ASAN_OPTIONS"
          ∉ ["ASAN_OPTIONS"; "UBSAN_OPTIONS"; "MSAN_OPTIONS"; "LSAN_OPTIONS"]
        -> Local.sanitizer_hints !! "ASAN_OPTIONS" = None).
Proof.
  apply (execBinary_env_precedence
           (Demo.host Demo.hit Demo.metadata1 Demo.sandbox_ok)
           Demo.downloaded_executor Demo.exec_params
           "/home" Demo.exec_options "ASAN_OPTIONS");
    vm_compute; reflexivity.
Defined.

(** The final environment of the demo: the caller's two entries, and the
    baseline hint at the two keys the caller left alone. *)
Example execBinary_env_demo :
  eo_env (Local.wrapped_execOptions Demo.exec_options Demo.exec_params)
  = Some (<["ASAN_OPTIONS" := "detect_leaks=0"]>
            (<["UBSAN_OPTIONS" := "print_stacktrace=1"]>
               (<["MSAN_OPTIONS" := "color=always"]>
                  (<["LSAN_OPTIONS" := "color=always"]> ∅))))
  /\ caller_env_entry Demo.exec_params "ASAN_OPTIONS" = Some "detect_leaks=0"
  /\ caller_env_entry Demo.exec_params "UBSAN_OPTIONS"
     = Some "print_stacktrace=1"
  /\ caller_env_entry Demo.exec_params "MSAN_OPTIONS" = None.
Proof.
  repeat split; vm_compute; reflexivity.
Qed.

(* ===================================================================== *)
(** * More on the queue *)
(* ===================================================================== *)

(** Case analysis on the outcome of the host call in the goal. *)
Ltac destruct_delete s1 s2 Ed :=
  match goal with
  | |- context [sqs_deleteMessage ?host ?req s1] =>
      destruct (sqs_deleteMessage host req s1) as [[[]|?] s2] eqn:Ed
  end.

(** X1.  A message that [pop] returns has been deleted from the queue first:
    [pop] returns a message only if the broker handed out exactly one
    message, its body is non-empty and parses to the message returned,
    and, when it carries a receipt handle, the delete request for that
    handle has succeeded.  A message whose delete fails is never
    returned. *)
Theorem pop_message_was_acknowledged {H} (host : Host H)
        (self : Sqs.SqsWorkerMode) (s s' : H)
        (msg : RemoteExecutionMessage) :
  let url := Sqs.getSqsQueueUrl host (Sqs.base self) (Sqs.triple self) in
  Sqs.pop host self s = (Normal (Some msg), s') ->
  exists (m : SqsMessage) (json : string) (s1 : H),
    sqs_receiveMessage host
      {| recv_QueueUrl := url; recv_MaxNumberOfMessages := 1 |} s
    = (Normal {| Messages := Some [m] |}, s1)
    /\ truthy_string (Body m) = Some json
    /\ JSON_parse_message host json = Some msg
    /\ match truthy_string (ReceiptHandle m) with
       | Some handle =>
           sqs_deleteMessage host
             {| del_QueueUrl := url; del_ReceiptHandle := handle |} s1
           = (Normal tt, s')
       | None => s' = s1
       end.
Proof.
  intros url. unfold Sqs.pop, mbind, eff_bind. fold url.
  destruct (sqs_receiveMessage host _ s) as [[[msgs]|e] s1] eqn:Er;
    [|discriminate].
  destruct msgs as [[|m [|m2 l]]|]; simpl; try discriminate.
  unfold eff_try_finally, Sqs.pop_try, Sqs.pop_finally, throw.
  destruct (truthy_string (Body m)) as [json|] eqn:Eb;
    [destruct (JSON_parse_message host json) as [parsed|] eqn:Ep|];
    (destruct (truthy_string (ReceiptHandle m)) as [handle|] eqn:Eh;
     [simpl; destruct_delete s1 s2 Ed|]); simpl; try discriminate;
    intros E; injection E as <- <-; exists m, json, s1; rewrite Eh; auto.
Qed.

Lemma pop_message_was_acknowledged_witness :
  let host := Demo.host Demo.hit Demo.metadata1 Demo.sandbox_ok in
  let url := Sqs.getSqsQueueUrl host (Sqs.base Demo.worker)
                                (Sqs.triple Demo.worker) in
  exists (m : SqsMessage) (json : string) (s1 : Demo.State),
    sqs_receiveMessage host
      {| recv_QueueUrl := url; recv_MaxNumberOfMessages := 1 |}
      (Demo.state0 [mkSqsMessage (Some Demo.body1) (Some "rh-1")])
    = (Normal {| Messages := Some [m] |}, s1)
    /\ truthy_string (Body m) = Some json
    /\ JSON_parse_message host json = Some Demo.message1
    /\ match truthy_string (ReceiptHandle m) with
       | Some handle =>
           sqs_deleteMessage host
             {| del_QueueUrl := url; del_ReceiptHandle := handle |} s1
           = (Normal tt, Demo.mkState [] ["rh-1"] [] [] 0)
       | None => Demo.mkState [] ["rh-1"] [] [] 0 = s1
       end.
Proof.
  apply (pop_message_was_acknowledged
           (Demo.host Demo.hit Demo.metadata1 Demo.sandbox_ok) Demo.worker
           (Demo.state0 [mkSqsMessage (Some Demo.body1) (Some "rh-1")])
           (Demo.mkState [] ["rh-1"] [] [] 0) Demo.message1).
  reflexivity.
Defined.

(** X2.  When [pop] reports "no message", either the broker handed out no
    message or more than one, and then nothing is deleted, or it handed
    out one message without a body, and that message has been deleted
    when it carries a receipt handle. *)
Theorem pop_no_message {H} (host : Host H) (self : Sqs.SqsWorkerMode)
        (s s' : H) :
  let url := Sqs.getSqsQueueUrl host (Sqs.base self) (Sqs.triple self) in
  Sqs.pop host self s = (Normal None, s') ->
  exists (msgs : option (list SqsMessage)) (s1 : H),
    sqs_receiveMessage host
      {| recv_QueueUrl := url; recv_MaxNumberOfMessages := 1 |} s
    = (Normal {| Messages := msgs |}, s1)
    /\ match msgs with
       | Some [m] =>
           truthy_string (Body m) = None
           /\ match truthy_string (ReceiptHandle m) with
              | Some handle =>
                  sqs_deleteMessage host
                    {| del_QueueUrl := url; del_ReceiptHandle := handle |}
                    s1
                  = (Normal tt, s')
              | None => s' = s1
              end
       | _ => s' = s1
       end.
Proof.
  intros url. unfold Sqs.pop, mbind, eff_bind. fold url.
  destruct (sqs_receiveMessage host _ s) as [[[msgs]|e] s1] eqn:Er;
    [|discriminate].
  destruct msgs as [[|m [|m2 l]]|]; simpl;
    try (intros E; injection E as <-; eexists _, s1; split;
         [reflexivity|reflexivity]).
  unfold eff_try_finally, Sqs.pop_try, Sqs.pop_finally, throw.
  destruct (truthy_string (Body m)) as [json|] eqn:Eb;
    [destruct (JSON_parse_message host json) as [parsed|] eqn:Ep|];
    (destruct (truthy_string (ReceiptHandle m)) as [handle|] eqn:Eh;
     [simpl; destruct_delete s1 s2 Ed|]); simpl; try discriminate;
    intros E; injection E as <-; exists (Some [m]), s1;
    (split; [reflexivity|]); (split; [exact Eb|]); now rewrite Eh.
Qed.

Lemma pop_no_message_witness :
  let host := Demo.host Demo.hit Demo.metadata1 Demo.sandbox_ok in
  let url := Sqs.getSqsQueueUrl host (Sqs.base Demo.worker)
                                (Sqs.triple Demo.worker) in
  let s := Demo.state0 [mkSqsMessage None (Some "rh-1")] in
  exists (msgs : option (list SqsMessage)) (s1 : Demo.State),
    sqs_receiveMessage host
      {| recv_QueueUrl := url; recv_MaxNumberOfMessages := 1 |} s
    = (Normal {| Messages := msgs |}, s1)
    /\ match msgs with
       | Some [m] =>
           truthy_string (Body m) = None
           /\ match truthy_string (ReceiptHandle m) with
              | Some handle =>
                  sqs_deleteMessage host
                    {| del_QueueUrl := url; del_ReceiptHandle := handle |}
                    s1
                  = (Normal tt, Demo.mkState [] ["rh-1"] [] [] 0)
              | None => Demo.mkState [] ["rh-1"] [] [] 0 = s1
              end
       | _ => Demo.mkState [] ["rh-1"] [] [] 0 = s1
       end.
Proof.
  apply (pop_no_message
           (Demo.host Demo.hit Demo.metadata1 Demo.sandbox_ok) Demo.worker
           (Demo.state0 [mkSqsMessage None (Some "rh-1")])
           (Demo.mkState [] ["rh-1"] [] [] 0)).
  reflexivity.
Defined.

(* ===================================================================== *)
(** * More on the worker loop *)
(* ===================================================================== *)

(** A call of [doExecutionWork] that finds no message resolves and arms
    the next poll; the host is touched by the receive request only. *)
Lemma doExecutionWork_idle {H} (host : Host H) (queue : Sqs.SqsWorkerMode)
      (cenv : CompilationEnvironment) (h h' : H) (ts : list Z) :
  sqs_receiveMessage host
    {| recv_QueueUrl :=
         Sqs.getSqsQueueUrl host (Sqs.base queue) (Sqs.triple queue);
       recv_MaxNumberOfMessages := 1 |} h
  = (Normal {| Messages := None |}, h') ->
  Worker.doExecutionWork host queue cenv (Worker.mkWorld h ts)
  = (Resolved tt, Worker.mkWorld h' (ts ++ [500])).
Proof.
  intros E.
  unfold Worker.doExecutionWork, run_async, Worker.doExecutionWork_body,
    mbind, eff_bind, Worker.on_host, Sqs.pop, mbind, eff_bind.
  simpl. now rewrite E.
Qed.

(** X3.  An idle worker polls forever.  On a host whose queue stays empty (the
    receive request yields no message in every state of a set closed
    under it), the event loop started with one timer runs as many calls of
    [doExecutionWork] as it is given fuel for, every call resolves, and
    exactly one timer, of 500 ms, is pending afterwards. *)
Theorem idle_worker_polls_forever {H} (host : Host H)
        (queue : Sqs.SqsWorkerMode) (cenv : CompilationEnvironment)
        (idle : H -> Prop) :
  (forall h : H,
      idle h ->
      exists h' : H,
        sqs_receiveMessage host
          {| recv_QueueUrl :=
               Sqs.getSqsQueueUrl host (Sqs.base queue) (Sqs.triple queue);
             recv_MaxNumberOfMessages := 1 |} h
        = (Normal {| Messages := None |}, h')
        /\ idle h') ->
  forall (n : nat) (h : H) (delay : Z),
    idle h ->
    let run := Worker.event_loop host (S n) queue cenv
                                 (Worker.mkWorld h [delay]) in
    run.1 = repeat (Resolved tt) (S n)
    /\ Worker.timers run.2 = [500]
    /\ idle (Worker.host_state run.2).
Proof.
  intros Hidle n. induction n as [|n IH]; intros h delay Hh.
  - destruct (Hidle h Hh) as (h' & E & Hh').
    simpl. rewrite (doExecutionWork_idle host queue cenv h h' [] E).
    simpl. auto.
  - destruct (Hidle h Hh) as (h' & E & Hh').
    specialize (IH h' 500 Hh').
    cbn zeta in IH.
    change (Worker.event_loop host (S (S n)) queue cenv
                              (Worker.mkWorld h [delay]))
      with (let '(p, w1) :=
              Worker.doExecutionWork host queue cenv (Worker.mkWorld h []) in
            let '(ps, w2) := Worker.event_loop host (S n) queue cenv w1 in
            (p :: ps, w2)).
    rewrite (doExecutionWork_idle host queue cenv h h' [] E).
    change ([] ++ [500]) with [500].
    destruct (Worker.event_loop host (S n) queue cenv
                                (Worker.mkWorld h' [500])) as [ps w2].
    simpl in *. destruct IH as (-> & IH2 & IH3). auto.
Qed.

Lemma idle_worker_polls_forever_witness :
  let host := Demo.host Demo.hit Demo.metadata1 Demo.sandbox_ok in
  let run := Worker.event_loop host 4 Demo.worker Demo.compilationEnvironment
                               (Worker.mkWorld (Demo.state0 []) [1500]) in
  run.1 = repeat (Resolved tt) 4
  /\ Worker.timers run.2 = [500]
  /\ Demo.queue (Worker.host_state run.2) = [].
Proof.
  apply (idle_worker_polls_forever
           (Demo.host Demo.hit Demo.metadata1 Demo.sandbox_ok) Demo.worker
           Demo.compilationEnvironment (fun h => Demo.queue h = [])).
  - intros h Hq. exists h. split; [|exact Hq].
    simpl. unfold Demo.receive. now rewrite Hq.
  - reflexivity.
Defined.

(** X4.  A missing queue URL is refused at start-up, before any timer is armed;
    with a queue URL the worker is bound to that URL and to the default
    triple, and the first poll is armed after 1500 ms. *)
Theorem startExecutionWorkerThread_configuration {H}
        (default_triple : ExecutionTriple) (ceProps awsProps : PropertyGetter)
        (cenv : CompilationEnvironment) (w : Worker.World H) :
  let url := prop_string ceProps "execqueue.queue_url" EmptyString in
  (url = EmptyString ->
   Worker.startExecutionWorkerThread default_triple ceProps awsProps cenv w
   = (Throw (new_Error "execqueue.queue_url property required"), w))
  /\ (url <> EmptyString ->
      Worker.startExecutionWorkerThread default_triple ceProps awsProps
                                        cenv w
      = (Normal (Sqs.mkWorkerMode (Sqs.mkQueueBase url) default_triple),
         Worker.mkWorld (Worker.host_state w) (Worker.timers w ++ [1500]))).
Proof.
  intros url.
  unfold Worker.startExecutionWorkerThread, Sqs.SqsWorkerMode_new,
    Sqs.SqsExecuteQueueBase_new, mbind, completion_bind, Js.bind.
  fold url. split; intros E.
  - now rewrite E.
  - apply String.eqb_neq in E. now rewrite E.
Qed.

Lemma startExecutionWorkerThread_configuration_witness :
  (prop_string Demo.props "execqueue.queue_url" EmptyString = EmptyString ->
   Worker.startExecutionWorkerThread Demo.triple1 Demo.props Demo.props
     Demo.compilationEnvironment (Worker.mkWorld (Demo.state0 []) [])
   = (Throw (new_Error "execqueue.queue_url property required"),
      Worker.mkWorld (Demo.state0 []) []))
  /\ (prop_string Demo.props "execqueue.queue_url" EmptyString
      <> EmptyString ->
      Worker.startExecutionWorkerThread Demo.triple1 Demo.props Demo.props
        Demo.compilationEnvironment (Worker.mkWorld (Demo.state0 []) [])
      = (Normal Demo.worker, Worker.mkWorld (Demo.state0 []) [1500])).
Proof.
  exact (startExecutionWorkerThread_configuration
           Demo.triple1 Demo.props Demo.props Demo.compilationEnvironment
           (Worker.mkWorld (Demo.state0 []) [])).
Defined.

(* ===================================================================== *)
(** * More on loading the package *)
(* ===================================================================== *)

Lemma eff_bind_Normal {S A B} (m : Eff S A) (k : A -> Eff S B) (s s' : S)
      (b : B) :
  (m ≫= k) s = (Normal b, s') ->
  exists (a : A) (s1 : S), m s = (Normal a, s1) /\ k a s1 = (Normal b, s').
Proof.
  unfold mbind, eff_bind. destruct (m s) as [[a|e] s1]; [|discriminate].
  intros E. now exists a, s1.
Qed.

(** What a successful run of the [try] block went through. *)
Lemma loadPackage_try_Normal {H} (host : Host H) (hash dir : string)
      (h h' : H) (b : BuildResult) :
  Local.loadPackage_try host hash dir h = (Normal b, h') ->
  exists (startTime endTime : Z) (outputFilename buildResultsBuf : string)
         (h1 h2 h3 h4 h5 : H),
    hrtime_bigint host h = (Normal startTime, h1)
    /\ Local.executableGet host hash dir h1
       = (Normal (Some outputFilename), h2)
    /\ outputFilename <> EmptyString
    /\ packager_unpack host outputFilename dir h2 = (Normal tt, h3)
    /\ fs_readFile host (path_join host dir "compilation-result.json") h3
       = (Normal buildResultsBuf, h4)
    /\ JSON_parse_buildResults host buildResultsBuf = Some (br_parsed b)
    /\ hrtime_bigint host h4 = (Normal endTime, h')
    /\ b = {| br_parsed := br_parsed b;
              br_code := 0;
              br_inputFilename :=
                match truthy_string (json_inputFilename (br_parsed b)) with
                | Some f => path_join host dir (path_basename host f)
                | None => EmptyString
                end;
              br_dirPath := dir;
              br_executableFilename :=
                match truthy_string (json_executableFilename (br_parsed b))
                with
                | Some f => path_join host dir (utils_maskRootdir host f)
                | None => EmptyString
                end;
              br_packageDownloadAndUnzipTime :=
                pretty (Z.quot (endTime - startTime) 1000000) |}.
Proof.
  unfold Local.loadPackage_try. intros E.
  apply eff_bind_Normal in E as (startTime & h1 & E1 & E).
  apply eff_bind_Normal in E as (out & h2 & E2 & E).
  destruct out as [out|]; [|discriminate].
  unfold truthy_string in E.
  destruct (String.eqb_spec out EmptyString) as [Hout|Hout];
    [discriminate|].
  apply eff_bind_Normal in E as ([] & h3 & E3 & E).
  apply eff_bind_Normal in E as (buf & h4 & E4 & E).
  destruct (JSON_parse_buildResults host buf) as [parsed|] eqn:Ep;
    [|discriminate].
  apply eff_bind_Normal in E as (endTime & h5 & E5 & E).
  injection E as <- <-.
  exists startTime, endTime, out, buf, h1, h2, h3, h4, h5. simpl.
  repeat split; assumption.
Qed.



(** X6.  On a cache miss [loadPackageWithExecutable] raises its wrapped error
    right after the lookup: the host is left as the lookup left it, so
    nothing has been written, unpacked or read. *)
Theorem loadPackageWithExecutable_miss {H} (host : Host H)
        (hash dir : string) (h h1 h2 : H) (t : Z) (r : CacheGetResult) :
  hrtime_bigint host h = (Normal t, h1) ->
  executableCache_get host hash h1 = (Normal r, h2) ->
  cache_hit r = false ->
  Local.loadPackageWithExecutable host hash dir h
  = (Throw (new_Error
              "Tried to get executable from cache, but got an error: {}"),
     h2).
Proof.
  intros Et Ec Eh.
  apply loadPackage_wraps_plain_error
    with (e := new_Error
                 "Tried to get executable from cache, but got a cache miss");
    [|reflexivity].
  unfold Local.loadPackage_try, Local.executableGet, mbind, eff_bind.
  rewrite Et, Ec, Eh. reflexivity.
Qed.

Lemma loadPackageWithExecutable_miss_witness :
  Local.loadPackageWithExecutable
    (Demo.host Demo.miss Demo.metadata1 Demo.sandbox_ok)
    "abc123" "/tmp/ce-1" (Demo.state0 [])
  = (Throw (new_Error
              "Tried to get executable from cache, but got an error: {}"),
     Demo.mkState [] [] [] [] 3000000).
Proof.
  apply (loadPackageWithExecutable_miss
           (Demo.host Demo.miss Demo.metadata1 Demo.sandbox_ok)
           "abc123" "/tmp/ce-1" (Demo.state0 [])
           (Demo.mkState [] [] [] [] 3000000)
           (Demo.mkState [] [] [] [] 3000000) 0 (Demo.miss "abc123"));
    reflexivity.
Defined.

(* ===================================================================== *)
(** * More on downloadExecutablePackage *)
(* ===================================================================== *)

(** X7.  After a completed download the object holds a bundle unpacked in the
    object's own working directory, with code 0; the configuration of the
    object (limits, sandbox type, hints, environment) is as before. *)
Theorem downloadExecutablePackage_invariant {H} (host : Host H)
        (hash : string) (h h' : H)
        (this this' : Local.LocalExecutionEnvironment) :
  Local.downloadExecutablePackage host hash (h, this)
  = (Normal tt, (h', this')) ->
  (exists b : BuildResult,
      Local.buildResult this' = Some b
      /\ br_dirPath b = Local.dirPath this'
      /\ br_code b = 0)
  /\ Local.timeoutMs this' = Local.timeoutMs this
  /\ Local.maxExecOutputSize this' = Local.maxExecOutputSize this
  /\ Local.sandboxType this' = Local.sandboxType this
  /\ Local.useSanitizerEnvHints this' = Local.useSanitizerEnvHints this
  /\ Local.environment this' = Local.environment this.
Proof.
  unfold Local.downloadExecutablePackage, mbind, eff_bind, on_fst, get_snd,
    put_snd. simpl.
  destruct (temp_mkdir host h) as [[d|e] h1]; simpl; [|discriminate].
  destruct (Local.loadPackageWithExecutable host hash d h1)
    as [[b|e] h2] eqn:El; simpl; [|discriminate].
  intros E. injection E as <- <-.
  unfold Local.loadPackageWithExecutable, eff_try_catch, throw in El.
  destruct (Local.loadPackage_try host hash d h1) as [[b0|e] h0] eqn:Et;
    [|discriminate].
  injection El as -> ->.
  apply loadPackage_try_Normal in Et
    as (t0 & t1 & out & buf & k1 & k2 & k3 & k4 & k5
        & _ & _ & _ & _ & _ & _ & _ & Eb).
  simpl. repeat split. exists b. rewrite Eb. auto.
Qed.

Lemma downloadExecutablePackage_invariant_witness :
  (exists b : BuildResult,
      Local.buildResult Demo.downloaded_executor = Some b
      /\ br_dirPath b = Local.dirPath Demo.downloaded_executor
      /\ br_code b = 0)
  /\ Local.timeoutMs Demo.downloaded_executor
     = Local.timeoutMs Demo.fresh_executor
  /\ Local.maxExecOutputSize Demo.downloaded_executor
     = Local.maxExecOutputSize Demo.fresh_executor
  /\ Local.sandboxType Demo.downloaded_executor
     = Local.sandboxType Demo.fresh_executor
  /\ Local.useSanitizerEnvHints Demo.downloaded_executor
     = Local.useSanitizerEnvHints Demo.fresh_executor
  /\ Local.environment Demo.downloaded_executor
     = Local.environment Demo.fresh_executor.
Proof.
  apply (downloadExecutablePackage_invariant
           (Demo.host Demo.hit Demo.metadata1 Demo.sandbox_ok) "abc123"
           (Demo.state0 [])
           (Demo.mkState [] [] ["/tmp/ce-1/abc123"] [] 6000000)
           Demo.fresh_executor Demo.downloaded_executor).
  vm_compute. reflexivity.
Defined.



(* ===================================================================== *)
(** * More on the runtime tools *)
(* ===================================================================== *)

Lemma set_env_set_env (o : ExecutionOptions) (e e' : gmap string string) :
  Local.set_env (Local.set_env o e) e' = Local.set_env o e'.
Proof. reflexivity. Qed.

(** Writing a non-empty list of options replaces the environment and
    nothing else. *)
Lemma foldl_set_env_option_shape (opts : list RuntimeToolOption)
      (o : ExecutionOptions) :
  exists env : gmap string string,
    foldl Local.set_env_option o opts
    = match opts with
      | [] => o
      | _ :: _ => Local.set_env o env
      end
    /\ forall k : string,
        env !! k = last_option k (default ∅ (eo_env o) !! k) opts.
Proof.
  revert o. induction opts as [|opt rest IH]; intros o.
  - exists (default ∅ (eo_env o)). now split.
  - destruct (IH (Local.set_env_option o opt)) as (env' & E & L).
    change (foldl Local.set_env_option o (opt :: rest))
      with (foldl Local.set_env_option (Local.set_env_option o opt) rest).
    rewrite E.
    exists (match rest with
            | [] => <[opt_name opt := opt_value opt]> (default ∅ (eo_env o))
            | _ :: _ => env'
            end).
    split.
    + now destruct rest.
    + intros k. rewrite last_option_cons.
      assert (<[opt_name opt := opt_value opt]> (default ∅ (eo_env o)) !! k
              = if String.eqb (opt_name opt) k
                then Some (opt_value opt)
                else default ∅ (eo_env o) !! k) as Hk.
      { rewrite lookup_insert.
        destruct (String.eqb_spec (opt_name opt) k) as [->|Hne];
          [now rewrite decide_True | now rewrite decide_False]. }
      destruct rest as [|o2 rest].
      * exact Hk.
      * rewrite L. simpl. now rewrite Hk.
Qed.

Lemma setEnvironmentVariablesFromRuntime_shape
      (tools : list ConfiguredRuntimeTool) (o : ExecutionOptions) :
  exists env : gmap string string,
    Local.setEnvironmentVariablesFromRuntime tools o
    = match flat_map (fun t =>
                        if RuntimeToolType_eqb (tool_name t)
                                               RuntimeToolType_env
                        then tool_options t else [])
                     tools with
      | [] => o
      | _ :: _ => Local.set_env o env
      end
    /\ forall k : string,
        env !! k
        = last_option k (default ∅ (eo_env o) !! k)
            (flat_map (fun t =>
                         if RuntimeToolType_eqb (tool_name t)
                                                RuntimeToolType_env
                         then tool_options t else [])
                      tools).
Proof.
  unfold Local.setEnvironmentVariablesFromRuntime.
  revert o. induction tools as [|t rest IH]; intros o.
  - exists (default ∅ (eo_env o)). now split.
  - simpl. destruct (RuntimeToolType_eqb (tool_name t) RuntimeToolType_env).
    + destruct (foldl_set_env_option_shape (tool_options t) o)
        as (env1 & E1 & L1).
      rewrite E1. destruct (tool_options t) as [|o1 opts1] eqn:Eopts.
      * simpl. apply IH.
      * destruct (IH (Local.set_env o env1)) as (env2 & E2 & L2).
        rewrite E2.
        set (restopts := flat_map _ rest) in *.
        exists (match restopts with [] => env1 | _ :: _ => env2 end).
        split.
        -- simpl. now destruct restopts.
        -- intros k. rewrite last_option_app, <- L1.
           destruct restopts; [reflexivity|]. apply L2.
    + apply IH.
Qed.

(** X9.  [setEnvironmentVariablesFromRuntime] changes the environment of the
    options and nothing else.  Without an option in an [env] tool the
    options are returned as they are (an absent environment stays
    absent); otherwise the environment holds, at every key, the value of
    the last [env] tool option of that name, else the value it had. *)
Theorem setEnvironmentVariablesFromRuntime_entries
        (tools : list ConfiguredRuntimeTool) (o : ExecutionOptions) :
  let opts :=
    flat_map (fun t =>
                if RuntimeToolType_eqb (tool_name t) RuntimeToolType_env
                then tool_options t else [])
             tools in
  let o' := Local.setEnvironmentVariablesFromRuntime tools o in
  (opts = [] -> o' = o)
  /\ (opts <> [] ->
      exists env : gmap string string,
        eo_env o' = Some env
        /\ forall k : string,
            env !! k = last_option k (default ∅ (eo_env o) !! k) opts)
  /\ eo_timeoutMs o' = eo_timeoutMs o
  /\ eo_maxOutput o' = eo_maxOutput o
  /\ eo_ldPath o' = eo_ldPath o
  /\ eo_input o' = eo_input o
  /\ eo_customCwd o' = eo_customCwd o
  /\ eo_appHome o' = eo_appHome o.
Proof.
  intros opts o'. subst o'.
  destruct (setEnvironmentVariablesFromRuntime_shape tools o)
    as (env & E & L).
  fold opts in E, L. rewrite E.
  destruct opts as [|o1 rest].
  - repeat split. intros F. contradiction.
  - repeat split; try discriminate. intros _. now exists env.
Qed.

(** Tools other than [env] tools do not matter to the environment. *)
Lemma setEnvironmentVariablesFromRuntime_filter
      (keep : ConfiguredRuntimeTool -> bool)
      (tools : list ConfiguredRuntimeTool) (o : ExecutionOptions) :
  (forall t,
      RuntimeToolType_eqb (tool_name t) RuntimeToolType_env = true ->
      keep t = true) ->
  Local.setEnvironmentVariablesFromRuntime
    (filter (fun t => keep t = true) tools) o
  = Local.setEnvironmentVariablesFromRuntime tools o.
Proof.
  intros Hkeep. unfold Local.setEnvironmentVariablesFromRuntime.
  revert o. induction tools as [|t rest IH]; intros o; [reflexivity|].
  rewrite filter_cons. simpl.
  destruct (RuntimeToolType_eqb (tool_name t) RuntimeToolType_env) eqn:Et.
  - rewrite decide_True by now apply Hkeep. simpl. rewrite Et. apply IH.
  - destruct (decide (keep t = true)); simpl; [rewrite Et|]; apply IH.
Qed.

(** The fold that looks for the [heaptrack] tool keeps the last one. *)
Lemma find_heaptrack_fold (tools : list ConfiguredRuntimeTool)
      (acc : option ConfiguredRuntimeTool) :
  foldl (fun found runtime =>
           if RuntimeToolType_eqb (tool_name runtime)
                                  RuntimeToolType_heaptrack
           then Some runtime else found)
        acc tools
  = match foldl (fun found runtime =>
                   if RuntimeToolType_eqb (tool_name runtime)
                                          RuntimeToolType_heaptrack
                   then Some runtime else found)
                None tools with
    | Some t => Some t
    | None => acc
    end.
Proof.
  revert acc. induction tools as [|t rest IH]; intros acc; [reflexivity|].
  simpl.
  destruct (RuntimeToolType_eqb (tool_name t) RuntimeToolType_heaptrack).
  - rewrite (IH (Some t)). now destruct (foldl _ None rest).
  - apply IH.
Qed.

(** X10.  [execBinaryMaybeWrapped] picks the last [heaptrack] tool of the list,
    and none exactly when the list has no [heaptrack] tool. *)
Theorem find_heaptrack_last (ep : ExecutableExecutionOptions) :
  let tools := default [] (eep_runtimeTools ep) in
  match Local.find_heaptrack ep with
  | Some t =>
      exists before after : list ConfiguredRuntimeTool,
        tools = before ++ t :: after
        /\ tool_name t = RuntimeToolType_heaptrack
        /\ Forall (fun u => tool_name u <> RuntimeToolType_heaptrack) after
  | None =>
      Forall (fun u => tool_name u <> RuntimeToolType_heaptrack) tools
  end.
Proof.
  unfold Local.find_heaptrack.
  destruct (eep_runtimeTools ep) as [tools|]; simpl; [|constructor].
  assert (forall a b, RuntimeToolType_eqb a b = true <-> a = b) as Heqb.
  { intros [| |s] [| |s']; simpl; split; try easy.
    - intros E. apply String.eqb_eq in E. now subst.
    - intros E. injection E as ->. apply String.eqb_refl. }
  induction tools as [|t rest IH]; simpl; [constructor|].
  rewrite find_heaptrack_fold.
  destruct (foldl _ None rest) as [t'|].
  - destruct IH as (before & after & -> & Hn & Hafter).
    exists (t :: before), after. auto.
  - destruct (RuntimeToolType_eqb (tool_name t) RuntimeToolType_heaptrack)
      eqn:Et.
    + exists [], rest. apply Heqb in Et. auto.
    + constructor; [|exact IH].
      intros E. apply Heqb in E. congruence.
Qed.

Lemma setEnvironmentVariablesFromRuntime_entries_witness :
  let tools := default [] (eep_runtimeTools Demo.exec_params) in
  let opts :=
    flat_map (fun t =>
                if RuntimeToolType_eqb (tool_name t) RuntimeToolType_env
                then tool_options t else [])
             tools in
  let o' := Local.setEnvironmentVariablesFromRuntime tools
                                                     Demo.exec_options in
  (opts = [] -> o' = Demo.exec_options)
  /\ (opts <> [] ->
      exists env : gmap string string,
        eo_env o' = Some env
        /\ forall k : string,
            env !! k
            = last_option k (default ∅ (eo_env Demo.exec_options) !! k) opts)
  /\ eo_timeoutMs o' = eo_timeoutMs Demo.exec_options
  /\ eo_maxOutput o' = eo_maxOutput Demo.exec_options
  /\ eo_ldPath o' = eo_ldPath Demo.exec_options
  /\ eo_input o' = eo_input Demo.exec_options
  /\ eo_customCwd o' = eo_customCwd Demo.exec_options
  /\ eo_appHome o' = eo_appHome Demo.exec_options.
Proof.
  exact (setEnvironmentVariablesFromRuntime_entries
           (default [] (eep_runtimeTools Demo.exec_params))
           Demo.exec_options).
Defined.

(* ===================================================================== *)
(** * More on execBinary *)
(* ===================================================================== *)




(** X12.  A request for [heaptrack] on a host that does not support it is run
    like the same request without the [heaptrack] tools: the plain
    sandbox, the same options, no line parsing option. *)
Theorem heaptrack_unsupported_degrades {H} (host : Host H)
        (executable : string) (args : list string)
        (opts : ExecutionOptions) (ep : ExecutableExecutionOptions)
        (homeDir : string) (h : H)
        (this : Local.LocalExecutionEnvironment) :
  HeaptrackWrapper_isSupported host (Local.environment this) = false ->
  let plain :=
    mkExecutableExecutionOptions
      (eep_args ep) (eep_stdin ep) (eep_ldPath ep) (eep_env ep)
      (filter (fun t => negb (RuntimeToolType_eqb (tool_name t)
                                RuntimeToolType_heaptrack) = true)
         <$> eep_runtimeTools ep) in
  Local.find_heaptrack plain = None
  /\ Local.execBinaryMaybeWrapped host executable args opts ep homeDir
                                  (h, this)
     = Local.execBinaryMaybeWrapped host executable args opts plain homeDir
                                    (h, this)
  /\ Local.execBinaryMaybeWrapped host executable args opts ep homeDir
                                  (h, this)
     = (execResult ← on_fst (exec_sandbox host executable args
                               (Local.wrapped_execOptions opts ep));
        on_fst (Local.processUserExecutableExecutionResult
                  host execResult []))
         (h, this).
Proof.
  intros Hsup plain.
  assert (Local.find_heaptrack plain = None) as Hnone.
  { unfold Local.find_heaptrack, plain. simpl.
    destruct (eep_runtimeTools ep) as [tools|]; simpl; [|reflexivity].
    induction tools as [|t rest IH]; [reflexivity|].
    rewrite filter_cons.
    destruct (RuntimeToolType_eqb (tool_name t) RuntimeToolType_heaptrack)
      eqn:Et; simpl; [exact IH|].
    now rewrite Et. }
  assert (Local.wrapped_execOptions opts plain
          = Local.wrapped_execOptions opts ep) as Hopts.
  { unfold Local.wrapped_execOptions, plain. simpl.
    destruct (eep_runtimeTools ep) as [tools|]; simpl; [|reflexivity].
    apply (setEnvironmentVariablesFromRuntime_filter
             (fun t => negb (RuntimeToolType_eqb (tool_name t)
                               RuntimeToolType_heaptrack))).
    intros t Et. destruct (tool_name t); simpl in *; congruence. }
  assert (Local.execBinaryMaybeWrapped host executable args opts ep homeDir
                                       (h, this)
          = (execResult ← on_fst (exec_sandbox host executable args
                                    (Local.wrapped_execOptions opts ep));
             on_fst (Local.processUserExecutableExecutionResult
                       host execResult []))
              (h, this)) as Hplain.
  { unfold Local.execBinaryMaybeWrapped, mbind at 1, eff_bind at 1, get_snd.
    cbn [fst snd]. rewrite Hsup.
    now destruct (Local.find_heaptrack ep). }
  split; [exact Hnone|]. split; [|exact Hplain].
  rewrite Hplain.
  rewrite (execBinaryMaybeWrapped_launch host executable args opts plain
             homeDir (h, this) Hnone).
  now rewrite Hopts.
Qed.

Lemma heaptrack_unsupported_degrades_witness :
  let host := Demo.host Demo.hit Demo.metadata1 Demo.sandbox_ok in
  let ep :=
    mkExecutableExecutionOptions
      ["--version"] EmptyString (Some []) None
      (Some [mkTool RuntimeToolType_heaptrack [mkOption "graph" "yes"];
             mkTool RuntimeToolType_env [mkOption "FOO" "bar"]]) in
  let plain :=
    mkExecutableExecutionOptions
      (eep_args ep) (eep_stdin ep) (eep_ldPath ep) (eep_env ep)
      (filter (fun t => negb (RuntimeToolType_eqb (tool_name t)
                                RuntimeToolType_heaptrack) = true)
         <$> eep_runtimeTools ep) in
  let st := (Demo.state0 [], Demo.downloaded_executor) in
  Local.find_heaptrack plain = None
  /\ Local.execBinaryMaybeWrapped host "a.out" ["--version"]
                                  Demo.exec_options ep "/home" st
     = Local.execBinaryMaybeWrapped host "a.out" ["--version"]
                                    Demo.exec_options plain "/home" st
  /\ Local.execBinaryMaybeWrapped host "a.out" ["--version"]
                                  Demo.exec_options ep "/home" st
     = (execResult ← on_fst (exec_sandbox host "a.out" ["--version"]
                               (Local.wrapped_execOptions
                                  Demo.exec_options ep));
        on_fst (Local.processUserExecutableExecutionResult
                  host execResult []))
         st.
Proof.
  apply (heaptrack_unsupported_degrades
           (Demo.host Demo.hit Demo.metadata1 Demo.sandbox_ok)
           "a.out" ["--version"] Demo.exec_options
           (mkExecutableExecutionOptions
              ["--version"] EmptyString (Some []) None
              (Some [mkTool RuntimeToolType_heaptrack
                            [mkOption "graph" "yes"];
                     mkTool RuntimeToolType_env [mkOption "FOO" "bar"]]))
           "/home" (Demo.state0 []) Demo.downloaded_executor).
  reflexivity.
Defined.

(** X13.  When the [ldPath] of the parameters cannot be spread, [execBinary]
    launches nothing: it leaves the host and the object untouched and
    resolves with the empty result of [utils], code -1 and no output. *)
Theorem execBinary_without_ldPath {H} (host : Host H) (executable : string)
        (ep : ExecutableExecutionOptions) (homeDir : string)
        (st : H * Local.LocalExecutionEnvironment) :
  eep_ldPath ep = None ->
  Local.execBinary host executable ep homeDir st
  = (Resolved
       {| ber_code := VNum (-1);
          ber_timedOut := ber_timedOut (utils_getEmptyExecutionResult host);
          ber_stdout := [];
          ber_stderr := [];
          ber_processExecutionResultTime :=
            ber_processExecutionResultTime
              (utils_getEmptyExecutionResult host) |},
     st).
Proof.
  intros E.
  unfold Local.execBinary, try_catch, mbind at 1, completion_bind, Js.bind,
    Local.execBinary_execOptions.
  now rewrite E.
Qed.

Lemma execBinary_without_ldPath_witness :
  let host := Demo.host Demo.hit Demo.metadata1 Demo.sandbox_ok in
  let st := (Demo.state0 [], Demo.downloaded_executor) in
  Local.execBinary host "a.out"
    (mkExecutableExecutionOptions ["--version"] EmptyString None None None)
    "/home" st
  = (Resolved
       {| ber_code := VNum (-1);
          ber_timedOut := ber_timedOut (utils_getEmptyExecutionResult host);
          ber_stdout := [];
          ber_stderr := [];
          ber_processExecutionResultTime :=
            ber_processExecutionResultTime
              (utils_getEmptyExecutionResult host) |},
     st).
Proof.
  apply (execBinary_without_ldPath
           (Demo.host Demo.hit Demo.metadata1 Demo.sandbox_ok) "a.out"
           (mkExecutableExecutionOptions ["--version"] EmptyString None
                                         None None)
           "/home" (Demo.state0 [], Demo.downloaded_executor)).
  reflexivity.
Defined.

(* ===================================================================== *)
(** * The matcher agrees with the texts a regular expression matches *)
(* ===================================================================== *)

Lemma append_empty_inv (a b : string) :
  a +:+ b = EmptyString -> a = EmptyString /\ b = EmptyString.
Proof. destruct a; simpl; [auto | discriminate]. Qed.

Lemma append_cons_inv (a b : string) (c : ascii) (t : string) :
  a +:+ b = String c t ->
  (a = EmptyString /\ b = String c t)
  \/ exists a', a = String c a' /\ t = a' +:+ b.
Proof.
  destruct a as [|x a]; simpl; intros E; [now left|].
  injection E as -> <-. right. now exists a.
Qed.

Lemma append_cons (x : ascii) (a b : string) :
  String x a +:+ b = String x (a +:+ b).
Proof. reflexivity. Qed.

Lemma append_nil (b : string) : EmptyString +:+ b = b.
Proof. reflexivity. Qed.

Lemma append_assoc (a b c : string) : (a +:+ b) +:+ c = a +:+ (b +:+ c).
Proof.
  induction a as [|x a IH]; [reflexivity|].
  now rewrite !append_cons, IH.
Qed.

Lemma append_empty_r (a : string) : a +:+ EmptyString = a.
Proof.
  induction a as [|x a IH]; [reflexivity|].
  now rewrite append_cons, IH.
Qed.

(** Bring nested appends into right-nested form. *)
Ltac string_normal :=
  repeat (progress (rewrite ?append_assoc, ?append_cons, ?append_nil,
                            ?append_empty_r)).

Lemma nullable_Matches (r : Regex.re) (rest : string) :
  Regex.nullable (Regex.is_empty rest) r = true
  <-> Regex.Matches r EmptyString rest.
Proof.
  split.
  - induction r; simpl; intros E; try discriminate.
    + constructor.
    + apply andb_true_iff in E as [E1 E2].
      apply (Regex.M_Cat r1 r2 EmptyString EmptyString rest); auto.
    + apply orb_true_iff in E as [E|E];
        [apply Regex.M_AltL | apply Regex.M_AltR]; auto.
    + constructor.
    + destruct rest; [constructor | discriminate].
  - intros M. remember EmptyString as t eqn:Et.
    induction M; simpl; try reflexivity; try discriminate.
    + apply append_empty_inv in Et as [-> ->].
      rewrite append_nil in IHM1. now rewrite IHM1, IHM2.
    + now rewrite IHM.
    + rewrite IHM by assumption. apply orb_true_r.
Qed.

Lemma Matches_deriv (c : ascii) (r : Regex.re) (t rest : string) :
  Regex.Matches r (String c t) rest -> Regex.Matches (Regex.deriv c r) t rest.
Proof.
  intros M. remember (String c t) as ct eqn:Ect. revert t Ect.
  induction M as [rest|negated chars c0 rest Hc
                  |a b t1 t2 rest M1 IH1 M2 IH2
                  |a b t0 rest M IH|a b t0 rest M IH
                  |a rest|a t1 t2 rest M1 IH1 M2 IH2|];
    intros u Ect; simpl; try discriminate.
  - injection Ect as -> <-. rewrite Hc. constructor.
  - apply append_cons_inv in Ect as [[-> ->]|(t1' & -> & ->)].
    + apply Regex.M_AltR.
      assert (Regex.nullable false a = true) as ->.
      { apply (nullable_Matches a (String c u +:+ rest)). exact M1. }
      now apply IH2.
    + apply Regex.M_AltL. constructor; [|exact M2]. now apply IH1.
  - apply Regex.M_AltL. now apply IH.
  - apply Regex.M_AltR. now apply IH.
  - apply append_cons_inv in Ect as [[-> ->]|(t1' & -> & ->)].
    + now apply IH2.
    + constructor; [|exact M2]. now apply IH1.
Qed.

Lemma deriv_Matches (c : ascii) (r : Regex.re) (t rest : string) :
  Regex.Matches (Regex.deriv c r) t rest -> Regex.Matches r (String c t) rest.
Proof.
  revert t rest. induction r; intros t rest M; simpl in M.
  - inversion M.
  - inversion M.
  - destruct (Regex.in_class negated chars c) eqn:Ec; inversion M; subst.
    now constructor.
  - inversion M as [| | | ? ? ? ? ML | ? ? ? ? MR | | |]; subst.
    + inversion ML as [| |? ? t1 t2 ? M1 M2| | | | |]; subst.
      apply (Regex.M_Cat r1 r2 (String c t1) t2 rest); auto.
    + destruct (Regex.nullable false r1) eqn:En; [|inversion MR].
      apply (Regex.M_Cat r1 r2 EmptyString (String c t) rest); auto.
      apply (nullable_Matches r1 (String c t +:+ rest)). exact En.
  - inversion M; subst;
      [apply Regex.M_AltL | apply Regex.M_AltR]; auto.
  - inversion M as [| |? ? t1 t2 ? M1 M2| | | | |]; subst.
    apply (Regex.M_StarS r (String c t1) t2 rest); auto.
  - inversion M.
Qed.

(** [test_anchored r s] holds exactly when [r] matches a prefix of [s]. *)
Lemma test_anchored_Matches (r : Regex.re) (s : string) :
  Regex.test_anchored r s = true
  <-> exists t rest : string, s = t +:+ rest /\ Regex.Matches r t rest.
Proof.
  revert r. induction s as [|c s IH]; intros r; simpl.
  - rewrite (nullable_Matches r EmptyString). split.
    + intros M. now exists EmptyString, EmptyString.
    + intros (t & rest & E & M). symmetry in E.
      apply append_empty_inv in E as [-> ->]. exact M.
  - rewrite orb_true_iff, IH. split.
    + intros [E|(t & rest & -> & M)].
      * exists EmptyString, (String c s). split; [reflexivity|].
        now apply (nullable_Matches r (String c s)).
      * exists (String c t), rest. split; [reflexivity|].
        now apply deriv_Matches.
    + intros (t & rest & E & M). symmetry in E.
      apply append_cons_inv in E as [[-> ->]|(t' & -> & ->)].
      * left. now apply (nullable_Matches r (String c s)).
      * right. exists t', rest. split; [reflexivity|].
        now apply Matches_deriv.
Qed.

Lemma in_class_listed (chars : list ascii) (c : ascii) :
  Regex.in_class false chars c = true <-> In c chars.
Proof.
  unfold Regex.in_class. rewrite xorb_false_l, existsb_exists. split.
  - intros (x & Hx & E). apply Ascii.eqb_eq in E. now subst.
  - intros Hc. exists c. split; [exact Hc | apply Ascii.eqb_refl].
Qed.

Lemma in_class_excluded (chars : list ascii) (c : ascii) :
  Regex.in_class true chars c = true <-> ~ In c chars.
Proof.
  unfold Regex.in_class. rewrite xorb_true_l, negb_true_iff.
  rewrite <- not_true_iff_false, existsb_exists. split.
  - intros Hn Hc. apply Hn. exists c. split; [exact Hc | apply Ascii.eqb_refl].
  - intros Hn (x & Hx & E). apply Ascii.eqb_eq in E. now subst.
Qed.

(** What a character class matches. *)
Lemma Matches_Class (negated : bool) (chars : list ascii) (t rest : string) :
  Regex.Matches (Regex.Class negated chars) t rest
  <-> exists c, t = String c EmptyString
                /\ Regex.in_class negated chars c = true.
Proof.
  split.
  - intros M. inversion M; subst. eauto.
  - intros (c & -> & Hc). now constructor.
Qed.

Lemma Matches_Cat (a b : Regex.re) (t rest : string) :
  Regex.Matches (Regex.Cat a b) t rest
  <-> exists t1 t2, t = t1 +:+ t2
                    /\ Regex.Matches a t1 (t2 +:+ rest)
                    /\ Regex.Matches b t2 rest.
Proof.
  split.
  - intros M. inversion M; subst. eauto.
  - intros (t1 & t2 & -> & M1 & M2). now constructor.
Qed.

Lemma Matches_Alt (a b : Regex.re) (t rest : string) :
  Regex.Matches (Regex.Alt a b) t rest
  <-> Regex.Matches a t rest \/ Regex.Matches b t rest.
Proof.
  split.
  - intros M. inversion M; subst; auto.
  - intros [M|M]; [now apply Regex.M_AltL | now apply Regex.M_AltR].
Qed.

Lemma Matches_Eos (t rest : string) :
  Regex.Matches Regex.Eos t rest <-> t = EmptyString /\ rest = EmptyString.
Proof.
  split.
  - intros M. inversion M; subst. auto.
  - intros [-> ->]. constructor.
Qed.

(* ===================================================================== *)
(** * filterCompilerOptions *)
(* ===================================================================== *)

Lemma capturableArg_spec (x : string) :
  Regex.test_anchored Stats.capturableArg x = true
  <-> exists c rest, x = String c rest /\ In c ["-"; "/"]%char.
Proof.
  rewrite test_anchored_Matches. unfold Stats.capturableArg. split.
  - intros (t & rest & -> & M).
    apply Matches_Class in M as (c & -> & Hc).
    apply in_class_listed in Hc. now exists c, rest.
  - intros (c & rest & -> & Hc).
    exists (String c EmptyString), rest. split; [reflexivity|].
    apply Matches_Class. exists c. split; [reflexivity|].
    now apply in_class_listed.
Qed.

Lemma unwantedArg_spec (x : string) :
  Regex.test_anchored Stats.unwantedArg x = true
  <-> (exists c d rest,
          x = String c (String d rest)
          /\ In c ["-"; "/"]%char /\ In d ["i"; "I"; "d"; "D"]%char)
      \/ x = "-".
Proof.
  rewrite test_anchored_Matches. unfold Stats.unwantedArg, Regex.Lit. split.
  - intros (t & rest & -> & M).
    apply Matches_Alt in M as [M|M];
      apply Matches_Cat in M as (t1 & t2 & -> & M1 & M2);
      apply Matches_Class in M1 as (c & -> & Hc);
      apply in_class_listed in Hc.
    + apply Matches_Class in M2 as (d & -> & Hd).
      apply in_class_listed in Hd. left. now exists c, d, rest.
    + apply Matches_Eos in M2 as [-> ->]. right.
      destruct Hc as [<-|[]]. reflexivity.
  - intros [(c & d & rest & -> & Hc & Hd)| ->].
    + exists (String c (String d EmptyString)), rest.
      split; [reflexivity|]. apply Matches_Alt. left.
      apply (Regex.M_Cat _ _ (String c EmptyString) (String d EmptyString)).
      * constructor. now apply in_class_listed.
      * constructor. now apply in_class_listed.
    + exists "-", EmptyString. split; [reflexivity|].
      apply Matches_Alt. right.
      apply (Regex.M_Cat _ _ "-" EmptyString EmptyString);
        now constructor.
Qed.

(** X14.  [filterCompilerOptions] keeps, in their order, exactly the arguments
    that start with a dash or a slash, are not the lone dash, and do not
    have [i], [I], [d] or [D] as their second character: file names and
    other bare words, include paths and macro definitions are dropped. *)
Theorem filterCompilerOptions_kept (args : list string) (x : string) :
  (In x (Stats.filterCompilerOptions args)
   <-> In x args
       /\ (exists c rest, x = String c rest /\ In c ["-"; "/"]%char)
       /\ x <> "-"
       /\ forall c d rest,
           x = String c (String d rest) ->
           ~ In d ["i"; "I"; "d"; "D"]%char)
  /\ sublist (Stats.filterCompilerOptions args) args.
Proof.
  split.
  - unfold Stats.filterCompilerOptions.
    rewrite filter_In, andb_true_iff, negb_true_iff, capturableArg_spec.
    rewrite <- not_true_iff_false, unwantedArg_spec.
    split.
    + intros (Hin & Hcap & Hun). split; [exact Hin|]. split; [exact Hcap|].
      split.
      * intros ->. apply Hun. now right.
      * intros c d rest -> Hd. apply Hun. left. exists c, d, rest.
        destruct Hcap as (c' & rest' & E & Hc). injection E as <- _. auto.
    + intros (Hin & Hcap & Hne & Hsecond). split; [exact Hin|].
      split; [exact Hcap|].
      intros [(c & d & rest & -> & Hc & Hd)| ->].
      * exact (Hsecond c d rest eq_refl Hd).
      * now apply Hne.
  - unfold Stats.filterCompilerOptions.
    induction args as [|a args IH]; simpl; [constructor|].
    destruct (_ && _); now constructor.
Qed.

Example filterCompilerOptions_command_line :
  Stats.filterCompilerOptions
    ["-O2"; "-DSECRET=1"; "-Iinclude"; "main.cpp"; "-"; "-std=c++17";
     "/W4"; "-isystem"; "/opt/include"; "--"; "/"; "-dM"]
  = ["-O2"; "-std=c++17"; "/W4"; "/opt/include"; "--"; "/"].
Proof. reflexivity. Qed.

(* ===================================================================== *)
(** * The configuration string of createStatsNoter *)
(* ===================================================================== *)

Lemma span_spec (keep : ascii -> bool) (s : string) :
  let '(t, rest) := JsString.span keep s in
  s = t +:+ rest
  /\ JsString.all_chars keep t = true
  /\ match rest with
     | EmptyString => True
     | String c _ => keep c = false
     end.
Proof.
  induction s as [|c s IH]; simpl; [auto|].
  destruct (keep c) eqn:Ec.
  - destruct (JsString.span keep s) as [t rest].
    destruct IH as (-> & Ht & Hr). simpl. rewrite Ec. auto.
  - simpl. auto.
Qed.

Lemma span_append (keep : ascii -> bool) (t rest : string) :
  JsString.all_chars keep t = true ->
  match rest with
  | EmptyString => True
  | String c _ => keep c = false
  end ->
  JsString.span keep (t +:+ rest) = (t, rest).
Proof.
  intros Ht Hr. induction t as [|c t IH].
  - rewrite append_nil. destruct rest as [|c r]; simpl; [reflexivity|].
    now rewrite Hr.
  - simpl in Ht. apply andb_true_iff in Ht as [Hc Ht].
    rewrite append_cons. simpl. rewrite Hc, (IH Ht). reflexivity.
Qed.

(** [match_config] finds the two groups of a configuration exactly when
    the configuration is a non-empty type without opening parenthesis,
    followed by parameters without closing parenthesis in a pair of
    parentheses. *)
Lemma match_config_spec (config type params : string) :
  Stats.match_config config = Some (type, params)
  <-> type <> EmptyString
      /\ JsString.all_chars (fun c => negb (Ascii.eqb c "(")) type = true
      /\ JsString.all_chars (fun c => negb (Ascii.eqb c ")")) params = true
      /\ config = type +:+ "(" +:+ params +:+ ")".
Proof.
  unfold Stats.match_config. split.
  - pose proof (span_spec (fun c => negb (Ascii.eqb c "(")) config) as S1.
    destruct (JsString.span _ config) as [t rest].
    destruct S1 as (-> & Ht & Hr).
    destruct t as [|c t]; [discriminate|].
    destruct rest as [|o rest]; [discriminate|].
    apply negb_false_iff, Ascii.eqb_eq in Hr. subst o.
    pose proof (span_spec (fun c => negb (Ascii.eqb c ")")) rest) as S2.
    destruct (JsString.span _ rest) as [p rest2].
    destruct S2 as (-> & Hp & Hr2).
    destruct rest2 as [|cl [|x rest3]]; try discriminate.
    apply negb_false_iff, Ascii.eqb_eq in Hr2. subst cl.
    intros E. injection E as <- <-. repeat split; try assumption.
    discriminate.
  - intros (Hne & Ht & Hp & ->).
    change (type +:+ "(" +:+ params +:+ ")")
      with (type +:+ String "(" (params +:+ ")")).
    rewrite (span_append _ type (String "(" (params +:+ ")")) Ht)
      by reflexivity.
    destruct type as [|c t]; [contradiction|].
    cbv beta iota.
    now rewrite (span_append _ params ")" Hp) by reflexivity.
Qed.

(** What a repetition of a character class matches. *)
Lemma Matches_Star_Class (negated : bool) (chars : list ascii)
      (t rest : string) :
  Regex.Matches (Regex.Star (Regex.Class negated chars)) t rest
  <-> JsString.all_chars (Regex.in_class negated chars) t = true.
Proof.
  split.
  - intros M.
    remember (Regex.Star (Regex.Class negated chars)) as r eqn:Er.
    induction M as [| | | | |a rest|a t1 t2 rest M1 _ M2 IH2|];
      try discriminate.
    + reflexivity.
    + injection Er as ->.
      apply Matches_Class in M1 as (c & -> & Hc).
      rewrite append_cons, append_nil. simpl. rewrite Hc. now apply IH2.
  - revert rest. induction t as [|c t IH]; intros rest Ht.
    + constructor.
    + simpl in Ht. apply andb_true_iff in Ht as [Hc Ht].
      apply (Regex.M_StarS _ (String c EmptyString) t rest).
      * now constructor.
      * now apply IH.
Qed.

Lemma all_chars_ext (keep1 keep2 : ascii -> bool) (s : string) :
  (forall c, keep1 c = keep2 c) ->
  JsString.all_chars keep1 s = JsString.all_chars keep2 s.
Proof.
  intros E. induction s as [|c s IH]; simpl;
    [reflexivity | now rewrite E, IH].
Qed.

Lemma in_class_not (y x : ascii) :
  Regex.in_class true [y] x = negb (Ascii.eqb x y).
Proof. unfold Regex.in_class. simpl. now rewrite orb_false_r. Qed.

(** The scan of [match_config] and the pattern of the source accept the
    same configurations. *)
Lemma match_config_pattern (config : string) :
  Regex.test_anchored Stats.config_pattern config = true
  <-> exists type params,
        Stats.match_config config = Some (type, params).
Proof.
  rewrite test_anchored_Matches.
  unfold Stats.config_pattern, Regex.Plus, Regex.Lit. split.
  - intros (t & rest & -> & M).
    apply Matches_Cat in M as (t1 & t2 & -> & M1 & M2).
    apply Matches_Cat in M1 as (c1 & u & -> & Mc & Mu).
    apply Matches_Class in Mc as (c & -> & Hc).
    apply Matches_Star_Class in Mu.
    apply Matches_Cat in M2 as (o & t3 & -> & Mo & M3).
    apply Matches_Class in Mo as (oc & -> & Ho).
    apply in_class_listed in Ho. destruct Ho as [<-|[]].
    apply Matches_Cat in M3 as (p & t4 & -> & Mp & M4).
    apply Matches_Star_Class in Mp.
    apply Matches_Cat in M4 as (cl & t5 & -> & Mcl & M5).
    apply Matches_Class in Mcl as (cc & -> & Hcc).
    apply in_class_listed in Hcc. destruct Hcc as [<-|[]].
    apply Matches_Eos in M5 as [-> ->].
    exists (String c u), p. apply match_config_spec.
    rewrite (all_chars_ext _ _ u (in_class_not "(")) in Mu.
    rewrite (all_chars_ext _ _ p (in_class_not ")")) in Mp.
    rewrite in_class_not in Hc.
    split; [discriminate|]. split; [|split].
    + simpl. now rewrite Hc, Mu.
    + exact Mp.
    + now string_normal.
  - intros (type & params & E).
    apply match_config_spec in E as (Hne & Ht & Hp & ->).
    destruct type as [|c u]; [contradiction|].
    simpl in Ht. apply andb_true_iff in Ht as [Hc Hu].
    exists (String c u +:+ "(" +:+ params +:+ ")"), EmptyString.
    split; [now rewrite append_empty_r|].
    apply (Regex.M_Cat _ _ (String c u) ("(" +:+ params +:+ ")")).
    + apply (Regex.M_Cat _ _ (String c EmptyString) u).
      * constructor. now rewrite in_class_not.
      * apply Matches_Star_Class.
        now rewrite (all_chars_ext _ _ u (in_class_not "(")).
    + apply (Regex.M_Cat _ _ "(" (params +:+ ")")); [now constructor|].
      apply (Regex.M_Cat _ _ params ")").
      * apply Matches_Star_Class.
        now rewrite (all_chars_ext _ _ params (in_class_not ")")).
      * apply (Regex.M_Cat _ _ ")" EmptyString); now constructor.
Qed.

(* ===================================================================== *)
(** * split and join *)
(* ===================================================================== *)

Lemma split_nonempty (sep : ascii) (s : string) : JsString.split sep s <> [].
Proof.
  destruct s as [|c s]; simpl; [discriminate|].
  destruct (Ascii.eqb c sep); [discriminate|].
  now destruct (JsString.split sep s).
Qed.

Lemma split_append (sep : ascii) (p rest : string) :
  JsString.all_chars (fun c => negb (Ascii.eqb c sep)) p = true ->
  JsString.split sep (p +:+ String sep rest) = p :: JsString.split sep rest.
Proof.
  intros Hp. induction p as [|c p IH].
  - rewrite append_nil. simpl. now rewrite Ascii.eqb_refl.
  - simpl in Hp. apply andb_true_iff in Hp as [Hc Hp].
    rewrite append_cons. simpl.
    apply negb_true_iff in Hc. rewrite Hc. now rewrite (IH Hp).
Qed.

Lemma split_no_separator (sep : ascii) (p : string) :
  JsString.all_chars (fun c => negb (Ascii.eqb c sep)) p = true ->
  JsString.split sep p = [p].
Proof.
  intros Hp. induction p as [|c p IH]; [reflexivity|].
  simpl in Hp. apply andb_true_iff in Hp as [Hc Hp].
  simpl. apply negb_true_iff in Hc. now rewrite Hc, (IH Hp).
Qed.

(** Splitting what was joined gives the pieces back, when no piece holds
    the separator. *)
Lemma split_join (sep : ascii) (ps : list string) :
  ps <> [] ->
  Forall (fun p =>
            JsString.all_chars (fun c => negb (Ascii.eqb c sep)) p = true)
         ps ->
  JsString.split sep (Js.join (String sep EmptyString) ps) = ps.
Proof.
  intros Hne Hps. induction Hps as [|p ps Hp Hps IH]; [contradiction|].
  destruct ps as [|q ps].
  - simpl. now apply split_no_separator.
  - change (Js.join (String sep EmptyString) (p :: q :: ps))
      with (p +:+ String sep EmptyString
            +:+ Js.join (String sep EmptyString) (q :: ps)).
    rewrite append_cons, append_nil, (split_append sep p _ Hp).
    now rewrite IH.
Qed.

(** Joining what was split gives the text back. *)
Lemma join_split (sep : ascii) (s : string) :
  Js.join (String sep EmptyString) (JsString.split sep s) = s.
Proof.
  induction s as [|c s IH]; [reflexivity|]. simpl.
  destruct (Ascii.eqb_spec c sep) as [->|Hc].
  - pose proof (split_nonempty sep s) as Hne.
    destruct (JsString.split sep s) as [|p ps]; [contradiction|].
    change (Js.join (String sep EmptyString) (EmptyString :: p :: ps))
      with (EmptyString +:+ String sep EmptyString
            +:+ Js.join (String sep EmptyString) (p :: ps)).
    now rewrite IH.
  - pose proof (split_nonempty sep s) as Hne.
    destruct (JsString.split sep s) as [|p ps]; [contradiction|].
    destruct ps as [|q ps].
    + simpl in *. now rewrite IH.
    + change (Js.join (String sep EmptyString) (String c p :: q :: ps))
        with (String c p +:+ String sep EmptyString
              +:+ Js.join (String sep EmptyString) (q :: ps)).
      change (Js.join (String sep EmptyString) (p :: q :: ps))
        with (p +:+ String sep EmptyString
              +:+ Js.join (String sep EmptyString) (q :: ps)) in IH.
      now rewrite append_cons, IH.
Qed.

(** The pieces of a split consist of characters of the text, and none
    holds the separator. *)
Lemma split_pieces (keep : ascii -> bool) (sep : ascii) (s : string) :
  JsString.all_chars keep s = true ->
  Forall (fun p =>
            JsString.all_chars
              (fun c => negb (Ascii.eqb c sep) && keep c) p = true)
         (JsString.split sep s).
Proof.
  induction s as [|c s IH]; intros Hs.
  - repeat constructor.
  - simpl in Hs. apply andb_true_iff in Hs as [Hc Hs]. simpl.
    specialize (IH Hs).
    destruct (Ascii.eqb c sep) eqn:Ec.
    + constructor; [reflexivity | exact IH].
    + destruct (JsString.split sep s) as [|p ps].
      * repeat constructor. simpl. now rewrite Ec, Hc.
      * inversion IH; subst. constructor; [|assumption].
        simpl. rewrite Ec, Hc. simpl. assumption.
Qed.

Lemma all_chars_join (keep : ascii -> bool) (sep : ascii)
      (ps : list string) :
  keep sep = true ->
  Forall (fun p => JsString.all_chars keep p = true) ps ->
  JsString.all_chars keep (Js.join (String sep EmptyString) ps) = true.
Proof.
  intros Hsep Hps. induction Hps as [|p ps Hp Hps IH]; [reflexivity|].
  destruct ps as [|q ps]; [exact Hp|].
  change (Js.join (String sep EmptyString) (p :: q :: ps))
    with (p +:+ String sep EmptyString
          +:+ Js.join (String sep EmptyString) (q :: ps)).
  rewrite append_cons, append_nil.
  clear Hps. induction p as [|c p IHp].
  - rewrite append_nil. cbn [JsString.all_chars]. now rewrite Hsep, IH.
  - simpl in Hp. apply andb_true_iff in Hp as [Hc Hp].
    rewrite append_cons. cbn [JsString.all_chars].
    now rewrite Hc, (IHp Hp).
Qed.

Lemma all_chars_weaken (keep1 keep2 : ascii -> bool) (s : string) :
  (forall c, keep1 c = true -> keep2 c = true) ->
  JsString.all_chars keep1 s = true -> JsString.all_chars keep2 s = true.
Proof.
  intros W. induction s as [|c s IH]; simpl; [auto|].
  rewrite !andb_true_iff. intros [Hc Hs]. auto.
Qed.

(* ===================================================================== *)
(** * createStatsNoter *)
(* ===================================================================== *)

(** X15.  For a configuration [S3(p1,...,pn)] whose parameters hold neither a
    comma nor a closing parenthesis, the noter is built from exactly these
    parameters: more than four are refused; the bucket is the first, the
    path and the region are the second and the third or else
    [compile-stats] and [us-east-1]; a non-empty fourth is the flush time
    and is refused when it does not parse to a non-zero duration; without
    it the flush time is five minutes. *)
Theorem createStatsNoter_S3 {T} (host : Stats.StatsHost T)
        (props : PropertyGetter) (ps : list string) :
  ps <> [] ->
  Forall (fun p =>
            JsString.all_chars
              (fun c => negb (Ascii.eqb c ",") && negb (Ascii.eqb c ")")) p
            = true) ps ->
  prop_string props "compilationStatsNotifier" "None()"
  = "S3(" +:+ Js.join "," ps +:+ ")" ->
  Stats.createStatsNoter host props
  = let config := "S3(" +:+ Js.join "," ps +:+ ")" in
    let refused :=
      Stats.bad_params config
      +:+ " - expected S3(bucket, path?, region?, flushTime?)" in
    if (4 <? length ps)%nat then Throw (new_Error refused)
    else
      match truthy_string (ps !! 3%nat) with
      | None =>
          Normal (Stats.S3StatsNoter
                    {| Stats._statsQueue := [];
                       Stats._flushAfterMs := 300000;
                       Stats._flushJob := None;
                       Stats._s3 :=
                         Stats.mkS3Bucket
                           (default EmptyString (ps !! 0%nat))
                           (default "us-east-1" (ps !! 2%nat));
                       Stats._path :=
                         default "compile-stats" (ps !! 1%nat) |})
      | Some text =>
          match Stats.ems_parse host text with
          | Some parsed =>
              if parsed =? 0
              then Throw (new_Error (refused +:+ ", bad flush time"))
              else
                Normal (Stats.S3StatsNoter
                          {| Stats._statsQueue := [];
                             Stats._flushAfterMs := parsed;
                             Stats._flushJob := None;
                             Stats._s3 :=
                               Stats.mkS3Bucket
                                 (default EmptyString (ps !! 0%nat))
                                 (default "us-east-1" (ps !! 2%nat));
                             Stats._path :=
                               default "compile-stats" (ps !! 1%nat) |})
          | None => Throw (new_Error (refused +:+ ", bad flush time"))
          end
      end.
Proof.
  intros Hne Hps Hconfig. unfold Stats.createStatsNoter.
  rewrite Hconfig.
  assert (Stats.match_config ("S3(" +:+ Js.join "," ps +:+ ")")
          = Some ("S3", Js.join "," ps)) as ->.
  { apply match_config_spec. split; [discriminate|].
    split; [reflexivity|]. split; [|reflexivity].
    apply (all_chars_join _ ","); [reflexivity|].
    eapply Forall_impl; [exact Hps|]. intros p Hp. simpl in Hp.
    eapply all_chars_weaken; [|exact Hp].
    intros c Hc. now apply andb_true_iff in Hc. }
  assert (JsString.split "," (Js.join "," ps) = ps) as ->.
  { apply split_join; [exact Hne|].
    eapply Forall_impl; [exact Hps|]. intros p Hp. simpl in Hp.
    eapply all_chars_weaken; [|exact Hp].
    intros c Hc. now apply andb_true_iff in Hc. }
  change (String.eqb "S3" "None") with false.
  change (String.eqb "S3" "S3") with true. cbv beta iota zeta.
  assert ((length ps <? 1)%nat = false) as ->.
  { destruct ps; [contradiction | reflexivity]. }
  rewrite orb_false_l.
  destruct (4 <? length ps)%nat; [reflexivity|].
  destruct (truthy_string (ps !! 3%nat)) as [text|]; [|reflexivity].
  unfold Stats.bad_params.
  destruct (Stats.ems_parse host text) as [parsed|];
    [destruct (parsed =? 0)|]; simpl; try reflexivity; now string_normal.
Qed.

Lemma createStatsNoter_S3_witness :
  Stats.createStatsNoter StatsDemo.host
    (StatsDemo.props "S3(stats-bucket,logs/ce,eu-west-1,10s)")
  = Normal (Stats.S3StatsNoter
              {| Stats._statsQueue := [];
                 Stats._flushAfterMs := 10000;
                 Stats._flushJob := None;
                 Stats._s3 := Stats.mkS3Bucket "stats-bucket" "eu-west-1";
                 Stats._path := "logs/ce" |}).
Proof.
  apply (createStatsNoter_S3 StatsDemo.host
           (StatsDemo.props "S3(stats-bucket,logs/ce,eu-west-1,10s)")
           ["stats-bucket"; "logs/ce"; "eu-west-1"; "10s"]).
  - discriminate.
  - repeat constructor.
  - reflexivity.
Defined.

(** X16.  A noter is created from a well-formed configuration only.  The null
    noter comes from [None(p)] with at most one parameter; an S3 noter
    comes from [S3(p1,...,pn)] with one to four parameters, and starts
    with an empty queue, no flush job, a non-zero flush time, the first
    parameter as bucket and the second and third, or their defaults, as
    path and region.  Every other configuration throws. *)
Theorem createStatsNoter_result {T} (host : Stats.StatsHost T)
        (props : PropertyGetter) (n : Stats.IStatsNoter) :
  Stats.createStatsNoter host props = Normal n ->
  let config := prop_string props "compilationStatsNotifier" "None()" in
  let plain := fun c => negb (Ascii.eqb c ",") && negb (Ascii.eqb c ")") in
  match n with
  | Stats.NullStatsNoter =>
      exists p : string,
        config = "None(" +:+ p +:+ ")"
        /\ JsString.all_chars plain p = true
  | Stats.S3StatsNoter noter =>
      exists ps : list string,
        config = "S3(" +:+ Js.join "," ps +:+ ")"
        /\ (1 <= length ps <= 4)%nat
        /\ Forall (fun p => JsString.all_chars plain p = true) ps
        /\ Stats._statsQueue noter = []
        /\ Stats._flushJob noter = None
        /\ Stats._flushAfterMs noter <> 0
        /\ Stats.s3_bucket (Stats._s3 noter)
           = default EmptyString (ps !! 0%nat)
        /\ Stats._path noter = default "compile-stats" (ps !! 1%nat)
        /\ Stats.s3_region (Stats._s3 noter)
           = default "us-east-1" (ps !! 2%nat)
  end.
Proof.
  intros E config plain. unfold Stats.createStatsNoter in E. fold config in E.
  destruct (Stats.match_config config) as [[type text]|] eqn:Em;
    [|discriminate].
  apply match_config_spec in Em as (Hne & Ht & Hp & Hcfg).
  pose proof (split_pieces _ "," text Hp) as Hpieces.
  pose proof (join_split "," text) as Hjoin.
  destruct (String.eqb_spec type "None") as [->|HnotNone].
  - destruct (Nat.eqb_spec (length (JsString.split "," text)) 1)
      as [Hlen|Hlen]; simpl in E; [|discriminate].
    injection E as <-. exists text. split; [exact Hcfg|].
    destruct (JsString.split "," text) as [|p [|q ps]]; try discriminate.
    simpl in Hjoin. subst p. now inversion Hpieces.
  - destruct (String.eqb_spec type "S3") as [->|HnotS3]; [|discriminate].
    set (ps := JsString.split "," text) in *.
    destruct ((length ps <? 1)%nat || (4 <? length ps)%nat) eqn:El;
      [discriminate|].
    apply orb_false_iff in El as [El1 El2].
    apply Nat.ltb_ge in El1, El2.
    assert (config = "S3(" +:+ Js.join "," ps +:+ ")") as Hconfig.
    { rewrite Hjoin. exact Hcfg. }
    unfold mbind, completion_bind, Js.bind in E.
    destruct (truthy_string (ps !! 3%nat)) as [flush|].
    + destruct (Stats.ems_parse host flush) as [parsed|]; [|discriminate].
      destruct (Z.eqb_spec parsed 0) as [Hz|Hz]; [discriminate|].
      injection E as <-. exists ps. simpl. repeat split; auto.
    + injection E as <-. exists ps. simpl. repeat split; auto.
Qed.

Lemma createStatsNoter_result_witness :
  let config :=
    prop_string (StatsDemo.props "S3(stats-bucket,,eu-west-1)")
                "compilationStatsNotifier" "None()" in
  let plain := fun c => negb (Ascii.eqb c ",") && negb (Ascii.eqb c ")") in
  let noter :=
    Stats.StatsNoter_new "stats-bucket" (Some EmptyString)
                         (Some "eu-west-1") None in
  exists ps : list string,
    config = "S3(" +:+ Js.join "," ps +:+ ")"
    /\ (1 <= length ps <= 4)%nat
    /\ Forall (fun p => JsString.all_chars plain p = true) ps
    /\ Stats._statsQueue noter = []
    /\ Stats._flushJob noter = None
    /\ Stats._flushAfterMs noter <> 0
    /\ Stats.s3_bucket (Stats._s3 noter) = default EmptyString (ps !! 0%nat)
    /\ Stats._path noter = default "compile-stats" (ps !! 1%nat)
    /\ Stats.s3_region (Stats._s3 noter)
       = default "us-east-1" (ps !! 2%nat).
Proof.
  apply (createStatsNoter_result StatsDemo.host
           (StatsDemo.props "S3(stats-bucket,,eu-west-1)")
           (Stats.S3StatsNoter
              (Stats.StatsNoter_new "stats-bucket" (Some EmptyString)
                                    (Some "eu-west-1") None))).
  reflexivity.
Defined.

(* ===================================================================== *)
(** * The StatsNoter *)
(* ===================================================================== *)

Lemma run_app {T} (host : Stats.StatsHost T) (es1 es2 : list Stats.Event)
      (st : Stats.StatsNoter * Stats.World) :
  Stats.run host (es1 ++ es2) st = Stats.run host es2 (Stats.run host es1 st).
Proof. unfold Stats.run. apply foldl_app. Qed.

Lemma run_cons {T} (host : Stats.StatsHost T) (e : Stats.Event)
      (es : list Stats.Event) (st : Stats.StatsNoter * Stats.World) :
  Stats.run host (e :: es) st = Stats.run host es (Stats.step host e st).
Proof. reflexivity. Qed.

(** One event keeps a noter idle or armed, and its configuration fixed. *)
Lemma step_idle_or_armed {T} (host : Stats.StatsHost T) (e : Stats.Event)
      (st : Stats.StatsNoter * Stats.World) :
  let idle := fun st : Stats.StatsNoter * Stats.World =>
    Stats._statsQueue st.1 = [] /\ Stats._flushJob st.1 = None
    /\ Stats.pending st.2 = [] in
  let armed := fun st : Stats.StatsNoter * Stats.World =>
    exists job : nat,
      Stats._flushJob st.1 = Some job
      /\ Stats.pending st.2 = [(job, Stats._flushAfterMs st.1)]
      /\ Stats._statsQueue st.1 <> [] in
  idle st \/ armed st ->
  (idle (Stats.step host e st) \/ armed (Stats.step host e st))
  /\ Stats._flushAfterMs (Stats.step host e st).1 = Stats._flushAfterMs st.1
  /\ Stats._s3 (Stats.step host e st).1 = Stats._s3 st.1
  /\ Stats._path (Stats.step host e st).1 = Stats._path st.1.
Proof.
  intros idle armed. subst idle armed.
  destruct st as [[q ms j s3 path] [h pend next]]. simpl.
  intros [(-> & -> & ->)|(job & -> & -> & Hq)]; destruct e as [request|];
    simpl; unfold Stats.noteCompilation, Stats.flush, Stats.setTimeout,
             Stats.clearTimeout; simpl;
    try destruct (Stats.new_Date host h) as [now h1]; simpl.
  - repeat split. right. exists next. repeat split. discriminate.
  - repeat split. left. auto.
  - repeat split. right. exists job. repeat split.
    intros E. now apply app_eq_nil in E as [_ E].
  - repeat split. left. auto.
Qed.

(** X17.  A noter is always idle or armed.  Starting idle (no record, no flush
    job, no timer), after any sequence of noted compilations and timer
    firings the noter either is idle again, or holds at least one record
    together with a flush job whose timer is the only one pending and has
    the configured delay.  So records are never left without a timer that
    will flush them, at most one timer is pending, and the bucket, the
    path and the delay never change. *)
Theorem StatsNoter_idle_or_armed {T} (host : Stats.StatsHost T)
        (events : list Stats.Event) (this : Stats.StatsNoter)
        (w : Stats.World) :
  Stats._statsQueue this = [] ->
  Stats._flushJob this = None ->
  Stats.pending w = [] ->
  let st := Stats.run host events (this, w) in
  ((Stats._statsQueue st.1 = [] /\ Stats._flushJob st.1 = None
    /\ Stats.pending st.2 = [])
   \/ exists job : nat,
        Stats._flushJob st.1 = Some job
        /\ Stats.pending st.2 = [(job, Stats._flushAfterMs this)]
        /\ Stats._statsQueue st.1 <> [])
  /\ Stats._flushAfterMs st.1 = Stats._flushAfterMs this
  /\ Stats._s3 st.1 = Stats._s3 this
  /\ Stats._path st.1 = Stats._path this.
Proof.
  intros Hq Hj Hp st. subst st.
  induction events as [|e events IH] using rev_ind.
  - simpl. repeat split. left. auto.
  - rewrite run_app. simpl.
    destruct IH as (Hst & Hms & Hs3 & Hpath).
    destruct (step_idle_or_armed host e
                (Stats.run host events (this, w))) as (I & E1 & E2 & E3).
    { rewrite Hms. exact Hst. }
    cbv beta in I. rewrite E1, Hms in I. rewrite E1, E2, E3.
    repeat split; assumption.
Qed.

Lemma StatsNoter_idle_or_armed_witness :
  let st :=
    Stats.run StatsDemo.host
      [Stats.Note (StatsDemo.request "int main() {}" ["-O2"]);
       Stats.Note (StatsDemo.request "int f();" ["-O1"; "-Iinc"]);
       Stats.Fire;
       Stats.Note (StatsDemo.request "int g();" [])]
      (StatsDemo.noter0, StatsDemo.world0) in
  ((Stats._statsQueue st.1 = [] /\ Stats._flushJob st.1 = None
    /\ Stats.pending st.2 = [])
   \/ exists job : nat,
        Stats._flushJob st.1 = Some job
        /\ Stats.pending st.2
           = [(job, Stats._flushAfterMs StatsDemo.noter0)]
        /\ Stats._statsQueue st.1 <> [])
  /\ Stats._flushAfterMs st.1 = Stats._flushAfterMs StatsDemo.noter0
  /\ Stats._s3 st.1 = Stats._s3 StatsDemo.noter0
  /\ Stats._path st.1 = Stats._path StatsDemo.noter0.
Proof.
  apply (StatsNoter_idle_or_armed StatsDemo.host
           [Stats.Note (StatsDemo.request "int main() {}" ["-O2"]);
            Stats.Note (StatsDemo.request "int f();" ["-O1"; "-Iinc"]);
            Stats.Fire;
            Stats.Note (StatsDemo.request "int g();" [])]
           StatsDemo.noter0 StatsDemo.world0); reflexivity.
Defined.

(** Noting compilations on an armed noter appends their records in order,
    each with the date of its own clock read. *)
Lemma run_notes_armed (reqs : list Stats.ParsedRequest)
      (queue : list Stats.CompilationRecord) (job : nat) (c : Z)
      (puts : list (string * string * string)) (pend : list (nat * Z))
      (next : nat) :
  Stats.run StatsDemo.host (map Stats.Note reqs)
    (Stats.mkStatsNoter queue 300000 (Some job)
                        (Stats.mkS3Bucket "stats-bucket" "us-east-1")
                        "compile-stats",
     Stats.mkWorld (StatsDemo.mkState puts c) pend next)
  = (Stats.mkStatsNoter
       (queue ++ imap (fun i r =>
                         Stats.makeSafe StatsDemo.host
                           (StatsDemo.date_of (c + Z.of_nat i)) r) reqs)
       300000 (Some job)
       (Stats.mkS3Bucket "stats-bucket" "us-east-1") "compile-stats",
     Stats.mkWorld (StatsDemo.mkState puts (c + Z.of_nat (length reqs)))
                   pend next).
Proof.
  revert queue c. induction reqs as [|r reqs IH]; intros queue c.
  - simpl. now rewrite app_nil_r, Z.add_0_r.
  - rewrite map_cons, run_cons.
    cbn [Stats.step fst snd]. unfold Stats.noteCompilation. simpl.
    rewrite IH. rewrite <- app_assoc. simpl. rewrite Z.add_0_r.
    assert (imap (fun i r0 =>
                    Stats.makeSafe StatsDemo.host
                      (StatsDemo.date_of (c + 1 + Z.of_nat i)) r0) reqs
            = imap ((fun i r0 =>
                       Stats.makeSafe StatsDemo.host
                         (StatsDemo.date_of (c + Z.of_nat i)) r0) ∘ S) reqs)
      as ->.
    { apply imap_ext. intros i x _. simpl.
      replace (c + 1 + Z.of_nat i) with (c + Z.pos (Pos.of_succ_nat i))
        by lia.
      reflexivity. }
    replace (c + 1 + Z.of_nat (length reqs))
      with (c + Z.of_nat (S (length reqs))) by lia.
    reflexivity.
Qed.

(** X18.  No record is lost, duplicated or reordered.  On the host that records
    the puts, noting any non-empty list of compilations on a fresh noter
    and letting the timer fire issues exactly one put, under the path of
    the noter, whose body holds the records of all these compilations in
    the order they were noted, one per line; the noter is idle again. *)
Theorem noted_records_are_flushed_in_order
        (reqs : list Stats.ParsedRequest) :
  reqs <> [] ->
  let st :=
    Stats.run StatsDemo.host (map Stats.Note reqs ++ [Stats.Fire])
              (StatsDemo.noter0, StatsDemo.world0) in
  StatsDemo.puts (Stats.host_state st.2)
  = [(Stats.makeKey (StatsDemo.date_of (1 + Z.of_nat (length reqs))),
      Js.join (String "010"%char EmptyString)
        (map StatsDemo.stringify_record
           (imap (fun i r =>
                    Stats.makeSafe StatsDemo.host
                      (StatsDemo.date_of (1 + Z.of_nat i)) r) reqs)),
      "compile-stats")]
  /\ st.1 = StatsDemo.noter0
  /\ Stats.pending st.2 = [].
Proof.
  intros Hne st. subst st. destruct reqs as [|r reqs]; [contradiction|].
  rewrite run_app, map_cons, (run_cons _ (Stats.Note r)).
  assert (Stats.step StatsDemo.host (Stats.Note r)
            (StatsDemo.noter0, StatsDemo.world0)
          = (Stats.mkStatsNoter
               ([] ++ [Stats.makeSafe StatsDemo.host (StatsDemo.date_of 1) r])
               300000 (Some 0%nat)
               (Stats.mkS3Bucket "stats-bucket" "us-east-1") "compile-stats",
             Stats.mkWorld (StatsDemo.mkState [] 2) [(0%nat, 300000)] 1))
    as -> by reflexivity.
  rewrite run_notes_armed, (run_cons _ Stats.Fire).
  cbn [Stats.run foldl Stats.step fst snd Stats.pending Stats.host_state
       Stats.next_timer].
  unfold Stats.flush.
  cbn [Stats.new_Date StatsDemo.host Stats.host_state StatsDemo.clock
       StatsDemo.puts Stats._statsQueue Stats._s3 Stats._path
       Stats._flushJob Stats._flushAfterMs Stats.S3Bucket_put
       Stats.JSON_stringify_record snd fst Stats.clearTimeout
       Stats.pending Stats.next_timer List.filter app].
  split; [|split; reflexivity].
  replace (2 + Z.of_nat (length reqs))
    with (1 + Z.of_nat (length (r :: reqs))) by (simpl length; lia).
  assert (imap (fun i r0 =>
                  Stats.makeSafe StatsDemo.host
                    (StatsDemo.date_of (2 + Z.of_nat i)) r0) reqs
          = imap ((fun i r0 =>
                     Stats.makeSafe StatsDemo.host
                       (StatsDemo.date_of (1 + Z.of_nat i)) r0) ∘ S) reqs)
    as Himap.
  { apply imap_ext. intros i x _. simpl.
    replace (2 + Z.of_nat i) with (1 + Z.pos (Pos.of_succ_nat i)) by lia.
    reflexivity. }
  rewrite imap_cons, <- Himap. reflexivity.
Qed.

Lemma noted_records_are_flushed_in_order_witness :
  let reqs := [StatsDemo.request "int main() {}" ["-O2"; "-DX=1"];
               StatsDemo.request "int f();" ["-O1"]] in
  let st :=
    Stats.run StatsDemo.host (map Stats.Note reqs ++ [Stats.Fire])
              (StatsDemo.noter0, StatsDemo.world0) in
  StatsDemo.puts (Stats.host_state st.2)
  = [(Stats.makeKey (StatsDemo.date_of (1 + Z.of_nat (length reqs))),
      Js.join (String "010"%char EmptyString)
        (map StatsDemo.stringify_record
           (imap (fun i r =>
                    Stats.makeSafe StatsDemo.host
                      (StatsDemo.date_of (1 + Z.of_nat i)) r) reqs)),
      "compile-stats")]
  /\ st.1 = StatsDemo.noter0
  /\ Stats.pending st.2 = [].
Proof.
  apply (noted_records_are_flushed_in_order
           [StatsDemo.request "int main() {}" ["-O2"; "-DX=1"];
            StatsDemo.request "int f();" ["-O1"]]).
  discriminate.
Defined.

(* ===================================================================== *)
(** * AssemblyCompiler: the generated file and the link step *)
(* ===================================================================== *)

Lemma foldl_keeps_last {A B} (p : A -> bool) (g : A -> B) (l : list A) :
  forall acc,
    foldl (fun out x => if p x then g x else out) acc l
    = match last (List.filter p l) with
      | Some x => g x
      | None => acc
      end.
Proof.
  induction l as [|x l IH]; intros acc; [reflexivity|].
  cbn [foldl List.filter]. rewrite IH.
  destruct (p x); [|reflexivity].
  rewrite last_cons. destruct (last (List.filter p l)); reflexivity.
Qed.

(** X19.  [getGeneratedOutputFilename] reports the LAST entry of the
    folder listing that is neither a dot file nor the compiled source
    itself, joined to the folder; when the listing has no such entry it
    falls back to the base compiler's output name.  The listing is read
    once and nothing else is done to the host. *)
Theorem getGeneratedOutputFilename_last_generated
        {T} (host : Assembly.AsmHost T) (this : Assembly.AssemblyCompiler)
        (fn : string) (files : list string) (h h' : T) :
  Assembly.fs_readdirSync host (Assembly.path_dirname host fn) h
  = (Normal files, h') ->
  Assembly.getGeneratedOutputFilename host this fn h
  = (Normal
       match last (List.filter (Assembly.is_generated this) files) with
       | Some file =>
           Assembly.path_join host (Assembly.path_dirname host fn) file
       | None => Assembly.BaseCompiler_filename host fn
       end,
     h').
Proof.
  intros Hls. unfold Assembly.getGeneratedOutputFilename.
  unfold mbind, eff_bind. rewrite Hls. cbn.
  unfold mret, eff_ret. rewrite foldl_keeps_last. reflexivity.
Qed.

Lemma getGeneratedOutputFilename_last_generated_witness :
  Assembly.getGeneratedOutputFilename
    (AsmDemo.host AsmDemo.folder AsmDemo.riscv_header) AsmDemo.compiler
    "/tmp/build/example.asm" []
  = (Normal "/tmp/build/example.o", []).
Proof.
  exact (getGeneratedOutputFilename_last_generated
           (AsmDemo.host AsmDemo.folder AsmDemo.riscv_header)
           AsmDemo.compiler "/tmp/build/example.asm" AsmDemo.folder [] []
           eq_refl).
Defined.

Lemma runLinker_refuses {T} (host : Assembly.AsmHost T)
      (fullResult : Assembly.FullResult) (inputArch : option string)
      (objectFilename outputFilename : string) (extraOptions : list string)
      (h : T) :
  inputArch <> Some "x86" -> inputArch <> Some "x86_64" ->
  Assembly.runLinker host fullResult inputArch objectFilename outputFilename
                     extraOptions h
  = (Normal (Assembly.invalid_architecture,
             Assembly.mkFullResult
               ((fun steps => steps ++ [Assembly.invalid_architecture])
                  <$> Assembly.buildsteps fullResult)
               (Assembly.full_stderr fullResult)),
     h).
Proof.
  intros H32 H64. unfold Assembly.runLinker.
  destruct inputArch as [arch|]; [|reflexivity].
  destruct (String.eqb_spec arch "x86") as [->|_]; [congruence|].
  destruct (String.eqb_spec arch "x86_64") as [->|_]; [congruence|].
  reflexivity.
Qed.

(** X20.  An object file whose readelf header names no architecture the
    compiler links for is not linked: after the one readelf step the
    linker is never started (the host is left as readelf left it), the
    step [invalid_architecture] with exit code -1 is appended to the build
    steps, and its line is appended to the stderr of the build result. *)
Theorem link_object_unknown_architecture
        {T} (host : Assembly.AsmHost T) (fullResult : Assembly.FullResult)
        (objectFilename outputFilename : string) (libOpts : list string)
        (readelf : Assembly.BuildStep) (fullResult1 : Assembly.FullResult)
        (h h1 : T) :
  Assembly.runReadelf host fullResult objectFilename h
  = (Normal (readelf, fullResult1), h1) ->
  Assembly.architecture_of (Assembly.step_stdout readelf) = None ->
  Assembly.link_object host fullResult objectFilename outputFilename libOpts
                       h
  = (Normal
       (Assembly.mkFullResult
          ((fun steps => steps ++ [Assembly.invalid_architecture])
             <$> Assembly.buildsteps fullResult1)
          (Assembly.full_stderr fullResult1
           ++ [mkLine "Invalid architecture for linking and execution"
                      None])),
     h1).
Proof.
  intros Hreadelf Harch.
  unfold Assembly.link_object, Assembly.getArchitecture.
  unfold mbind, eff_bind. rewrite Hreadelf. cbn.
  unfold mret, eff_ret. rewrite Harch.
  rewrite runLinker_refuses by discriminate. reflexivity.
Qed.

Lemma link_object_unknown_architecture_witness :
  Assembly.link_object
    (AsmDemo.host AsmDemo.folder AsmDemo.riscv_header) AsmDemo.fullResult0
    "/tmp/build/example.o" "/tmp/build/ce-asm-executable" ["-lc"] []
  = (Normal
       (Assembly.mkFullResult
          (Some [AsmDemo.step_of AsmDemo.riscv_header "readelf";
                 Assembly.invalid_architecture])
          [mkLine "Invalid architecture for linking and execution" None]),
     [("readelf", ["-h"; "/tmp/build/example.o"])]).
Proof.
  exact (link_object_unknown_architecture
           (AsmDemo.host AsmDemo.folder AsmDemo.riscv_header)
           AsmDemo.fullResult0 "/tmp/build/example.o"
           "/tmp/build/ce-asm-executable" ["-lc"] _ _ [] _
           eq_refl eq_refl).
Defined.

(** X21.  An object file whose readelf header shows both ELF32 and 80386
    is linked by one run of ld, in the folder of the object file, with the
    arguments -o output -m elf_i386 object followed by the library
    options; whatever ld wrote to stderr is appended to the stderr of the
    build result. *)
Theorem link_object_x86
        {T} (host : Assembly.AsmHost T) (fullResult : Assembly.FullResult)
        (objectFilename outputFilename : string) (libOpts : list string)
        (readelf ld : Assembly.BuildStep)
        (fullResult1 fullResult2 : Assembly.FullResult) (h h1 h2 : T) :
  Assembly.runReadelf host fullResult objectFilename h
  = (Normal (readelf, fullResult1), h1) ->
  Assembly.architecture_of (Assembly.step_stdout readelf) = Some "x86" ->
  Assembly.doBuildstepAndAddToResult host fullResult1 "ld"
    (Assembly.env_ceProps host "ld")
    (["-o"; outputFilename; "-m"; "elf_i386"; objectFilename] ++ libOpts)
    (Assembly.set_customCwd
       (Assembly.BaseCompiler_getDefaultExecOptions host)
       (Assembly.path_dirname host objectFilename)) h1
  = (Normal (ld, fullResult2), h2) ->
  Assembly.link_object host fullResult objectFilename outputFilename libOpts
                       h
  = (Normal
       (Assembly.mkFullResult
          (Assembly.buildsteps fullResult2)
          (Assembly.full_stderr fullResult2 ++ Assembly.step_stderr ld)),
     h2).
Proof.
  intros Hreadelf Harch Hld.
  unfold Assembly.link_object, Assembly.getArchitecture.
  unfold mbind, eff_bind. rewrite Hreadelf. cbn.
  unfold mret, eff_ret. rewrite Harch.
  unfold Assembly.runLinker. cbn [String.eqb Ascii.eqb Bool.eqb].
  change ((["-o"; outputFilename] ++ ["-m"; "elf_i386"])
          ++ [objectFilename])
    with ["-o"; outputFilename; "-m"; "elf_i386"; objectFilename].
  rewrite Hld. reflexivity.
Qed.

Lemma link_object_x86_witness :
  Assembly.link_object
    (AsmDemo.host AsmDemo.folder AsmDemo.i386_header) AsmDemo.fullResult0
    "/tmp/build/example.o" "/tmp/build/ce-asm-executable" ["-lc"] []
  = (Normal
       (Assembly.mkFullResult
          (Some [AsmDemo.step_of AsmDemo.i386_header "readelf";
                 AsmDemo.step_of AsmDemo.i386_header "ld"])
          []),
     [("readelf", ["-h"; "/tmp/build/example.o"]);
      ("ld", ["-o"; "/tmp/build/ce-asm-executable"; "-m"; "elf_i386";
              "/tmp/build/example.o"; "-lc"])]).
Proof.
  exact (link_object_x86
           (AsmDemo.host AsmDemo.folder AsmDemo.i386_header)
           AsmDemo.fullResult0 "/tmp/build/example.o"
           "/tmp/build/ce-asm-executable" ["-lc"] _ _ _ _ [] _ _
           eq_refl eq_refl eq_refl).
Defined.

(* ===================================================================== *)
(** * The diff pane: strings and decimal numerals *)
(* ===================================================================== *)

Lemma substr0_app (a b : string) :
  JsNumber.substr0 (a +:+ b) (String.length a) = a.
Proof.
  unfold JsNumber.substr0.
  induction a as [|c a IH]; [destruct b; reflexivity|].
  rewrite append_cons. cbn [String.length String.substring]. now rewrite IH.
Qed.

Lemma length_substr0 (s : string) (n : nat) :
  String.length (JsNumber.substr0 s n) = Nat.min n (String.length s).
Proof.
  unfold JsNumber.substr0. revert n.
  induction s as [|c s IH]; intros [|n]; cbn; try reflexivity.
  now rewrite IH.
Qed.

Lemma substr0_prefix (s : string) (n : nat) :
  exists rest, s = JsNumber.substr0 s n +:+ rest.
Proof.
  unfold JsNumber.substr0. revert n.
  induction s as [|c s IH]; intros [|n]; cbn [String.substring].
  - now exists EmptyString.
  - now exists EmptyString.
  - now exists (String c s).
  - destruct (IH n) as [rest E]. exists rest.
    rewrite append_cons. now rewrite <- E.
Qed.

Lemma length_append (a b : string) :
  String.length (a +:+ b) = (String.length a + String.length b)%nat.
Proof.
  induction a as [|c a IH]; [reflexivity|].
  rewrite append_cons. cbn. now rewrite IH.
Qed.

Lemma indexOf_exec (a : string) :
  JsString.all_chars Decimal.not_underscore a = true ->
  JsNumber.indexOf (a +:+ "_exec") "_exec" = Some (String.length a).
Proof.
  unfold JsNumber.indexOf.
  induction a as [|c a IH]; intros Ha; [reflexivity|].
  cbn [JsString.all_chars] in Ha. apply andb_true_iff in Ha as [Hc Ha].
  rewrite append_cons. cbn [String.index String.prefix].
  unfold Decimal.not_underscore in Hc.
  destruct (ascii_dec "_" c) as [<-|_]; [discriminate|].
  rewrite (IH Ha). reflexivity.
Qed.

Lemma is_digit_cases (c : ascii) :
  Decimal.is_digit c = true ->
  In c ["0"; "1"; "2"; "3"; "4"; "5"; "6"; "7"; "8"; "9"]%char.
Proof.
  destruct c as [[] [] [] [] [] [] [] []]; cbn; intros E;
    try discriminate E; auto 12.
Qed.



Lemma pretty_N_char_digit (m : N) :
  (m < 10)%N ->
  Decimal.is_digit (pretty_N_char m) = true
  /\ Decimal.digit (pretty_N_char m) = Z.of_N m.
Proof.
  intros Hm.
  assert (m = 0 \/ m = 1 \/ m = 2 \/ m = 3 \/ m = 4 \/ m = 5 \/ m = 6
          \/ m = 7 \/ m = 8 \/ m = 9)%N as Hcases by lia.
  repeat (destruct Hcases as [->|Hcases]; [split; reflexivity|]).
  subst m. split; reflexivity.
Qed.

(** The digits that [pretty_N_go] puts before [s] are decimal digits, and
    they denote [x]. *)
Lemma pretty_N_go_value (x : N) :
  forall s,
    JsString.all_chars Decimal.is_digit s = true ->
    JsString.all_chars Decimal.is_digit (pretty_N_go x s) = true
    /\ Decimal.value (pretty_N_go x s)
       = Z.of_N x * 10 ^ Z.of_nat (String.length s) + Decimal.value s.
Proof.
  induction (N.lt_wf_0 x) as [x _ IH]; intros s Hs.
  assert (x = 0 \/ 0 < x)%N as [->|Hx] by lia.
  - rewrite pretty_N_go_0. split; [exact Hs | lia].
  - rewrite pretty_N_go_step by exact Hx.
    destruct (pretty_N_char_digit (x `mod` 10)) as [Hd Hv].
    { apply N.mod_lt. lia. }
    destruct (IH (x `div` 10)%N) with
      (s := String (pretty_N_char (x `mod` 10)) s) as [Hall Hval].
    { apply N.div_lt; lia. }
    { cbn [JsString.all_chars]. now rewrite Hd, Hs. }
    split; [exact Hall|]. rewrite Hval.
    cbn [Decimal.value String.length]. rewrite Hv.
    rewrite Nat2Z.inj_succ, Z.pow_succ_r by lia.
    rewrite (N.div_mod x 10) at 3 by lia.
    rewrite N2Z.inj_add, N2Z.inj_mul. change (Z.of_N 10) with 10. ring.
Qed.

(** The decimal numeral of a positive number: digits only, not empty,
    and denoting the number. *)
Lemma pretty_positive_value (p : positive) :
  exists c rest,
    pretty (Z.pos p) = String c rest
    /\ JsString.all_chars Decimal.is_digit (String c rest) = true
    /\ Decimal.value (String c rest) = Z.pos p.
Proof.
  change (pretty (Z.pos p)) with (pretty_N_go (N.pos p) EmptyString).
  destruct (pretty_N_go_value (N.pos p) EmptyString eq_refl) as [Hall Hval].
  cbn [Decimal.value String.length] in Hval.
  destruct (pretty_N_go (N.pos p) EmptyString) as [|c rest] eqn:E.
  - cbn in Hval. lia.
  - exists c, rest. split; [reflexivity|]. split; [exact Hall|].
    rewrite Hval. cbn. lia.
Qed.






Lemma pretty_no_underscore (n : Z) :
  JsString.all_chars Decimal.not_underscore (pretty n) = true.
Proof.
  assert (forall c, Decimal.is_digit c = true ->
                    Decimal.not_underscore c = true) as W.
  { intros c Hc. apply is_digit_cases in Hc. cbn in Hc.
    repeat (destruct Hc as [<-|Hc]; [reflexivity|]). destruct Hc. }
  destruct n as [|p|p]; [reflexivity| |].
  - destruct (pretty_positive_value p) as (c & rest & -> & Hall & _).
    exact (all_chars_weaken _ _ _ W Hall).
  - change (pretty (Z.neg p)) with ("-" +:+ pretty (Z.pos p)).
    destruct (pretty_positive_value p) as (c & rest & -> & Hall & _).
    change (Decimal.not_underscore "-"
            && JsString.all_chars Decimal.not_underscore (String c rest)
            = true).
    rewrite (all_chars_weaken _ _ _ W Hall). reflexivity.
Qed.

(** The id of an executor splits at its mark into the numeral of the
    executor's number. *)
Lemma exec_id_split (n : Z) :
  JsNumber.indexOf (pretty n +:+ "_exec") "_exec"
  = Some (String.length (pretty n))
  /\ JsNumber.substr0 (pretty n +:+ "_exec") (String.length (pretty n))
     = pretty n.
Proof.
  split; [apply indexOf_exec, pretty_no_underscore | apply substr0_app].
Qed.

Lemma exec_key_inj (n m : Z) :
  pretty n +:+ "_exec" = pretty m +:+ "_exec" -> n = m.
Proof.
  intros E. destruct (exec_id_split n) as [Hi Hs].
  destruct (exec_id_split m) as [Hi' Hs'].
  rewrite E, Hi' in Hi. injection Hi as Hlen.
  rewrite E, <- Hlen, Hs' in Hs. now apply (inj pretty).
Qed.

Lemma exec_key_not_number (n m : Z) : pretty n +:+ "_exec" <> pretty m.
Proof.
  intros E. pose proof (pretty_no_underscore m) as Hm. rewrite <- E in Hm.
  clear E. induction (pretty n) as [|c a IH]; [discriminate|].
  rewrite append_cons in Hm. cbn [JsString.all_chars] in Hm.
  apply andb_true_iff in Hm as [_ Hm]. auto.
Qed.

(* ===================================================================== *)
(** * The diff pane: compilers, executors and results *)
(* ===================================================================== *)




Lemma onDiffSelect_fields (i : DiffPane.Id) (this : DiffPane.Diff) :
  DiffPane.compilers (DiffPane.onDiffSelect i this) = DiffPane.compilers this
  /\ DiffPane.lhs (DiffPane.onDiffSelect i this) = DiffPane.lhs this
  /\ DiffPane.rhs (DiffPane.onDiffSelect i this) = DiffPane.rhs this.
Proof.
  unfold DiffPane.onDiffSelect, DiffPane.requestResendResult.
  destruct i as [|n|s]; [auto|auto|].
  destruct (JsNumber.indexOf s "_exec"); auto.
Qed.

Lemma onCompiler_compilers (i : DiffPane.Id) (c : DiffPane.Compiler)
      (options : string) (editorId treeId : Z) (this : DiffPane.Diff) :
  DiffPane.compilers
    (DiffPane.onCompiler i (Some c) options editorId treeId this)
  = <[DiffPane.Id_toString i :=
        DiffPane.mkCompilerEntry i (DiffPane.display_name c options)
                                 options editorId treeId c]>
      (DiffPane.compilers this).
Proof.
  unfold DiffPane.onCompiler. cbn [DiffPane.lhs DiffPane.rhs
    DiffPane.compilers DiffPane.calls].
  destruct (negb (DiffPane.Id_truthy (DiffPane.id (DiffPane.lhs this)))).
  - match goal with
    | |- context [DiffPane.onDiffSelect i ?d] =>
        destruct (onDiffSelect_fields i d) as (Hc & Hl & Hr)
    end.
    cbn [DiffPane.lhs DiffPane.rhs DiffPane.compilers] in Hc, Hl, Hr.
    rewrite Hr.
    destruct (negb (DiffPane.Id_truthy (DiffPane.id (DiffPane.rhs this)))).
    + match goal with
      | |- context [DiffPane.onDiffSelect i (DiffPane.mkDiff ?a ?b ?c ?d)] =>
          destruct (onDiffSelect_fields i (DiffPane.mkDiff a b c d))
            as (Hc2 & _ & _)
      end.
      cbn [DiffPane.call DiffPane.compilers] in *. now rewrite Hc2, Hc.
    + cbn [DiffPane.call DiffPane.compilers]. exact Hc.
  - cbn [DiffPane.rhs DiffPane.compilers DiffPane.lhs DiffPane.calls].
    destruct (negb (DiffPane.Id_truthy (DiffPane.id (DiffPane.rhs this)))).
    + match goal with
      | |- context [DiffPane.onDiffSelect i ?d] =>
          destruct (onDiffSelect_fields i d) as (Hc & _ & _)
      end.
      cbn [DiffPane.call DiffPane.compilers] in *. exact Hc.
    + reflexivity.
Qed.

(** X23.  [onCompiler] registers the compiler under its id with a display
    name of at most 30 characters: the compiler's name, a space and the
    options when that has at most 27 characters, and otherwise its first
    27 characters followed by three dots.  The entry keeps the id and the
    compiler it was given.  (Lengths are those of strings of one-byte
    characters.) *)
Theorem onCompiler_registers_bounded_name
        (i : DiffPane.Id) (c : DiffPane.Compiler) (options : string)
        (editorId treeId : Z) (this : DiffPane.Diff) :
  let full := DiffPane.compiler_name c +:+ " " +:+ options in
  exists entry,
    DiffPane.compilers
      (DiffPane.onCompiler i (Some c) options editorId treeId this)
    !! DiffPane.Id_toString i = Some entry
    /\ DiffPane.entry_id entry = i
    /\ DiffPane.entry_compiler entry = c
    /\ (String.length (DiffPane.entry_name entry) <= 30)%nat
    /\ ((String.length full <= 27)%nat -> DiffPane.entry_name entry = full)
    /\ ((27 < String.length full)%nat ->
        exists kept dropped,
          full = kept +:+ dropped
          /\ String.length kept = 27%nat
          /\ DiffPane.entry_name entry = kept +:+ "...").
Proof.
  intros full. eexists. rewrite onCompiler_compilers, lookup_insert_eq.
  split; [reflexivity|]. cbn [DiffPane.entry_id DiffPane.entry_compiler
                              DiffPane.entry_name].
  split; [reflexivity|]. split; [reflexivity|].
  unfold DiffPane.display_name. fold full.
  change (30 - 3)%nat with 27%nat.
  destruct (Nat.ltb_spec 27 (String.length full)) as [Hlong|Hshort].
  - assert (String.length (JsNumber.substr0 full 27) = 27%nat) as Hkept.
    { rewrite length_substr0. lia. }
    split; [|split].
    + rewrite length_append, Hkept. cbn. lia.
    + lia.
    + intros _. destruct (substr0_prefix full 27) as [dropped E].
      exists (JsNumber.substr0 full 27), dropped. auto.
  - split; [lia|]. split; [reflexivity|lia].
Qed.

Lemma Id_eqb_refl (i : DiffPane.Id) : DiffPane.Id_eqb i i = true.
Proof.
  destruct i as [|n|s]; cbn;
    [reflexivity | apply Z.eqb_refl | apply String.eqb_refl].
Qed.

Lemma onCompileResult_sides (i : DiffPane.Id) (c : DiffPane.Compiler)
      (r : DiffPane.ResultType) (this : DiffPane.Diff) :
  let same side := DiffPane.Id_eqb (DiffPane.id side) i in
  let shown side :=
    if same side
    then DiffPane.refresh
           (DiffPane.mkSide (DiffPane.id side) (DiffPane.model side)
                            (Some (DiffPane.ref_compiler c)) (Some r)
                            (DiffPane.difftype side))
    else side in
  DiffPane.onCompileResult i c r this
  = DiffPane.mkDiff (DiffPane.compilers this)
                    (shown (DiffPane.lhs this)) (shown (DiffPane.rhs this))
                    (DiffPane.calls this
                     ++ if same (DiffPane.lhs this)
                           || same (DiffPane.rhs this)
                        then [DiffPane.updateTitle] else []).
Proof.
  intros same shown. subst same shown.
  unfold DiffPane.onCompileResult, DiffPane.update. cbv beta.
  destruct (DiffPane.Id_eqb (DiffPane.id (DiffPane.lhs this)) i);
    destruct (DiffPane.Id_eqb (DiffPane.id (DiffPane.rhs this)) i);
    cbn [negb orb DiffPane.call DiffPane.compilers DiffPane.lhs
         DiffPane.rhs DiffPane.calls];
    rewrite ?app_nil_r; reflexivity.
Qed.

(** X25.  When both sides show the same compiler, one result of that
    compiler refreshes both: each side holds the result and shows the
    output its own view selects from it, and the title is updated once.
    (The left side changing does not stop the right side from being
    updated.) *)
Theorem onCompileResult_updates_both_sides
        (i : DiffPane.Id) (c : DiffPane.Compiler) (r : DiffPane.ResultType)
        (this : DiffPane.Diff) :
  DiffPane.id (DiffPane.lhs this) = i ->
  DiffPane.id (DiffPane.rhs this) = i ->
  let this' := DiffPane.onCompileResult i c r this in
  let shown side :=
    DiffPane.mkSide i
      (Js.join (String "010"%char EmptyString)
         (map DiffPane.text
            (DiffPane.selected_output
               (DiffPane.mkSide i (DiffPane.model side)
                                (Some (DiffPane.ref_compiler c)) (Some r)
                                (DiffPane.difftype side)))))
      (Some (DiffPane.ref_compiler c)) (Some r) (DiffPane.difftype side) in
  DiffPane.lhs this' = shown (DiffPane.lhs this)
  /\ DiffPane.rhs this' = shown (DiffPane.rhs this)
  /\ DiffPane.calls this' = DiffPane.calls this ++ [DiffPane.updateTitle].
Proof.
  intros Hl Hr this' shown. subst this' shown.
  rewrite onCompileResult_sides. cbv beta.
  rewrite Hl, Hr, Id_eqb_refl.
  cbn [orb DiffPane.lhs DiffPane.rhs DiffPane.calls].
  repeat split.
Qed.

Lemma onCompileResult_updates_both_sides_witness :
  let this' :=
    DiffPane.onCompileResult (DiffPane.IdNum 3) DiffDemo.gcc
                             DiffDemo.compiled DiffDemo.pane_same in
  DiffPane.model (DiffPane.lhs this')
  = String.concat (String "010"%char EmptyString) ["main:"; "  ret"]
  /\ DiffPane.model (DiffPane.rhs this') = "warning: unused"
  /\ DiffPane.calls this' = [DiffPane.updateTitle].
Proof.
  intros this'.
  destruct (onCompileResult_updates_both_sides
              (DiffPane.IdNum 3) DiffDemo.gcc DiffDemo.compiled
              DiffDemo.pane_same eq_refl eq_refl) as (Hl & Hr & Hc).
  subst this'. rewrite Hl, Hr, Hc. repeat split.
Defined.

(** X26.  An execution result of executor [n] reaches the left side when
    that side shows the id [n + '_exec'].  Its execution views then show
    the stdout and stderr of the execution itself, its compiler views show
    the asm, stdout and stderr of the build the execution ran (nothing
    when the result has no build), and a right side that shows a compiler
    with a number id, even the number [n], is not touched. *)
Theorem onExecuteResult_shows_execution_output
        (n : Z) (c : DiffPane.Compiler) (r : DiffPane.ResultType)
        (this : DiffPane.Diff) :
  DiffPane.id (DiffPane.lhs this) = DiffPane.exec_id n ->
  let this' := DiffPane.onExecuteResult n c r this in
  let build (field : DiffPane.ResultType -> option (list DiffPane.ResultEntry)) :=
    default [] (DiffPane.buildResult r ≫= field) in
  let gnat (has : DiffPane.ResultType -> bool)
           (field : DiffPane.ResultType -> option (list DiffPane.ResultEntry)) :=
    match DiffPane.buildResult r with
    | Some b => if has b then default [] (field b) else []
    | None => []
    end in
  DiffPane.model (DiffPane.lhs this')
  = Js.join (String "010"%char EmptyString)
      (map DiffPane.text
         match DiffPane.difftype (DiffPane.lhs this) with
         | DiffPane.DiffType_ExecStdOut => default [] (DiffPane.stdout r)
         | DiffPane.DiffType_ExecStdErr => default [] (DiffPane.stderr r)
         | DiffPane.DiffType_ASM => build DiffPane.asm
         | DiffPane.DiffType_CompilerStdOut => build DiffPane.stdout
         | DiffPane.DiffType_CompilerStdErr => build DiffPane.stderr
         | DiffPane.DiffType_GNAT_ExpandedCode =>
             gnat DiffPane.hasGnatDebugOutput DiffPane.gnatDebugOutput
         | DiffPane.DiffType_GNAT_Tree =>
             gnat DiffPane.hasGnatDebugTreeOutput
                  DiffPane.gnatDebugTreeOutput
         | DiffPane.DiffType_other _ => []
         end)
  /\ (forall m, DiffPane.id (DiffPane.rhs this) = DiffPane.IdNum m ->
                DiffPane.rhs this' = DiffPane.rhs this).
Proof.
  intros Hl this' build gnat. subst this' build gnat.
  unfold DiffPane.onExecuteResult. rewrite onCompileResult_sides. cbv beta.
  cbn [DiffPane.lhs DiffPane.rhs]. split.
  - rewrite Hl, Id_eqb_refl.
    unfold DiffPane.refresh, DiffPane.selected_output.
    cbn [DiffPane.model DiffPane.result DiffPane.difftype].
    destruct (DiffPane.difftype (DiffPane.lhs this));
      destruct (DiffPane.buildResult r) as [b|]; try reflexivity.
  - intros m Hm. rewrite Hm. reflexivity.
Qed.

Lemma onExecuteResult_shows_execution_output_witness :
  let this' :=
    DiffPane.onExecuteResult 3 DiffDemo.gcc DiffDemo.executed
                             DiffDemo.pane_exec in
  DiffPane.model (DiffPane.lhs this')
  = String.concat (String "010"%char EmptyString) ["hello"; "world"]
  /\ DiffPane.rhs this' = DiffPane.rhs DiffDemo.pane_exec.
Proof.
  intros this'.
  destruct (onExecuteResult_shows_execution_output
              3 DiffDemo.gcc DiffDemo.executed DiffDemo.pane_exec eq_refl)
    as [Hmodel Hrhs].
  split; [exact Hmodel | exact (Hrhs 3 eq_refl)].
Defined.

(** X27.  Executors and compilers do not share entries.  Opening or
    closing executor [n] leaves the entry of every compiler with a number
    id and of every other executor as it was. *)
Theorem executor_entries_are_separate
        (n : Z) (c : option DiffPane.Compiler) (options : string)
        (editorId treeId : Z) (this : DiffPane.Diff) :
  let opened := DiffPane.onExecutor n c options editorId treeId this in
  let closed := DiffPane.onExecutorClose n this in
  (forall m : Z,
      DiffPane.compilers opened !! DiffPane.Id_toString (DiffPane.IdNum m)
      = DiffPane.compilers this !! DiffPane.Id_toString (DiffPane.IdNum m)
      /\ DiffPane.compilers closed
         !! DiffPane.Id_toString (DiffPane.IdNum m)
         = DiffPane.compilers this
           !! DiffPane.Id_toString (DiffPane.IdNum m))
  /\ (forall m : Z,
         m <> n ->
         DiffPane.compilers opened
         !! DiffPane.Id_toString (DiffPane.exec_id m)
         = DiffPane.compilers this
           !! DiffPane.Id_toString (DiffPane.exec_id m)
         /\ DiffPane.compilers closed
            !! DiffPane.Id_toString (DiffPane.exec_id m)
            = DiffPane.compilers this
              !! DiffPane.Id_toString (DiffPane.exec_id m)).
Proof.
  intros opened closed.
  assert (DiffPane.compilers closed
          = delete (pretty n +:+ "_exec") (DiffPane.compilers this))
    as -> by reflexivity.
  assert (forall key, key <> pretty n +:+ "_exec" ->
                      DiffPane.compilers opened !! key
                      = DiffPane.compilers this !! key) as Hopened.
  { intros key Hkey. subst opened. unfold DiffPane.onExecutor.
    destruct c as [c|]; [|reflexivity].
    rewrite onCompiler_compilers. apply lookup_insert_ne.
    cbn [DiffPane.Id_toString DiffPane.exec_id]. congruence. }
  cbn [DiffPane.Id_toString DiffPane.exec_id]. split.
  - intros m.
    assert (pretty m <> pretty n +:+ "_exec") as Hne.
    { intros E. exact (exec_key_not_number n m (eq_sym E)). }
    split; [apply Hopened, Hne | apply lookup_delete_ne; congruence].
  - intros m Hm.
    assert (pretty m +:+ "_exec" <> pretty n +:+ "_exec") as Hne.
    { intros E. apply Hm, exec_key_inj, E. }
    split; [apply Hopened, Hne | apply lookup_delete_ne; congruence].
Qed.

(** X28.  Closing a compiler that was opened under a fresh id gives back
    the compilers the pane had before.  The sides are not reset by the
    close: a side that selected the compiler still names it. *)
Theorem onCompilerClose_undoes_onCompiler
        (i : DiffPane.Id) (c : DiffPane.Compiler) (options : string)
        (editorId treeId : Z) (this : DiffPane.Diff) :
  DiffPane.compilers this !! DiffPane.Id_toString i = None ->
  let opened :=
    DiffPane.onCompiler i (Some c) options editorId treeId this in
  let closed := DiffPane.onCompilerClose i opened in
  DiffPane.compilers closed = DiffPane.compilers this
  /\ DiffPane.lhs closed = DiffPane.lhs opened
  /\ DiffPane.rhs closed = DiffPane.rhs opened.
Proof.
  intros Hfresh opened closed. subst closed.
  unfold DiffPane.onCompilerClose.
  cbn [DiffPane.call DiffPane.compilers DiffPane.lhs DiffPane.rhs].
  split; [|split; reflexivity].
  subst opened. rewrite onCompiler_compilers.
  apply delete_insert_id, Hfresh.
Qed.

Lemma onCompilerClose_undoes_onCompiler_witness :
  let opened :=
    DiffPane.onCompiler (DiffPane.IdNum 1) (Some DiffDemo.gcc) "-O2" 1 0
                        DiffDemo.pane0 in
  let closed := DiffPane.onCompilerClose (DiffPane.IdNum 1) opened in
  DiffPane.compilers closed = DiffPane.compilers DiffDemo.pane0
  /\ DiffPane.lhs closed = DiffPane.lhs opened
  /\ DiffPane.rhs closed = DiffPane.rhs opened.
Proof.
  apply (onCompilerClose_undoes_onCompiler
           (DiffPane.IdNum 1) DiffDemo.gcc "-O2" 1 0 DiffDemo.pane0).
  reflexivity.
Defined.
